(** * Geo-event enrichment scripts: a shallow embedding

    The development follows the three scripts of the repository:
    - [scripts/common.py]: [strip_srid] (and the retry session, which is the
      network oracle below);
    - [scripts/noaa_weather_join.py]: [ncei_request], [find_nearest_station],
      [fetch_daily_chunked] and the left join at the end of [main];
    - [scripts/osm_infrastructure_join.py]: [query_overpass] and the
      per-perimeter loop of [main].

    Conventions.
    - Python exceptions are values of [exn]; a call either returns or raises
      ([outcome]).
    - The outside world is explicit: a call to [session.get] consumes the next
      answer of a network oracle [net : nat -> attempt A] (the k-th answer is
      what the k-th GET of the run comes back with, after the adapter-level
      retries of [make_retry_session]), and every GET, every [time.sleep] and
      every warning line is appended to a chronological [trace].
    - JSON payloads are typed by the API schema: an observation has a date, a
      datatype and a value; a station may lack its id or a coordinate, which
      the code reads with [dict.get].
    - [haversine_km] and [bbox_from_point] compute in binary64: their numbers
      are the kernel's primitive floats ([float], whose operations are those
      of IEEE 754), and libm's [sin], [cos], [asin] and [pow] are parameters
      ([libm]) behind the checks CPython's [math] module and [float.__pow__]
      put around them.  Binary64 numbers that the scripts only compare, copy
      or print are rationals ([Q]; every finite float is one).
    - Calendar days are integers (day ordinals); instants are integers
      (nanoseconds since the epoch, UTC), as pandas stores them.  A pandas
      [Timestamp] or [Timedelta] holds a signed 64-bit count of nanoseconds:
      building one outside that range raises. *)

From Stdlib Require Import ZArith QArith Qabs String Ascii List Lia Floats.
From stdpp Require Import base list strings sorting pretty.

Local Open Scope Z_scope.

(** ** Exceptions and outcomes *)

Inductive exn : Type :=
| IndexError
| AttributeError
| ReadTimeout
| ConnectionError
| HTTPError
| JSONDecodeError
| OtherError (name : string)
| RuntimeError (msg : string).

Inductive outcome (X : Type) : Type :=
| Return (x : X)
| Raise (e : exn).
Arguments Return {X} x.
Arguments Raise {X} e.

(** Evaluation in sequence: the first step that raises ends it. *)
#[global] Instance outcome_ret : MRet outcome := fun X x => Return x.
#[global] Instance outcome_bind : MBind outcome := fun X Y f o =>
  match o with
  | Return x => f x
  | Raise e => Raise e
  end.

(** ** scripts/common.py *)

(** A Python value handed to [strip_srid]: a [str], or anything else (the
    [isinstance] guard returns it untouched). *)
Inductive pyobj : Type :=
| Str (s : string)
| NotAStr (repr : string).

(** [s.partition(sep)] when [sep] occurs: the text before and after the first
    occurrence. *)
Fixpoint cut_at_first (sep : ascii) (s : string) : option (string * string) :=
  match s with
  | EmptyString => None
  | String c s' =>
      if Ascii.eqb c sep then Some (EmptyString, s')
      else match cut_at_first sep s' with
           | Some (before, after) => Some (String c before, after)
           | None => None
           end
  end.

(** [s.split(sep, 1)]: at most one split, hence one or two pieces. *)
Definition split1 (sep : ascii) (s : string) : list string :=
  match cut_at_first sep s with
  | Some (before, after) => [before; after]
  | None => [s]
  end.

Definition startswith (s pre : string) : bool := String.prefix pre s.

Definition strip_srid (geom : pyobj) : outcome pyobj :=
  match geom with
  | NotAStr _ => Return geom
  | Str g =>
      if startswith g "SRID=" then
        match split1 ";" g !! 1%nat with
        | Some rest => Return (Str rest)
        | None => Raise IndexError
        end
      else Return geom
  end.

(** [strip_srid(strip_srid(g))]: the second call runs only if the first
    returned. *)
Definition strip_srid_twice (geom : pyobj) : outcome pyobj :=
  match strip_srid geom with
  | Return g' => strip_srid g'
  | Raise e => Raise e
  end.

(** ** The outside world *)

(** Query parameters of the three kinds of GET the scripts issue. *)
Inductive params : Type :=
| StationsParams (datasetid : string) (extent : float * float * float * float)
                 (startdate enddate : Z) (limit : Z)
| DataParams (datasetid stationid : string) (startdate enddate : Z)
             (units : string) (limit : Z) (datatypeid : list string)
| OverpassParams (amenities : list string) (lat lon : Q) (radius_m : Z).

Inductive event : Type :=
| EvGet (url : string) (token : option string) (p : params)
| EvSleep (secs : Q)
| EvWarnChunk (current chunk_end : Z) (e : exn)
| EvWarnPerimeter (perim_id : Z) (e : exn).

Record world : Type := World {
  gets : nat;            (* GETs issued so far *)
  trace : list event     (* what happened, oldest first *)
}.

Definition log (ev : event) (w : world) : world :=
  {| gets := gets w; trace := trace w ++ [ev] |}.

(** A computation that may raise and that changes the world. *)
Definition M (X : Type) : Type := world -> outcome X * world.

#[global] Instance M_ret : MRet M := fun X x w => (Return x, w).
#[global] Instance M_bind : MBind M := fun X Y f m w =>
  match m w with
  | (Return x, w') => f x w'
  | (Raise e, w') => (Raise e, w')
  end.

Definition raise {X : Type} (e : exn) : M X := fun w => (Raise e, w).

(** [try: body / except <classes matched by handler>: ...]: the handler
    answers [None] for an exception its clause does not match, which then
    propagates. *)
Definition try_except {X : Type} (body : M X) (handler : exn -> option (M X)) : M X :=
  fun w =>
    match body w with
    | (Return x, w') => (Return x, w')
    | (Raise e, w') =>
        match handler e with
        | Some h => h w'
        | None => (Raise e, w')
        end
    end.

Definition sleep (secs : Q) : M unit := fun w => (Return tt, log (EvSleep secs) w).

(** A step that leaves the world as it is. *)
Definition pure_step {X : Type} (o : outcome X) : M X := fun w => (o, w).

(** ** The HTTP layer *)

Section Http.
(** [A]: the records a JSON answer lists ("results" of the climate API,
    "elements" of Overpass). *)
Context {A : Type}.

(** A decoded JSON document: a dict with or without the list the caller reads,
    or anything that is not a dict. *)
Inductive json : Type :=
| JDict (items : option (list A))
| JOther.

Record response : Type := Response {
  status_code : Z;
  text : string;
  body : option json      (* [None]: the body is not JSON *)
}.

(** What [session.get] can raise. *)
Inductive net_error : Type :=
| NetReadTimeout
| NetConnectionError
| NetOther (name : string).

Inductive attempt : Type :=
| Fails (e : net_error)
| Responds (r : response).

Definition exn_of (e : net_error) : exn :=
  match e with
  | NetReadTimeout => ReadTimeout
  | NetConnectionError => ConnectionError
  | NetOther name => OtherError name
  end.

Variable net : nat -> attempt.

Definition session_get (url : string) (token : option string) (p : params) : M response :=
  fun w =>
    let w' := {| gets := S (gets w); trace := trace w ++ [EvGet url token p] |} in
    match net (gets w) with
    | Fails e => (Raise (exn_of e), w')
    | Responds r => (Return r, w')
    end.

(** [Response.raise_for_status]: client errors (4xx) and server errors (5xx)
    raise, every other status passes. *)
Definition raise_for_status (r : response) : M unit :=
  if (400 <=? status_code r) && (status_code r <? 600) then raise HTTPError
  else mret tt.

Definition response_json (r : response) : M json :=
  match body r with
  | Some j => mret j
  | None => raise JSONDecodeError
  end.

(** [js.get(key, []) if isinstance(js, dict) else []] *)
Definition items_of (js : json) : list A :=
  match js with
  | JDict (Some l) => l
  | _ => []
  end.

(** *** scripts/noaa_weather_join.py: ncei_request *)

Definition NCEI_BASE : string := "https://www.ncei.noaa.gov/cdo-web/api/v2".

Definition manual_retries : nat := 2.

(** [r.text[:400]] *)
Definition text_400 (r : response) : string := substring 0 400 (text r).

Definition ncei_http_message (r : response) : string :=
  ("NCEI HTTP " ++ pretty (status_code r) ++ ": " ++ text_400 r)%string.

Definition timeout_or_connection (e : exn) : bool :=
  match e with
  | ReadTimeout | ConnectionError => true
  | _ => false
  end.

(** The [for i in range(manual_retries + 1)] loop, over the values of [i]
    still to run.  Falling out of the loop would return [None], which is not
    a dict. *)
Fixpoint ncei_attempts (url : string) (token : string) (p : params)
    (todo : list nat) : M json :=
  match todo with
  | [] => mret JOther
  | i :: todo' =>
      try_except
        (r ← session_get url (Some token) p;
         try_except
           (raise_for_status r ;; response_json r)
           (fun e =>
              match e with
              | HTTPError => Some (raise (RuntimeError (ncei_http_message r)))
              | _ => None
              end))
        (fun e =>
           if timeout_or_connection e then
             Some (if (i <? manual_retries)%nat
                   then sleep (inject_Z (2 * (Z.of_nat i + 1))) ;;
                        ncei_attempts url token p todo'
                   else raise e)
           else None)
  end.

Definition ncei_request (path : string) (p : params) (token : string) : M json :=
  ncei_attempts (NCEI_BASE ++ "/" ++ path)%string token p (seq 0 (manual_retries + 1)).

End Http.

Arguments json : clear implicits.
Arguments response : clear implicits.
Arguments attempt : clear implicits.

(** ** scripts/noaa_weather_join.py *)

(** *** Binary64 arithmetic as Python does it *)

(** The functions of the C library that [math] and [float.__pow__] call. *)
Record libm : Type := Libm {
  libm_sin : float -> float;
  libm_cos : float -> float;
  libm_asin : float -> float;
  libm_pow : float -> float -> float
}.

(** [math.sin], [math.cos], [math.asin], [math.sqrt]: the wrapper [math_1] of
    CPython's mathmodule.c around a function [f] of the C library.  A NaN
    made from a number, and an infinity made from a finite number, are a
    [ValueError] ("math domain error"). *)
Definition math_1 (f : float -> float) (x : float) : outcome float :=
  let r := f x in
  if is_nan r && negb (is_nan x) then Raise (OtherError "ValueError")
  else if is_infinity r && is_finite x then Raise (OtherError "ValueError")
  else Return r.

(** [math.radians]: [x * (pi / 180)], with the binary64 nearest to pi. *)
Definition deg_to_rad : float := (0x1.921fb54442d18p+1 / 180)%float.

Definition radians (x : float) : float := (x * deg_to_rad)%float.

(** [x / y] on floats: Python raises where IEEE 754 divides by zero. *)
Definition truediv (x y : float) : outcome float :=
  if (y =? 0)%float then Raise (OtherError "ZeroDivisionError")
  else Return (x / y)%float.

(** [int(x)]: the integer part, exactly; none for a NaN or an infinity. *)
Definition int_of_float (x : float) : outcome Z :=
  match Prim2SF x with
  | S754_zero _ => Return 0
  | S754_finite s m e => Return (cond_Zopp s (Z.shiftl (Z.pos m) e))
  | S754_infinity _ => Raise (OtherError "OverflowError")
  | S754_nan => Raise (OtherError "ValueError")
  end.

Section Libm.
Variable m : libm.

(** [iv ** 2] ([float_pow] of CPython's floatobject.c with the exponent 2.0):
    NaN, the infinities, zero and one are answered without the C library;
    any other base goes to [pow] by its absolute value, and an infinite
    result is an [OverflowError]. *)
Definition float_pow2 (iv : float) : outcome float :=
  if is_nan iv then Return iv
  else if is_infinity iv then Return infinity
  else if (iv =? 0)%float then Return 0%float
  else
    let v := abs iv in
    if (v =? 1)%float then Return 1%float
    else
      let ix := libm_pow m v 2 in
      if is_infinity ix then Raise (OtherError "OverflowError") else Return ix.

(** [bbox_from_point(lat, lon, km)] (lines 39-42); [max(0.1, c)] keeps [0.1]
    unless [c > 0.1]. *)
Definition bbox_from_point (lat lon km : float)
    : outcome (float * float * float * float) :=
  let dlat := (km / 111)%float in
  c ← math_1 (libm_cos m) (radians lat);
  let widest := if (0x1.999999999999ap-4 <? c)%float then c
                else 0x1.999999999999ap-4%float in
  dlon ← truediv km (111 * widest);
  Return (lon - dlon, lat - dlat, lon + dlon, lat + dlat)%float.

(** [haversine_km(lat1, lon1, lat2, lon2)] (lines 44-51) on four floats, its
    operations in the order Python evaluates them. *)
Definition haversine_km (lat1 lon1 lat2 lon2 : float) : outcome float :=
  let R := 6371%float in
  let p1 := radians lat1 in
  let p2 := radians lat2 in
  let dphi := radians (lat2 - lat1) in
  let dlmb := radians (lon2 - lon1) in
  s1 ← math_1 (libm_sin m) (dphi / 2);
  q1 ← float_pow2 s1;
  c1 ← math_1 (libm_cos m) p1;
  c2 ← math_1 (libm_cos m) p2;
  s2 ← math_1 (libm_sin m) (dlmb / 2);
  q2 ← float_pow2 s2;
  let a := (q1 + c1 * c2 * q2)%float in
  r ← math_1 PrimFloat.sqrt a;
  t ← math_1 (libm_asin m) r;
  Return (2 * R * t)%float.

End Libm.

(** [min(xs, key=key)] on a non-empty sequence, once the keys are computed:
    the running best is replaced only by an element whose key is strictly
    smaller ([<] on floats: false as soon as one side is NaN). *)
Fixpoint min_from {X : Type} (best : X * float) (xs : list (X * float)) : X * float :=
  match xs with
  | [] => best
  | x :: xs' => min_from (if (x.2 <? best.2)%float then x else best) xs'
  end.

(** The keys of a sequence, computed in its order: the first that raises ends
    the call. *)
Fixpoint with_keys {X : Type} (key : X -> outcome float) (xs : list X)
    : outcome (list (X * float)) :=
  match xs with
  | [] => Return []
  | x :: xs' =>
      k ← key x;
      ks ← with_keys key xs';
      Return ((x, k) :: ks)
  end.

(** A station of the "results" list; [None] where the dict lacks the key. *)
Record station : Type := Station {
  station_id : option string;
  station_name : string;
  latitude : option float;
  longitude : option float
}.

(** [dict(best)] with the extra key ["dist_km"]. *)
Record located_station : Type := Located {
  best : station;
  dist_km : float
}.

Record observation : Type := Observation {
  date : string;          (* as sent: an ISO timestamp *)
  datatype : string;
  obs_station : string;
  attributes : string;
  value : Q
}.

(** The wide table: one column per observation type next to the date column,
    one list of cells per row, a cell being empty or one number. *)
Record table : Type := Table {
  columns : list string;
  rows : list (Z * list (option Q))
}.

Definition same_observation (r1 r2 : observation) : bool :=
  bool_decide (date r1 = date r2) && bool_decide (datatype r1 = datatype r2)
  && bool_decide (obs_station r1 = obs_station r2)
  && bool_decide (attributes r1 = attributes r2)
  && Qeq_bool (value r1) (value r2).

(** Keeps the first of the rows that are the same, in order:
    [DataFrame.drop_duplicates()] and the unique keys of a group-by. *)
Fixpoint drop_duplicates_from {X : Type} (same : X -> X -> bool)
    (seen : list X) (df : list X) : list X :=
  match df with
  | [] => []
  | r :: df' =>
      if existsb (same r) seen then drop_duplicates_from same seen df'
      else r :: drop_duplicates_from same (r :: seen) df'
  end.

Definition drop_duplicates {X : Type} (same : X -> X -> bool) (df : list X) : list X :=
  drop_duplicates_from same [] df.

Definition ns_per_day : Z := 86400000000000.

(** [Series.dt.normalize()]: midnight of the same day. *)
Definition normalize (t : Z) : Z := t / ns_per_day * ns_per_day.

(** [Series.dt.date], as a day ordinal. *)
Definition date_of (t : Z) : Z := t / ns_per_day.

(** What a [Timestamp] or a [Timedelta] can hold: a signed 64-bit count of
    nanoseconds, the least value being kept for NaT. *)
Definition int64_max : Z := 9223372036854775807.

Definition in_bounds (ns : Z) : bool := (- int64_max <=? ns) && (ns <=? int64_max).

(** [t + d] of an instant and a span, both in nanoseconds. *)
Definition timestamp_add (t d : Z) : outcome Z :=
  if in_bounds (t + d) then Return (t + d)
  else Raise (OtherError "OutOfBoundsDatetime").

(** [pd.to_datetime(s).normalize()] for a date [s] written ["%Y-%m-%d"]: the
    midnight of that day, named by its day ordinal. *)
Definition to_timestamp (day : Z) : outcome Z :=
  if in_bounds (day * ns_per_day) then Return day
  else Raise (OtherError "OutOfBoundsDatetime").

(** [pd.Timedelta(days=n)], counted in days. *)
Definition timedelta_days (n : Z) : outcome Z :=
  if in_bounds (n * ns_per_day) then Return n
  else Raise (OtherError "OutOfBoundsTimedelta").

(** [t + d] of the midnight of a day and a span of whole days: the day
    reached. *)
Definition add_days (day n : Z) : outcome Z :=
  if in_bounds ((day + n) * ns_per_day) then Return (day + n)
  else Raise (OtherError "OutOfBoundsDatetime").

(** The first and the last day a [Timestamp] can be the midnight of:
    1677-09-22 and 2262-04-11. *)
Definition max_day : Z := 106751.

Definition string_le (a b : string) : Prop := Is_true (String.leb a b).

(** The first row of the group [(d, c)]. *)
Definition first_in_group (df : list (Z * observation)) (d : Z) (c : string)
    : option (Z * observation) :=
  head (filter (fun dr => dr.1 = d /\ datatype dr.2 = c) df).

(** [df.pivot_table(index="date", columns="datatype", values="value",
    aggfunc="first").reset_index()]: rows whose date is NaT belong to no
    group; group keys come out sorted. *)
Definition pivot_table_first (df : list (option Z * observation)) : table :=
  let keyed := omap (fun dr => match dr.1 with
                               | Some d => Some (d, dr.2)
                               | None => None
                               end) df in
  let index := merge_sort Z.le (drop_duplicates Z.eqb (map fst keyed)) in
  let cols := merge_sort string_le
                (drop_duplicates String.eqb (map (fun dr => datatype dr.2) keyed)) in
  {| columns := cols;
     rows := map (fun d =>
                    (d, map (fun c => (fun dr => value dr.2) <$> first_in_group keyed d c)
                            cols))
                 index |}.

(** [events] as read from the CSV: the columns the join looks at, and the rest
    of the line. *)
Record event_row : Type := EventRow {
  ev_lat : option Q;
  ev_lng : option Q;
  date_created : option string;
  date_modified : option string;
  ev_rest : string
}.

(** [left.merge(right, left_on=..., right_on=..., how="left")]: left rows in
    order, each once per matching right row, or once with the right columns
    empty; pandas lets a missing key match a missing key. *)
Definition merge_left {L R : Type} (left_on : L -> option Z) (right_on : R -> option Z)
    (left : list L) (right : list R) : list (L * option R) :=
  flat_map (fun l =>
              match filter (fun r => right_on r = left_on l) right with
              | [] => [(l, None)]
              | matches => map (fun r => (l, Some r)) matches
              end)
           left.

Section Noaa.
Variable m : libm.

(** [pd.to_datetime(s, utc=True, errors="coerce")]: the instant, or NaT. *)
Variable to_datetime_utc : string -> option Z.

(** [haversine_km(lat, lon, s.get("latitude"), s.get("longitude"))], the key
    of line 70 and the distance of line 72: on a station that lacks a
    coordinate, [radians] (line 47) or the subtraction (line 49) raises
    [TypeError] before any of the libm calls of line 50. *)
Definition station_distance (lat lon : float) (s : station) : outcome float :=
  match latitude s, longitude s with
  | Some lat2, Some lon2 => haversine_km m lat lon lat2 lon2
  | _, _ => Raise (OtherError "TypeError")
  end.

(** Lines 68-73, on the list [results]. *)
Definition nearest_of (lat lon : float) (results : list station)
    : outcome (option located_station) :=
  match results with
  | [] => Return None
  | s0 :: others =>
      k0 ← station_distance lat lon s0;
      ks ← with_keys (station_distance lat lon) others;
      let b := (min_from (s0, k0) ks).1 in
      d ← station_distance lat lon b;
      Return (Some {| best := b; dist_km := d |})
  end.

Definition find_nearest_station (net : nat -> attempt station)
    (lat lon : float) (start end_ : Z) (token : string)
    (datasetid : string) (km : float) : M (option located_station) :=
  box ← pure_step (bbox_from_point m lat lon km);
  let '(minlon, minlat, maxlon, maxlat) := box in
  js ← ncei_request net "stations"
         (StationsParams datasetid (minlat, minlon, maxlat, maxlon) start end_ 1000)
         token;
  pure_step (nearest_of lat lon (items_of js)).

(** The body of the loop of [fetch_daily_chunked] for one chunk (lines
    83-98): one request for all datatypes; a failure is logged and the
    chunk skipped. *)
Definition fetch_chunk (net : nat -> attempt observation)
    (stationid token : string) (datatypes : list string) (limit : Z)
    (chunk : Z * Z) (st : list (list observation) * world)
    : list (list observation) * world :=
  let '(current, chunk_end) := chunk in
  let '(frames, w) := st in
  let p := DataParams "GHCND" stationid current chunk_end "standard"
                      limit datatypes in
  match ncei_request net "data" p token w with
  | (Return js, w1) =>
      match items_of js with
      | [] => (frames, w1)
      | res => (frames ++ [res], w1)
      end
  | (Raise e, w1) => (frames, log (EvWarnChunk current chunk_end e) w1)
  end.

(** The [while current <= end_dt] loop (lines 80-99) over midnights named by
    their day ordinals; [None] when the fuel runs out before the loop ends.
    The two additions (lines 82 and 99) stand outside the [try]: what they
    raise leaves the function. *)
Fixpoint fetch_chunks (fuel : nat) (net : nat -> attempt observation)
    (stationid token : string) (datatypes : list string) (chunk_days limit : Z)
    (end_dt current : Z) (st : list (list observation) * world)
    : option (outcome (list (list observation)) * world) :=
  match fuel with
  | O => None
  | S fuel' =>
      if current <=? end_dt then
        match timedelta_days (chunk_days - 1) ≫= add_days current with
        | Raise e => Some (Raise e, st.2)
        | Return reach =>
            let chunk_end := Z.min reach end_dt in
            let st' := fetch_chunk net stationid token datatypes limit
                                   (current, chunk_end) st in
            match timedelta_days 1 ≫= add_days chunk_end with
            | Raise e => Some (Raise e, st'.2)
            | Return next =>
                fetch_chunks fuel' net stationid token datatypes chunk_days limit
                             end_dt next st'
            end
        end
      else Some (Return st.1, st.2)
  end.

(** Lines 101-107: what the frames become. *)
Definition daily_table (frames : list (list observation)) : table :=
  match frames with
  | [] => {| columns := []; rows := [] |}
  | _ =>
      let df := drop_duplicates same_observation (concat frames) in
      pivot_table_first
        (map (fun r => (normalize <$> to_datetime_utc (date r), r)) df)
  end.

(** [fetch_daily_chunked] (lines 75-107) for two dates given by their day
    ordinals. *)
Definition fetch_daily_chunked (fuel : nat) (net : nat -> attempt observation)
    (stationid : string) (start end_ : Z) (token : string)
    (datatypes : list string) (chunk_days limit : Z) (w : world)
    : option (outcome table * world) :=
  match to_timestamp start, to_timestamp end_ with
  | Raise e, _ => Some (Raise e, w)
  | Return _, Raise e => Some (Raise e, w)
  | Return start_dt, Return end_dt =>
      match fetch_chunks fuel net stationid token datatypes chunk_days limit
                         end_dt start_dt ([], w) with
      | Some (Return frames, w') => Some (Return (daily_table frames), w')
      | Some (Raise e, w') => Some (Raise e, w')
      | None => None
      end
  end.

(** The join of [main] (lines 120-123 and 152-155). *)
Definition event_dt (e : event_row) : option Z :=
  match date_modified e with
  | Some s => to_datetime_utc s
  | None => date_created e ≫= to_datetime_utc
  end.

Definition event_date (e : event_row) : option Z := date_of <$> event_dt e.

Definition noaa_date (r : Z * list (option Q)) : option Z := Some (date_of r.1).

Definition join_events (events : list event_row) (daily : table)
    : list (event_row * option (Z * list (option Q))) :=
  merge_left event_date noaa_date events (rows daily).

End Noaa.

(** ** scripts/osm_infrastructure_join.py *)

Definition OVERPASS : string := "https://overpass-api.de/api/interpreter".

(** An element of an Overpass answer: a node carries [lat]/[lon], a way only a
    [center]. *)
Record element : Type := Element {
  el_type : string;
  el_id : Z;
  tag_name : option string;
  tag_amenity : option string;
  el_lat : option Q;
  el_lon : option Q;
  el_center : option (Q * Q)
}.

Record amenity_row : Type := AmenityRow {
  osm_id : string;
  name : string;
  amenity : string;
  lat : option Q;
  lon : option Q;
  perim_id : option Z
}.

Definition row_of_element (el : element) : amenity_row :=
  {| osm_id := (el_type el ++ ":" ++ pretty (el_id el))%string;
     name := default EmptyString (tag_name el);
     amenity := default EmptyString (tag_amenity el);
     lat := match el_lat el with
            | Some y => Some y
            | None => fst <$> el_center el
            end;
     lon := match el_lon el with
            | Some x => Some x
            | None => snd <$> el_center el
            end;
     perim_id := None |}.

Definition set_perim_id (pid : Z) (r : amenity_row) : amenity_row :=
  {| osm_id := osm_id r; name := name r; amenity := amenity r;
     lat := lat r; lon := lon r; perim_id := Some pid |}.

Section Osm.
Variable net : nat -> attempt element.

Definition query_overpass (amenities : list string) (lat lon : Q) (radius_m : Z)
    : M (list amenity_row) :=
  r ← session_get net OVERPASS None (OverpassParams amenities lat lon radius_m);
  raise_for_status r ;;
  data ← response_json r;
  match data with
  | JDict items => mret (map row_of_element (default [] items))
  | JOther => raise AttributeError       (* [data.get] on a non-dict *)
  end.

(** The pause after a query: [time.sleep(1.2)]. *)
Definition pause : Q := 12 # 10.

(** The [for perim_id, lat, lon in centroids] loop of [main] (lines 85-94);
    its [except Exception] lets nothing escape. *)
Fixpoint query_perimeters (amenities : list string) (radius_m : Z)
    (centroids : list (Z * Q * Q)) (all_rows : list amenity_row) (w : world)
    : list amenity_row * world :=
  match centroids with
  | [] => (all_rows, w)
  | (pid, lat, lon) :: centroids' =>
      match query_overpass amenities lat lon radius_m w with
      | (Return rows, w1) =>
          query_perimeters amenities radius_m centroids'
            (all_rows ++ map (set_perim_id pid) rows)
            (log (EvSleep pause) w1)
      | (Raise e, w1) =>
          query_perimeters amenities radius_m centroids' all_rows
            (log (EvWarnPerimeter pid e) w1)
      end
  end.

End Osm.

(** ** Reading a trace *)

(** The date ranges of the GETs of a trace, in order. *)
Definition requested_ranges (tr : list event) : list (Z * Z) :=
  omap (fun ev => match ev with
                  | EvGet _ _ (DataParams _ _ a b _ _ _) => Some (a, b)
                  | _ => None
                  end) tr.

(** [paced tr]: between any GET of [tr] and the next one, some sleep lasts at
    least a second.  [waited] tells whether such a sleep was seen since the
    last GET. *)
Fixpoint paced_from (waited : bool) (tr : list event) : bool :=
  match tr with
  | [] => true
  | EvGet _ _ _ :: tr' => waited && paced_from false tr'
  | EvSleep s :: tr' => paced_from (waited || Qle_bool 1 s) tr'
  | _ :: tr' => paced_from waited tr'
  end.

Definition paced (tr : list event) : bool := paced_from true tr.

(** [retryable_failure a]: the GET raised what the inner loop of
    [ncei_request] catches. *)
Definition retryable_failure {A : Type} (a : attempt A) : bool :=
  match a with
  | Fails NetReadTimeout | Fails NetConnectionError => true
  | _ => false
  end.

(** How many of the answers [k], [k+1], ... (at most [n] of them) fail that
    way in a row. *)
Fixpoint failed_attempts {A : Type} (net : nat -> attempt A) (k n : nat) : nat :=
  match n with
  | O => O
  | S n' => if retryable_failure (net k) then S (failed_attempts net (S k) n') else O
  end.

(** The events of a call that sleeps and retries [m] times: each failed GET
    is followed by a sleep of [2 * (i + 1)] seconds, then one more GET. *)
Definition retry_trace (url token : string) (p : params) (m : nat) : list event :=
  flat_map (fun i => [EvGet url (Some token) p;
                      EvSleep (inject_Z (2 * (Z.of_nat i + 1)))])
           (seq 0 m)
  ++ [EvGet url (Some token) p].

(** What the attempt that ends a call of [ncei_request] leaves: the decoded
    body, or the exception that leaves the function. *)
Definition settled {A : Type} (a : attempt A) : outcome (json A) :=
  match a with
  | Fails e => Raise (exn_of e)
  | Responds r =>
      if (400 <=? status_code r) && (status_code r <? 600)
      then Raise (RuntimeError (ncei_http_message r))
      else match body r with
           | Some j => Return j
           | None => Raise JSONDecodeError
           end
  end.

(** The world after one more GET. *)
Definition got (url token : string) (p : params) (w : world) : world :=
  {| gets := S (gets w); trace := trace w ++ [EvGet url (Some token) p] |}.

(** [tiles a cs z]: the ranges [cs] (inclusive bounds) follow each other
    without gap or overlap, from day [a] up to the day before [z]. *)
Fixpoint tiles (a : Z) (cs : list (Z * Z)) (z : Z) : Prop :=
  match cs with
  | [] => a = z
  | c :: cs' => c.1 = a /\ c.1 <= c.2 /\ tiles (c.2 + 1) cs' z
  end.

(** The ranges of the GETs when the chunk [c] of [cs] takes [S k] GETs, for
    the [k] at the same position of [ks]. *)
Definition chunk_gets (cs : list (Z * Z)) (ks : list nat) : list (Z * Z) :=
  concat (zip_with (fun c k => replicate (S k) c) cs ks).


(** The invariant of the scan of [min]: the running best sits at index [i] of
    what was scanned, nothing scanned has a smaller key, and everything
    scanned before it has a strictly larger key. *)
Definition is_first_min {X : Type} (l : list (X * float)) (i : nat) (b : X * float)
    : Prop :=
  l !! i = Some b
  /\ (forall s, s ∈ l -> (b.2 <=? s.2)%float = true)
  /\ (forall j s, (j < i)%nat -> l !! j = Some s -> (b.2 <? s.2)%float = true).

(** Where a float that is not NaN stands in the order of [<]: its sign class,
    then its exponent, then its mantissa (both counted downwards for a
    negative number).  The two zeros stand at the same place. *)
Definition SFrank (f : spec_float) : Z * Z * Z :=
  match f with
  | S754_zero _ | S754_nan => (0, 0, 0)
  | S754_infinity s => (if s then -2 else 2, 0, 0)
  | S754_finite s mx ex => if s then (-1, - ex, - Z.pos mx) else (1, ex, Z.pos mx)
  end.

Definition lex_lt (a b : Z * Z * Z) : Prop :=
  a.1.1 < b.1.1
  \/ (a.1.1 = b.1.1 /\ (a.1.2 < b.1.2 \/ (a.1.2 = b.1.2 /\ a.2 < b.2))).

Definition lex_le (a b : Z * Z * Z) : Prop := lex_lt a b \/ a = b.

(** [sin(u) ** 2], as line 50 computes it twice. *)
Definition sin_squared (m : libm) (u : float) : outcome float :=
  s ← math_1 (libm_sin m) u; float_pow2 m s.

(** The days a [Timestamp] can be the midnight of. *)
Definition representable_day (d : Z) : Prop := - max_day <= d <= max_day.

(** What the GET answered at [a] makes of a query to Overpass: the rows of
    the elements, or the exception [query_overpass] leaves with. *)
Definition overpass_answer (a : attempt element) : outcome (list amenity_row) :=
  match a with
  | Fails e => Raise (exn_of e)
  | Responds r =>
      if (400 <=? status_code r) && (status_code r <? 600) then Raise HTTPError
      else match body r with
           | None => Raise JSONDecodeError
           | Some JOther => Raise AttributeError
           | Some (JDict items) => Return (map row_of_element (default [] items))
           end
  end.

(** What the loop over the centroids leaves in the trace when its first query
    is the GET number [k] of the run: for each centroid in turn the GET, then
    the pause if the query returned, the warning if it raised. *)
Fixpoint perimeter_events (net : nat -> attempt element) (amenities : list string)
    (radius_m : Z) (k : nat) (centroids : list (Z * Q * Q)) : list event :=
  match centroids with
  | [] => []
  | (pid, lat, lon) :: centroids' =>
      [EvGet OVERPASS None (OverpassParams amenities lat lon radius_m);
       match overpass_answer (net k) with
       | Return _ => EvSleep pause
       | Raise e => EvWarnPerimeter pid e
       end]
      ++ perimeter_events net amenities radius_m (S k) centroids'
  end.

(** The rows the loop collects: those of each query that returned, tagged
    with the identifier of its perimeter. *)
Fixpoint perimeter_rows (net : nat -> attempt element) (k : nat)
    (centroids : list (Z * Q * Q)) : list amenity_row :=
  match centroids with
  | [] => []
  | (pid, _, _) :: centroids' =>
      match overpass_answer (net k) with
      | Return rows => map (set_perim_id pid) rows
      | Raise _ => []
      end
      ++ perimeter_rows net (S k) centroids'
  end.

(** [waited_after waited tr]: whether, at the end of [tr], a sleep of a second
    or more was seen since the last GET. *)
Fixpoint waited_after (waited : bool) (tr : list event) : bool :=
  match tr with
  | [] => waited
  | EvGet _ _ _ :: tr' => waited_after false tr'
  | EvSleep s :: tr' => waited_after (waited || Qle_bool 1 s) tr'
  | _ :: tr' => waited_after waited tr'
  end.

(** ** Sample data *)

(** A clock for the examples: the instants of three timestamps. *)
Definition sample_to_datetime (s : string) : option Z :=
  if decide (s = "2023-01-01T00:00:00") then Some 1672531200000000000
  else if decide (s = "2023-01-01T12:00:00") then Some 1672574400000000000
  else if decide (s = "2023-01-03T08:15:00") then Some 1672733700000000000
  else None.

Definition sample_tmax : observation :=
  Observation "2023-01-01T00:00:00" "TMAX" "GHCND:USW00023234" ",,W,2400" (55 # 1).

Definition sample_tmin : observation :=
  Observation "2023-01-01T00:00:00" "TMIN" "GHCND:USW00023234" ",,W,2400" (40 # 1).

(** Two chunks that overlap: the second repeats a record of the first and
    brings another TMAX for the same day. *)
Definition sample_frames : list (list observation) :=
  [[sample_tmax; sample_tmin];
   [sample_tmax;
    Observation "2023-01-01T12:00:00" "TMAX" "GHCND:USW00023234" ",,W,2400" (57 # 1)]].

Definition sample_events : list event_row :=
  [EventRow (Some (34 # 1)) (Some (-118 # 1)) (Some "2023-01-01T12:00:00") None "fire";
   EventRow (Some (35 # 1)) (Some (-119 # 1)) (Some "2023-01-01T00:00:00")
            (Some "2023-01-03T08:15:00") "smoke"].

(** The climate API over three chunks: the first and the third answer, every
    GET of the second times out. *)
Definition sample_net (k : nat) : attempt observation :=
  match k with
  | 0%nat => Responds (Response 200 "" (Some (JDict (Some [sample_tmax]))))
  | 4%nat => Responds (Response 200 "" (Some (JDict (Some [sample_tmin]))))
  | _ => Fails NetReadTimeout
  end.

(** Overpass: the first query is refused, the second answers a node and a
    way. *)
Definition sample_overpass (k : nat) : attempt element :=
  match k with
  | 0%nat => Responds (Response 429 "Too Many Requests" None)
  | _ => Responds (Response 200 ""
           (Some (JDict (Some
              [Element "node" 1 (Some "Station 12") (Some "fire_station")
                       (Some (34 # 1)) (Some (-118 # 1)) None;
               Element "way" 7 None (Some "hospital") None None
                       (Some (341 # 10, -1181 # 10))]))))
  end.

Definition sample_centroids : list (Z * Q * Q) :=
  [(1, 34 # 1, -118 # 1); (2, 35 # 1, -119 # 1)].

(** Two failures that [ncei_request] retries, then an answer. *)
Definition sample_flaky_net (k : nat) : attempt observation :=
  match k with
  | 0%nat => Fails NetReadTimeout
  | 1%nat => Fails NetConnectionError
  | _ => Responds (Response 200 "" (Some (JDict (Some [sample_tmax]))))
  end.

(** A stand-in for the C library, for the examples: the small-angle
    approximations [sin x = x], [cos x = 1] and [asin x = x], and [pow] by
    repeated multiplication. *)
Definition small_angle_libm : libm :=
  {| libm_sin := fun x => x;
     libm_cos := fun _ => 1%float;
     libm_asin := fun x => x;
     libm_pow := fun x _ => (x * x)%float |}.

(** The C library at the arguments [haversine_km] reaches, in either order,
    for the nearly antipodal points (57.77578990387468, 76.70757270762613)
    and (-57.77579024306143, -103.2924277318864): the values glibc returns
    there, NaN elsewhere. *)
Definition antipodes_libm : libm :=
  {| libm_sin := fun x =>
       if (abs x =? 0x1.02250b917fcabp+0)%float then
         if (x <? 0)%float then (-0x1.b122b54c132e1p-1)%float
         else 0x1.b122b54c132e1p-1%float
       else if (abs x =? 0x1.921fb554bbf67p+0)%float then
         if (x <? 0)%float then (-1)%float else 1%float
       else nan;
     libm_cos := fun x =>
       if (abs x =? 0x1.02250b84c9473p+0)%float then 0x1.110404be3ac47p-1%float
       else if (abs x =? 0x1.02250b9e364e1p+0)%float then 0x1.1104049335e95p-1%float
       else nan;
     libm_asin := fun _ => nan;
     libm_pow := fun x _ =>
       if (x =? 0x1.b122b54c132e1p-1)%float then 0x1.6e6b370000bddp-1%float
       else nan |}.

(** The two points, as binary64. *)
Definition antipode_north : float * float :=
  (0x1.ce34d1564dab8p+5, 0x1.32d48df09b2f8p+6)%float.

Definition antipode_south : float * float :=
  (-0x1.ce34d183d409bp+5, -0x1.9d2b722ce3951p+6)%float.

(** Three stations, the last two at the same distance from (34, -118). *)
Definition sample_stations (k : nat) : attempt station :=
  Responds (Response 200 ""
    (Some (JDict (Some [Station (Some "GHCND:A") "far" (Some 36%float) (Some (-118)%float);
                        Station (Some "GHCND:B") "north" (Some 35%float) (Some (-118)%float);
                        Station (Some "GHCND:C") "west" (Some 34%float) (Some (-119)%float)])))).

(** An answer that lists a station without coordinates. *)
Definition sample_stations_incomplete (k : nat) : attempt station :=
  Responds (Response 200 ""
    (Some (JDict (Some [Station (Some "GHCND:A") "far" (Some 36%float) (Some (-118)%float);
                        Station (Some "GHCND:D") "unlocated" None None])))).

(** ** scripts/noaa_weather_join.py: main *)

(** How a script ends: it finishes, it stops itself with [SystemExit], or an
    exception escapes it. *)
Inductive ending (X : Type) : Type :=
| Finished (x : X)
| SystemExit (msg : string)
| Escaped (e : exn).
Arguments Finished {X} x.
Arguments SystemExit {X} msg.
Arguments Escaped {X} e.

(** [Series.min()] and [Series.max()] of the instants that are not NaT; [None]
    stands for the NaT both return when there is none. *)
Definition min_max (ts : list Z) : option (Z * Z) :=
  match ts with
  | [] => None
  | t :: ts' => Some (foldl Z.min t ts', foldl Z.max t ts')
  end.

(** [DataFrame.empty]: no row (the date column is always there). *)
Definition table_empty (t : table) : bool :=
  match rows t with
  | [] => true
  | _ => false
  end.

Section NoaaMain.
Variable m : libm.
Variable to_datetime_utc : string -> option Z.

(** The representative point of lines 136-139: the medians of the numeric
    [lat] and [lng] cells, binary64 results (NaN when there is no such
    cell). *)
Variable median_point : list event_row -> float * float.

(** Lines 126-133: the days to query, one day before the first event and one
    day after the last; [None] when no timestamp parses. *)
Definition event_window (events : list event_row) : option (Z * Z) :=
  match min_max (omap (event_dt to_datetime_utc) events) with
  | None => None
  | Some (evt_min, evt_max) =>
      Some (date_of (evt_min - ns_per_day), date_of (evt_max + ns_per_day))
  end.

(** The subtraction of line 132 and the addition of line 133: each raises if
    the instant it makes is none a [Timestamp] can hold. *)
Definition window_in_bounds (events : list event_row) : outcome unit :=
  match min_max (omap (event_dt to_datetime_utc) events) with
  | None => Return tt
  | Some (evt_min, evt_max) =>
      timestamp_add evt_min (- ns_per_day) ;;
      timestamp_add evt_max ns_per_day ;;
      Return tt
  end.

(** [main] (lines 110-155), given the environment variable [NOAA_TOKEN] and
    what [pd.read_csv] makes of the events file (line 117): the events, or
    the exception it raises; what [main] finishes with is the table it
    writes.  The stations request and the data requests each go through a
    session of their own: [stations_net] and [data_net], both indexed by the
    count of GETs of the run.  [None] when the fuel of the chunk loop runs
    out. *)
Definition noaa_main (fuel : nat) (environ_token : option string)
    (read_csv : outcome (list event_row))
    (stations_net : nat -> attempt station)
    (data_net : nat -> attempt observation) (w : world)
    : option (ending (list (event_row * option (Z * list (option Q)))) * world) :=
  match environ_token, read_csv with
  | None, _ | Some EmptyString, _ =>
      Some (SystemExit
              "Please set NOAA_TOKEN (https://www.ncdc.noaa.gov/cdo-web/token)", w)
  | Some _, Raise e => Some (Escaped e, w)
  | Some token, Return events =>
      match event_window events, window_in_bounds events with
      | None, _ =>
          Some (SystemExit
                  "No valid event timestamps found. Please clean your data or supply --start-date/--end-date.",
                w)
      | Some _, Raise e => Some (Escaped e, w)
      | Some (start, end_), Return _ =>
          let '(mid_lat, mid_lng) := median_point events in
          match find_nearest_station m stations_net
                  mid_lat mid_lng start end_ token "GHCND" 50%float w with
          | (Raise e, w1) => Some (Escaped e, w1)
          | (Return None, w1) =>
              Some (SystemExit
                      "No nearby GHCND station found; increase km or adjust dates.",
                    w1)
          | (Return (Some st), w1) =>
              match station_id (best st) with
              | None => Some (Escaped (OtherError "KeyError"), w1)   (* [station["id"]] *)
              | Some stationid =>
                  match fetch_daily_chunked to_datetime_utc fuel data_net
                          stationid start end_ token
                          ["TMAX"; "TMIN"; "PRCP"; "WSF2"] 30 1000 w1 with
                  | None => None
                  | Some (Raise e, w2) => Some (Escaped e, w2)
                  | Some (Return daily, w2) =>
                      if table_empty daily
                      then Some (SystemExit
                                   "No NOAA daily observations for this window.", w2)
                      else Some (Finished (join_events to_datetime_utc events daily),
                                 w2)
                  end
              end
          end
      end
  end.

End NoaaMain.

(** ** scripts/osm_infrastructure_join.py: main *)

(** [s.split(sep)]: every piece between separators, the empty ones too; never
    an empty list. *)
Fixpoint split_on (sep : ascii) (s : string) : list string :=
  match s with
  | EmptyString => [EmptyString]
  | String c s' =>
      if Ascii.eqb c sep then EmptyString :: split_on sep s'
      else match split_on sep s' with
           | piece :: pieces => String c piece :: pieces
           | [] => [String c EmptyString]
           end
  end.

(** [c.isspace()] for a character below 256: the ASCII whitespace, the four
    information separators, NEL and the no-break space. *)
Definition isspace (c : ascii) : bool :=
  let n := nat_of_ascii c in
  ((9 <=? n) && (n <=? 13) || (28 <=? n) && (n <=? 32)
   || (n =? 133) || (n =? 160))%nat.

Fixpoint lstrip (s : string) : string :=
  match s with
  | EmptyString => EmptyString
  | String c s' => if isspace c then lstrip s' else s
  end.

Fixpoint rstrip (s : string) : string :=
  match s with
  | EmptyString => EmptyString
  | String c s' =>
      match rstrip s' with
      | EmptyString => if isspace c then EmptyString else String c EmptyString
      | kept => String c kept
      end
  end.

(** [s.strip()] *)
Definition strip (s : string) : string := rstrip (lstrip s).

(** Line 80: [[a.strip() for a in arg.split(",") if a.strip()]] *)
Definition parse_amenities (arg : string) : list string :=
  flat_map (fun a => match strip a with
                     | EmptyString => []
                     | kept => [kept]
                     end)
           (split_on "," arg).

Section OsmMain.
(** Lines 74-75 for a WKT text: [wkt.loads], then the point [(c.x, c.y)] of
    the centroid (of the representative point if the geometry is empty), or
    the exception the [try] catches. *)
Variable centroid_of : string -> outcome (Q * Q).

(** The loop over the rows of the perimeter table (lines 68-78), from the row
    of index [i] on, over the cells of the [geom] column (the empty string
    where the column is absent, a non-string where the cell is missing):
    the centroids [(perim_id, lat, lon)], and the rows warned about.
    [strip_srid] runs outside the [try]: what it raises escapes. *)
Fixpoint perimeter_centroids (i : Z) (cells : list pyobj)
    : outcome (list (Z * Q * Q) * list (Z * exn)) :=
  match cells with
  | [] => Return ([], [])
  | cell :: cells' =>
      match strip_srid cell with
      | Raise e => Raise e
      | Return wkt_text =>
          let attempt_row :=
            match wkt_text with
            | Str EmptyString => None                    (* [continue] *)
            | Str text => Some (centroid_of text)
            | NotAStr _ => Some (Raise (OtherError "TypeError"))
            end in
          match perimeter_centroids (i + 1) cells' with
          | Raise e => Raise e
          | Return (centroids, warned) =>
              match attempt_row with
              | None => Return (centroids, warned)
              | Some (Return (x, y)) => Return ((i + 1, y, x) :: centroids, warned)
              | Some (Raise e) => Return (centroids, (i, e) :: warned)
              end
          end
      end
  end.

(** [main] (lines 68-94), given the two command-line values and the [geom]
    cells of the perimeter table; what it finishes with is the table it
    writes.  The radius is any float [argparse] reads, NaN and the
    infinities included, on which [int] (line 81) raises. *)
Definition osm_main (amenities_arg : string) (radius_km : float) (cells : list pyobj)
    (net : nat -> attempt element) (w : world)
    : ending (list amenity_row) * world :=
  match perimeter_centroids 0 cells with
  | Raise e => (Escaped e, w)
  | Return (centroids, _) =>
      match int_of_float (radius_km * 1000) with
      | Raise e => (Escaped e, w)
      | Return radius_m =>
          let '(all_rows, w') :=
            query_perimeters net (parse_amenities amenities_arg) radius_m
                             centroids [] w in
          (Finished all_rows, w')
      end
  end.

End OsmMain.

(** A string that does not begin with a space. *)
Definition starts_clean (s : string) : Prop :=
  match s with
  | EmptyString => True
  | String c _ => isspace c = false
  end.

(** ** More about traces *)

(** The chunks a trace warns about, in order. *)
Definition warned_chunks (tr : list event) : list (Z * Z) :=
  omap (fun ev => match ev with
                  | EvWarnChunk a b _ => Some (a, b)
                  | _ => None
                  end) tr.

(** The seconds slept, in order. *)
Definition sleeps (tr : list event) : list Q :=
  omap (fun ev => match ev with
                  | EvSleep s => Some s
                  | _ => None
                  end) tr.

(** The perimeters a trace warns about, in order. *)
Definition warned_perimeters (tr : list event) : list Z :=
  omap (fun ev => match ev with
                  | EvWarnPerimeter pid _ => Some pid
                  | _ => None
                  end) tr.

(** The queries sent to Overpass, in order: the centre of each. *)
Definition overpass_queries (tr : list event) : list (Q * Q) :=
  omap (fun ev => match ev with
                  | EvGet _ _ (OverpassParams _ lat lon _) => Some (lat, lon)
                  | _ => None
                  end) tr.

(** The same three stations, answered in another order. *)
Definition sample_stations_reordered (k : nat) : attempt station :=
  Responds (Response 200 ""
    (Some (JDict (Some [Station (Some "GHCND:C") "west" (Some 34%float) (Some (-119)%float);
                        Station (Some "GHCND:A") "far" (Some 36%float) (Some (-118)%float);
                        Station (Some "GHCND:B") "north" (Some 35%float) (Some (-118)%float)])))).

(** The climate API down: every GET times out. *)
Definition sample_outage (k : nat) : attempt observation := Fails NetReadTimeout.

(** The data endpoint answering every request with the two sample records. *)
Definition sample_data_net (k : nat) : attempt observation :=
  Responds (Response 200 "" (Some (JDict (Some [sample_tmax; sample_tmin])))).

(** A stand-in for the medians of the coordinates. *)
Definition sample_median (events : list event_row) : float * float :=
  (34%float, (-118)%float).

(** Overpass answering every query with a node and a way. *)
Definition sample_overpass_up (k : nat) : attempt element :=
  Responds (Response 200 ""
    (Some (JDict (Some
       [Element "node" 1 (Some "Station 12") (Some "fire_station")
                (Some (34 # 1)) (Some (-118 # 1)) None;
        Element "way" 7 None (Some "hospital") None None
                (Some (341 # 10, -1181 # 10))])))).

(** A WKT reader for the examples: it knows one point. *)
Definition sample_centroid_of (text : string) : outcome (Q * Q) :=
  if decide (text = "POINT(-118 34)") then Return (-118 # 1, 34 # 1)
  else Raise (OtherError "WKTReadingError").

(** The [geom] column of a perimeter table: an EWKT point, an empty cell, a
    missing cell, something that is not WKT, and a WKT point. *)
Definition sample_cells : list pyobj :=
  [Str "SRID=4326;POINT(-118 34)"; Str ""; NotAStr "nan"; Str "not wkt";
   Str "POINT(-118 34)"].

(** * Properties *)

(** ** strip_srid *)

Lemma cut_at_first_length sep s a b :
  cut_at_first sep s = Some (a, b) ->
  String.length s = S (String.length a + String.length b).
Proof.
  revert a b. induction s as [|c s IH]; intros a b; simpl; [discriminate|].
  destruct (Ascii.eqb c sep).
  - intros [= <- <-]. reflexivity.
  - destruct (cut_at_first sep s) as [[a' b']|]; [|discriminate].
    intros [= <- <-]. simpl. f_equal. apply IH. reflexivity.
Qed.

Lemma cut_at_first_app sep n w :
  cut_at_first sep n = None ->
  cut_at_first sep (n ++ String sep w) = Some (n, w).
Proof.
  induction n as [|c n IH]; simpl.
  - intros _. rewrite Ascii.eqb_refl. reflexivity.
  - destruct (Ascii.eqb c sep); [discriminate|].
    destruct (cut_at_first sep n) as [[a b]|]; [discriminate|].
    intros _. rewrite IH; reflexivity.
Qed.

Lemma strip_srid_without_prefix g :
  startswith g "SRID=" = false -> strip_srid (Str g) = Return (Str g).
Proof. intros H. unfold strip_srid. rewrite H. reflexivity. Qed.

Lemma strip_srid_shortens g w :
  startswith g "SRID=" = true ->
  strip_srid (Str g) = Return (Str w) ->
  (String.length w < String.length g)%nat.
Proof.
  intros Hp. unfold strip_srid, split1. rewrite Hp.
  destruct (cut_at_first ";" g) as [[a b]|] eqn:Hc; simpl; [|discriminate].
  intros [= <-]. apply cut_at_first_length in Hc. lia.
Qed.

Lemma strip_srid_str g :
  (exists w, strip_srid (Str g) = Return (Str w)) \/
  (exists e, strip_srid (Str g) = Raise e).
Proof.
  unfold strip_srid. destruct (startswith g "SRID="); [|eauto].
  destruct (split1 ";" g !! 1%nat); eauto.
Qed.

(** A well-formed EWKT string loses exactly its prefix. *)
Lemma strip_srid_ewkt n wkt :
  cut_at_first ";" n = None ->
  strip_srid (Str ("SRID=" ++ n ++ ";" ++ wkt)) = Return (Str wkt).
Proof.
  intros Hn.
  assert (Hcut : cut_at_first ";" ("SRID=" ++ n ++ ";" ++ wkt)
                 = Some (("SRID=" ++ n)%string, wkt)).
  { change ("SRID=" ++ n ++ ";" ++ wkt)%string
      with (("SRID=" ++ n) ++ String ";" wkt)%string.
    apply cut_at_first_app. cbv [String.append]. simpl.
    rewrite Hn. reflexivity. }
  assert (Hpre : startswith ("SRID=" ++ n ++ ";" ++ wkt) "SRID=" = true).
  { cbv [String.append startswith String.prefix]. simpl.
    destruct n; reflexivity. }
  unfold strip_srid, split1. rewrite Hcut, Hpre. reflexivity.
Qed.

(** C4, as stated, fails: a string with two prefixes loses one per call. *)
Lemma strip_srid_not_idempotent :
  ~ (forall g : string, strip_srid_twice (Str g) = strip_srid (Str g)).
Proof.
  intros H. specialize (H "SRID=4326;SRID=3857;POINT(1 2)"). 
  vm_compute in H. discriminate H.
Qed.

(** C4, amended: stripping twice equals stripping once exactly when the first
    call does not return a string that still begins with the prefix (so for
    every well-formed EWKT or WKT string), and a string without the prefix is
    returned unchanged. *)
Theorem strip_srid_idempotent_iff (g : string) :
  (strip_srid_twice (Str g) = strip_srid (Str g) <->
   forall w, strip_srid (Str g) = Return (Str w) -> startswith w "SRID=" = false)
  /\ (startswith g "SRID=" = false -> strip_srid (Str g) = Return (Str g)).
Proof.
  split; [|apply strip_srid_without_prefix].
  unfold strip_srid_twice. split.
  - intros Heq w Hw. rewrite Hw in Heq.
    destruct (startswith w "SRID=") eqn:Hp; [|reflexivity].
    pose proof (strip_srid_shortens w w Hp Heq). lia.
  - intros Hall. destruct (strip_srid_str g) as [[w Hw]|[e He]].
    + rewrite Hw. apply strip_srid_without_prefix. apply Hall, Hw.
    + rewrite He. reflexivity.
Qed.

Lemma strip_srid_idempotent_iff_witness :
  strip_srid_twice (Str "SRID=4326;POINT(1 2)") = Return (Str "POINT(1 2)")
  /\ strip_srid (Str "POINT(1 2)") = Return (Str "POINT(1 2)").
Proof.
  split.
  - pose proof (proj1 (strip_srid_idempotent_iff "SRID=4326;POINT(1 2)")) as [_ H].
    rewrite H; [reflexivity|].
    intros w Hw. vm_compute in Hw. injection Hw as <-. reflexivity.
  - apply (proj2 (strip_srid_idempotent_iff "POINT(1 2)")). reflexivity.
Defined.

(** ** ncei_request *)

Lemma substring_0_length n s : (String.length (substring 0 n s) <= n)%nat.
Proof.
  revert s. induction n as [|n IH]; intros [|c s]; simpl; try lia.
  specialize (IH s). lia.
Qed.

Lemma substring_0_prefix n s : String.prefix (substring 0 n s) s = true.
Proof.
  revert s. induction n as [|n IH]; intros [|c s]; simpl; try reflexivity.
  destruct (ascii_dec c c); [apply IH|congruence].
Qed.

(** Both sides are the same answer in the same world, up to the spelling of
    the GET counter and the bracketing of the trace. *)
Ltac same_world :=
  unfold got, log, retry_trace; cbn;
  rewrite <- ?app_assoc, ?Nat.add_0_r;
  repeat match goal with
         | |- context [(?k + S ?n)%nat] =>
             replace (k + S n)%nat with (S (k + n)) by lia
         end;
  rewrite ?Nat.add_0_r; reflexivity.

Section NceiRequest.
Context {A : Type}.
Variable net : nat -> attempt A.

(** One pass through the loop body, by what the GET comes back with. *)
Lemma ncei_attempts_retry url token p i todo w e :
  net (gets w) = Fails e ->
  timeout_or_connection (exn_of e) = true ->
  (i < manual_retries)%nat ->
  ncei_attempts net url token p (i :: todo) w
  = ncei_attempts net url token p todo
      (log (EvSleep (inject_Z (2 * (Z.of_nat i + 1)))) (got url token p w)).
Proof.
  intros Hnet He Hi. simpl. unfold try_except at 1.
  unfold mbind, M_bind, session_get. rewrite Hnet, He.
  apply Nat.ltb_lt in Hi. rewrite Hi. reflexivity.
Qed.

Lemma ncei_attempts_exhausted url token p i todo w e :
  net (gets w) = Fails e ->
  timeout_or_connection (exn_of e) = true ->
  ~ (i < manual_retries)%nat ->
  ncei_attempts net url token p (i :: todo) w
  = (Raise (exn_of e), got url token p w).
Proof.
  intros Hnet He Hi. simpl. unfold try_except at 1.
  unfold mbind, M_bind, session_get. rewrite Hnet, He.
  apply Nat.ltb_nlt in Hi. rewrite Hi. reflexivity.
Qed.

Lemma ncei_attempts_other url token p i todo w name :
  net (gets w) = Fails (NetOther name) ->
  ncei_attempts net url token p (i :: todo) w
  = (Raise (OtherError name), got url token p w).
Proof.
  intros Hnet. simpl. unfold try_except at 1.
  unfold mbind, M_bind, session_get. rewrite Hnet. reflexivity.
Qed.

Lemma ncei_attempts_http_error url token p i todo w r :
  net (gets w) = Responds r ->
  400 <= status_code r < 600 ->
  ncei_attempts net url token p (i :: todo) w
  = (Raise (RuntimeError (ncei_http_message r)), got url token p w).
Proof.
  intros Hnet Hs. simpl. unfold try_except, mbind, M_bind, session_get.
  rewrite Hnet. unfold raise_for_status.
  replace (400 <=? status_code r) with true by (symmetry; apply Z.leb_le; lia).
  replace (status_code r <? 600) with true by (symmetry; apply Z.ltb_lt; lia).
  reflexivity.
Qed.

Lemma ncei_attempts_passed url token p i todo w r :
  net (gets w) = Responds r ->
  ~ (400 <= status_code r < 600) ->
  ncei_attempts net url token p (i :: todo) w
  = (match body r with
     | Some j => Return j
     | None => Raise JSONDecodeError
     end, got url token p w).
Proof.
  intros Hnet Hs. simpl. unfold try_except, mbind, M_bind, session_get.
  rewrite Hnet. unfold raise_for_status.
  replace ((400 <=? status_code r) && (status_code r <? 600)) with false.
  2:{ symmetry. apply andb_false_iff.
      rewrite Z.leb_gt, Z.ltb_ge. lia. }
  unfold response_json. destruct (body r); reflexivity.
Qed.

Lemma ncei_attempts_settled url token p i todo w :
  retryable_failure (net (gets w)) = false ->
  ncei_attempts net url token p (i :: todo) w
  = (settled (net (gets w)), got url token p w).
Proof.
  intros Hrf. destruct (net (gets w)) as [e|r] eqn:Hnet.
  - destruct e; try discriminate Hrf.
    apply ncei_attempts_other; assumption.
  - unfold settled.
    destruct ((400 <=? status_code r) && (status_code r <? 600)) eqn:Hs.
    + apply ncei_attempts_http_error; [assumption|].
      apply andb_true_iff in Hs as [H1 H2].
      apply Z.leb_le in H1. apply Z.ltb_lt in H2. lia.
    + apply ncei_attempts_passed; [assumption|].
      apply andb_false_iff in Hs. rewrite Z.leb_gt, Z.ltb_ge in Hs. lia.
Qed.

Lemma ncei_attempts_last url token p i todo w :
  retryable_failure (net (gets w)) = true ->
  ~ (i < manual_retries)%nat ->
  ncei_attempts net url token p (i :: todo) w
  = (settled (net (gets w)), got url token p w).
Proof.
  intros Hrf Hi. destruct (net (gets w)) as [e|r] eqn:Hnet; [|discriminate].
  apply ncei_attempts_exhausted; [assumption| |assumption].
  destruct e; try discriminate Hrf; reflexivity.
Qed.

Lemma ncei_attempts_again url token p i todo w :
  retryable_failure (net (gets w)) = true ->
  (i < manual_retries)%nat ->
  ncei_attempts net url token p (i :: todo) w
  = ncei_attempts net url token p todo
      (log (EvSleep (inject_Z (2 * (Z.of_nat i + 1)))) (got url token p w)).
Proof.
  intros Hrf Hi. destruct (net (gets w)) as [e|r] eqn:Hnet; [|discriminate].
  eapply ncei_attempts_retry; [eassumption| |assumption].
  destruct e; try discriminate Hrf; reflexivity.
Qed.

(** The whole call: [m] sleeps and retries, then the attempt that settles
    it. *)
Lemma ncei_request_unfold path p token w :
  let url := (NCEI_BASE ++ "/" ++ path)%string in
  let m := Nat.min (failed_attempts net (gets w) (manual_retries + 1)) manual_retries in
  ncei_request net path p token w
  = (settled (net (gets w + m)%nat),
     {| gets := (gets w + S m)%nat;
        trace := trace w ++ retry_trace url token p m |}).
Proof.
  intros url m. subst m. unfold ncei_request. fold url.
  change (seq 0 (manual_retries + 1)) with [0%nat; 1%nat; 2%nat].
  change (manual_retries + 1)%nat with 3%nat.
  destruct w as [k tr]. cbn [gets trace failed_attempts].
  destruct (retryable_failure (net k)) eqn:H0.
  2:{ rewrite ncei_attempts_settled by exact H0. same_world. }
  rewrite ncei_attempts_again by (assumption || (unfold manual_retries; lia)).
  destruct (retryable_failure (net (S k))) eqn:H1.
  2:{ rewrite ncei_attempts_settled by exact H1. same_world. }
  rewrite ncei_attempts_again by (assumption || (unfold manual_retries; lia)).
  assert (Hlast : forall b : bool,
    Nat.min (S (S (if b then 1 else 0))) manual_retries = 2%nat)
    by (intros []; reflexivity).
  rewrite Hlast.
  destruct (retryable_failure (net (S (S k)))) eqn:H2.
  - rewrite ncei_attempts_last
      by (assumption || (unfold manual_retries, got, log; cbn; lia)).
    same_world.
  - rewrite ncei_attempts_settled by exact H2. same_world.
Qed.

Lemma failed_attempts_le k n : (failed_attempts net k n <= n)%nat.
Proof.
  revert k. induction n as [|n IH]; intros k; simpl; [lia|].
  destruct (retryable_failure (net k)); [specialize (IH (S k))|]; lia.
Qed.

Lemma failed_attempts_stop k n :
  (failed_attempts net k n < n)%nat ->
  retryable_failure (net (k + failed_attempts net k n)%nat) = false.
Proof.
  revert k. induction n as [|n IH]; intros k; simpl; [lia|].
  destruct (retryable_failure (net k)) eqn:Hk.
  - intros Hlt. replace (k + S (failed_attempts net (S k) n))%nat
      with (S k + failed_attempts net (S k) n)%nat by lia.
    apply IH. lia.
  - intros _. rewrite Nat.add_0_r. exact Hk.
Qed.

Lemma failed_attempts_all k n i :
  failed_attempts net k n = n -> (i < n)%nat ->
  retryable_failure (net (k + i)%nat) = true.
Proof.
  revert k i. induction n as [|n IH]; intros k i; simpl; [lia|].
  destruct (retryable_failure (net k)) eqn:Hk; [|discriminate].
  intros [= Hn] Hi. destruct i as [|i].
  - rewrite Nat.add_0_r. exact Hk.
  - replace (k + S i)%nat with (S k + i)%nat by lia. apply IH; [exact Hn|lia].
Qed.

Lemma settled_retryable (a : attempt A) :
  (exists e, timeout_or_connection e = true /\ settled a = Raise e)
  <-> retryable_failure a = true.
Proof.
  destruct a as [[| |name]|r]; simpl.
  - split; [reflexivity|]. intros _. exists ReadTimeout. split; reflexivity.
  - split; [reflexivity|]. intros _. exists ConnectionError. split; reflexivity.
  - split; [|discriminate]. intros (e & He & [= <-]). discriminate He.
  - split; [|discriminate].
    destruct ((400 <=? status_code r) && (status_code r <? 600)).
    + intros (e & He & [= <-]). discriminate He.
    + destruct (body r); intros (e & He & Hr); [discriminate Hr|].
      injection Hr as <-. discriminate He.
Qed.

End NceiRequest.

(** C5: a GET that fails with a read timeout or a connection error is
    followed by a sleep of [2 * (attempt + 1)] seconds and another GET, at most
    [manual_retries = 2] times; such an exception leaves [ncei_request] exactly
    when the first GET and both retries fail that way, and it is then the
    exception of the last attempt. *)
Theorem ncei_request_retries {A : Type} (net : nat -> attempt A)
    (path : string) (p : params) (token : string) (w : world) :
  let failed := failed_attempts net (gets w) (manual_retries + 1) in
  let retries := Nat.min failed manual_retries in
  let out := ncei_request net path p token w in
  trace out.2 = trace w ++ retry_trace (NCEI_BASE ++ "/" ++ path) token p retries
  /\ gets out.2 = (gets w + S retries)%nat
  /\ ((exists e, timeout_or_connection e = true /\ out.1 = Raise e)
      <-> failed = (manual_retries + 1)%nat)
  /\ (failed = (manual_retries + 1)%nat ->
      exists e, net (gets w + manual_retries)%nat = Fails e /\ out.1 = Raise (exn_of e)).
Proof.
  intros failed retries out.
  pose proof (ncei_request_unfold net path p token w) as Hout.
  cbv zeta in Hout. fold failed retries out in Hout.
  pose proof (failed_attempts_le net (gets w) (manual_retries + 1)) as Hle.
  fold failed in Hle.
  rewrite Hout. cbn [fst snd gets trace].
  split; [reflexivity|]. split; [reflexivity|]. split.
  - rewrite settled_retryable. split.
    + intros Hrf.
      destruct (decide (failed = (manual_retries + 1)%nat)) as [|Hne]; [assumption|].
      assert (Hlt : (failed < manual_retries + 1)%nat) by lia.
      pose proof (failed_attempts_stop net (gets w) _ Hlt) as Hstop.
      fold failed in Hstop.
      replace retries with failed in Hrf
        by (subst retries; unfold manual_retries in *; lia).
      congruence.
    + intros Hall.
      replace retries with manual_retries
        by (subst retries; unfold manual_retries in *; lia).
      apply (failed_attempts_all net _ _ _ Hall). lia.
  - intros Hall.
    replace retries with manual_retries
      by (subst retries; unfold manual_retries in *; lia).
    pose proof (failed_attempts_all net _ _ manual_retries Hall) as Hrf.
    destruct (net (gets w + manual_retries)%nat) as [e|r] eqn:Hnet.
    + exists e. split; reflexivity.
    + discriminate Hrf. lia.
Qed.

(** C6, as stated, fails: 300 is not a 2xx status, yet [raise_for_status]
    lets it pass and the decoded body is returned. *)
Lemma ncei_request_status_300_returns :
  ~ (forall (net : nat -> attempt observation) (path : string) (p : params)
            (token : string) (w : world) (r : response observation),
        net (gets w) = Responds r ->
        ~ (200 <= status_code r < 300) ->
        exists msg, (ncei_request net path p token w).1 = Raise (RuntimeError msg)).
Proof.
  intros H.
  pose (r := {| status_code := 300; text := "{}"; body := Some (JDict None) |}
             : response observation).
  destruct (H (fun _ => Responds r) "data"
              (DataParams "GHCND" "GHCND:USW00023234" 0 29 "standard" 1000 ["TMAX"])
              "token" {| gets := 0; trace := [] |} r) as [msg Hmsg].
  - reflexivity.
  - simpl. lia.
  - vm_compute in Hmsg. discriminate Hmsg.
Qed.

(** C6, amended: when the attempt that ends the call is answered with a
    client or server error status (400-599), [ncei_request] raises one
    [RuntimeError] and issues no further GET; its message is
    ["NCEI HTTP <status>: <body>"], where the body is the first 400 characters
    of the response text at most. *)
Theorem ncei_request_http_error {A : Type} (net : nat -> attempt A)
    (path : string) (p : params) (token : string) (w : world) (r : response A) :
  let retries :=
    Nat.min (failed_attempts net (gets w) (manual_retries + 1)) manual_retries in
  let out := ncei_request net path p token w in
  net (gets w + retries)%nat = Responds r ->
  400 <= status_code r < 600 ->
  out.1 = Raise (RuntimeError
                   ("NCEI HTTP " ++ pretty (status_code r) ++ ": " ++ text_400 r))
  /\ gets out.2 = (gets w + retries + 1)%nat
  /\ (String.length (text_400 r) <= 400)%nat
  /\ String.prefix (text_400 r) (text r) = true.
Proof.
  intros retries out Hnet Hs.
  pose proof (ncei_request_unfold net path p token w) as Hout.
  cbv zeta in Hout. fold retries out in Hout.
  rewrite Hout, Hnet. cbn [fst snd gets settled].
  replace (400 <=? status_code r) with true by (symmetry; apply Z.leb_le; lia).
  replace (status_code r <? 600) with true by (symmetry; apply Z.ltb_lt; lia).
  split; [reflexivity|]. split; [lia|].
  split; [apply substring_0_length | apply substring_0_prefix].
Qed.

Lemma ncei_request_http_error_witness :
  let net := fun _ : nat =>
    Responds {| status_code := 503; text := "Service Unavailable";
                body := @None (json observation) |} in
  (ncei_request net "data"
     (DataParams "GHCND" "GHCND:USW00023234" 0 29 "standard" 1000 ["TMAX"])
     "token" {| gets := 0; trace := [] |}).1
  = Raise (RuntimeError "NCEI HTTP 503: Service Unavailable").
Proof.
  intros net.
  exact (proj1 (ncei_request_http_error net "data"
     (DataParams "GHCND" "GHCND:USW00023234" 0 29 "standard" 1000 ["TMAX"])
     "token" {| gets := 0; trace := [] |}
     {| status_code := 503; text := "Service Unavailable"; body := None |}
     eq_refl ltac:(simpl; lia))).
Defined.

(** ** Binary64: signs and order *)

Lemma binary_round_aux_opp prec emax s mx ex lx :
  SFopp (binary_round_aux prec emax s mx ex lx)
  = binary_round_aux prec emax (negb s) mx ex lx.
Proof.
  unfold binary_round_aux.
  destruct (shr_fexp prec emax mx ex lx) as [mrs e'].
  destruct (shr_fexp prec emax _ e' loc_Exact) as [mrs' e''].
  destruct (shr_m mrs'); [reflexivity| |reflexivity].
  destruct (e'' <=? emax - prec); reflexivity.
Qed.

Lemma binary_round_opp prec emax s mx ex :
  SFopp (binary_round prec emax s mx ex) = binary_round prec emax (negb s) mx ex.
Proof.
  unfold binary_round. destruct (shl_align mx ex _) as [mz ez].
  apply binary_round_aux_opp.
Qed.

Lemma binary_normalize_opp prec emax d e :
  d <> 0 ->
  binary_normalize prec emax (- d) e false
  = SFopp (binary_normalize prec emax d e false).
Proof.
  intros Hd. destruct d as [|p|p]; [congruence| |]; simpl;
    rewrite binary_round_opp; reflexivity.
Qed.

(** Swapping the operands of a subtraction changes the sign of the result,
    unless both results are the zero [+0]. *)
Lemma SFsub_swap prec emax x y :
  SFsub prec emax y x = SFopp (SFsub prec emax x y)
  \/ (SFsub prec emax x y = S754_zero false /\ SFsub prec emax y x = S754_zero false).
Proof.
  destruct x as [sx|sx| |sx mx ex], y as [sy|sy| |sy my ey]; simpl;
    try (repeat match goal with b : bool |- _ => destruct b end; simpl; auto; fail).
  rewrite (Z.min_comm ey ex).
  set (a := cond_Zopp sx _). set (b := cond_Zopp sy _).
  destruct (Z.eq_dec (a - b) 0) as [Hz|Hnz].
  - right. replace (b - a) with 0 by lia. rewrite Hz. auto.
  - left. replace (b - a) with (- (a - b)) by lia.
    apply binary_normalize_opp, Hnz.
Qed.

Lemma SFmul_opp_l prec emax x y :
  SFmul prec emax (SFopp x) y = SFopp (SFmul prec emax x y).
Proof.
  destruct x as [sx|sx| |sx mx ex], y as [sy|sy| |sy my ey]; simpl;
    rewrite ?negb_xorb_l; try reflexivity.
  rewrite binary_round_aux_opp, negb_xorb_l. reflexivity.
Qed.

Lemma SFdiv_opp_l prec emax x y :
  SFdiv prec emax (SFopp x) y = SFopp (SFdiv prec emax x y).
Proof.
  destruct x as [sx|sx| |sx mx ex], y as [sy|sy| |sy my ey]; simpl;
    rewrite ?negb_xorb_l; try reflexivity.
  destruct (SFdiv_core_binary prec emax _ ex _ ey) as [[mz ez] lz].
  rewrite binary_round_aux_opp, negb_xorb_l. reflexivity.
Qed.

Lemma SFmul_comm prec emax x y : SFmul prec emax x y = SFmul prec emax y x.
Proof.
  destruct x as [sx|sx| |sx mx ex], y as [sy|sy| |sy my ey]; simpl;
    rewrite ?(xorb_comm sx sy); try reflexivity.
  rewrite (Pos.mul_comm mx my), (Z.add_comm ex ey). reflexivity.
Qed.

Lemma SFcompare_opp x y : SFcompare (SFopp x) (SFopp y) = SFcompare y x.
Proof.
  destruct x as [sx|sx| |sx mx ex], y as [sy|sy| |sy my ey]; simpl;
    try (repeat match goal with b : bool |- _ => destruct b end; reflexivity).
  destruct sx, sy; simpl; try reflexivity;
    rewrite (Z.compare_antisym ex ey); destruct (ex ?= ey); simpl; try reflexivity;
    rewrite Pos.compare_cont_antisym; reflexivity.
Qed.

Lemma float_sub_swap (x y : float) :
  (y - x = - (x - y) \/ (x - y = 0 /\ y - x = 0))%float.
Proof.
  destruct (SFsub_swap prec emax (Prim2SF x) (Prim2SF y)) as [H|[H1 H2]].
  - left. apply Prim2SF_inj.
    rewrite FloatAxioms.opp_spec, !FloatAxioms.sub_spec. exact H.
  - right. split; apply Prim2SF_inj; rewrite FloatAxioms.sub_spec; assumption.
Qed.

Lemma float_mul_opp_l (x y : float) : (- x * y = - (x * y))%float.
Proof.
  apply Prim2SF_inj.
  rewrite FloatAxioms.opp_spec, !FloatAxioms.mul_spec, FloatAxioms.opp_spec.
  apply SFmul_opp_l.
Qed.

Lemma float_div_opp_l (x y : float) : (- x / y = - (x / y))%float.
Proof.
  apply Prim2SF_inj.
  rewrite FloatAxioms.opp_spec, !FloatAxioms.div_spec, FloatAxioms.opp_spec.
  apply SFdiv_opp_l.
Qed.

Lemma float_mul_comm (x y : float) : (x * y = y * x)%float.
Proof. apply Prim2SF_inj. rewrite !FloatAxioms.mul_spec. apply SFmul_comm. Qed.

Lemma float_abs_opp (x : float) : abs (- x) = abs x.
Proof.
  apply Prim2SF_inj. rewrite !FloatAxioms.abs_spec, FloatAxioms.opp_spec.
  destruct (Prim2SF x); reflexivity.
Qed.

Lemma float_eqb_opp (x y : float) : (- x =? - y)%float = (y =? x)%float.
Proof.
  rewrite !FloatAxioms.eqb_spec, !FloatAxioms.opp_spec. unfold SFeqb.
  rewrite SFcompare_opp. reflexivity.
Qed.

Lemma float_is_nan_opp (x : float) : is_nan (- x) = is_nan x.
Proof. unfold is_nan. rewrite float_eqb_opp. reflexivity. Qed.

Lemma float_is_infinity_opp (x : float) : is_infinity (- x) = is_infinity x.
Proof. unfold is_infinity. rewrite float_abs_opp. reflexivity. Qed.

Lemma float_is_finite_opp (x : float) : is_finite (- x) = is_finite x.
Proof.
  unfold is_finite. rewrite float_is_nan_opp, float_is_infinity_opp. reflexivity.
Qed.

Lemma float_opp_zero_eqb (x : float) : (- x =? 0)%float = (x =? 0)%float.
Proof.
  rewrite !FloatAxioms.eqb_spec, FloatAxioms.opp_spec.
  change (Prim2SF 0) with (S754_zero false).
  destruct (Prim2SF x) as [s|s| |s mx ex]; try reflexivity; destruct s; reflexivity.
Qed.

Lemma is_nan_spec (x : float) : is_nan x = true <-> Prim2SF x = S754_nan.
Proof.
  unfold is_nan. rewrite FloatAxioms.eqb_spec. unfold SFeqb.
  destruct (Prim2SF x) as [s|s| |s mx ex]; simpl.
  - split; discriminate.
  - destruct s; split; discriminate.
  - split; reflexivity.
  - rewrite Z.compare_refl, Pos.compare_cont_refl. destruct s; split; discriminate.
Qed.

Lemma is_nan_false_spec (x : float) : is_nan x = false <-> Prim2SF x <> S754_nan.
Proof. rewrite <- is_nan_spec. destruct (is_nan x); split; congruence. Qed.

Lemma float_opp_nan (x : float) : is_nan x = true -> (- x)%float = x.
Proof.
  intros H%is_nan_spec. apply Prim2SF_inj. rewrite FloatAxioms.opp_spec, H.
  reflexivity.
Qed.

Lemma is_finite_spec (x : float) :
  is_finite x = true ->
  (exists s, Prim2SF x = S754_zero s)
  \/ (exists s mx ex, Prim2SF x = S754_finite s mx ex).
Proof.
  unfold is_finite, is_infinity, is_nan.
  rewrite !FloatAxioms.eqb_spec, FloatAxioms.abs_spec.
  change (Prim2SF infinity) with (S754_infinity false).
  destruct (Prim2SF x) as [s|s| |s mx ex]; simpl.
  - intros _. left. eauto.
  - destruct s; discriminate.
  - discriminate.
  - intros _. right. eauto.
Qed.

Lemma float_sub_diag (x : float) : is_finite x = true -> (x - x = 0)%float.
Proof.
  intros [[s H]|(s & mx & ex & H)]%is_finite_spec; apply Prim2SF_inj;
    rewrite FloatAxioms.sub_spec, H; change (Prim2SF 0) with (S754_zero false).
  - destruct s; reflexivity.
  - unfold SF64sub, SFsub. rewrite Z.sub_diag. reflexivity.
Qed.

Lemma float_add_mul_zero (x : float) : is_finite x = true -> (0 + x * 0 = 0)%float.
Proof.
  intros [[s H]|(s & mx & ex & H)]%is_finite_spec; apply Prim2SF_inj;
    rewrite FloatAxioms.add_spec, FloatAxioms.mul_spec, H;
    change (Prim2SF 0) with (S754_zero false); destruct s; reflexivity.
Qed.

(** [SFrank] tells how two floats compare. *)
Lemma SFcompare_rank (x y : spec_float) :
  x <> S754_nan -> y <> S754_nan ->
  match SFcompare x y with
  | Some Lt => lex_lt (SFrank x) (SFrank y)
  | Some Eq => SFrank x = SFrank y
  | Some Gt => lex_lt (SFrank y) (SFrank x)
  | None => False
  end.
Proof.
  intros Hx Hy. unfold lex_lt.
  destruct x as [sx|sx| |sx mx ex], y as [sy|sy| |sy my ey]; try congruence; simpl;
    try (repeat match goal with b : bool |- _ => destruct b end;
         simpl; try reflexivity; lia).
  destruct sx, sy; simpl; try lia;
    destruct (Z.compare_spec ex ey); simpl; try lia;
    change (PosDef.Pos.compare_cont Eq mx my) with (Pos.compare mx my);
    destruct (Pos.compare_spec mx my); simpl; subst; try reflexivity; lia.
Qed.

Lemma float_ltb_rank (x y : float) :
  is_nan x = false -> is_nan y = false ->
  (x <? y)%float = true <-> lex_lt (SFrank (Prim2SF x)) (SFrank (Prim2SF y)).
Proof.
  rewrite !is_nan_false_spec. intros Hx Hy.
  rewrite FloatAxioms.ltb_spec. unfold SFltb.
  pose proof (SFcompare_rank _ _ Hx Hy) as H.
  destruct (SFcompare (Prim2SF x) (Prim2SF y)) as [[| |]|]; try contradiction.
  - split; [discriminate|]. rewrite H. unfold lex_lt. lia.
  - split; auto.
  - split; [discriminate|]. revert H. unfold lex_lt.
    destruct (SFrank (Prim2SF x)) as [[a b] c], (SFrank (Prim2SF y)) as [[a' b'] c'].
    simpl. lia.
Qed.

Lemma float_leb_rank (x y : float) :
  is_nan x = false -> is_nan y = false ->
  (x <=? y)%float = true <-> lex_le (SFrank (Prim2SF x)) (SFrank (Prim2SF y)).
Proof.
  rewrite !is_nan_false_spec. intros Hx Hy.
  rewrite FloatAxioms.leb_spec. unfold SFleb, lex_le.
  pose proof (SFcompare_rank _ _ Hx Hy) as H.
  destruct (SFcompare (Prim2SF x) (Prim2SF y)) as [[| |]|]; try contradiction.
  - split; auto.
  - split; auto.
  - split; [discriminate|]. revert H. unfold lex_lt.
    destruct (SFrank (Prim2SF x)) as [[a b] c], (SFrank (Prim2SF y)) as [[a' b'] c'].
    simpl. intros H [H'|[= -> -> ->]]; lia.
Qed.

Lemma float_leb_refl (x : float) : is_nan x = false -> (x <=? x)%float = true.
Proof. intros Hx. apply float_leb_rank; [assumption..|]. right. reflexivity. Qed.

Lemma float_ltb_false_leb (x y : float) :
  is_nan x = false -> is_nan y = false ->
  (x <? y)%float = false -> (y <=? x)%float = true.
Proof.
  intros Hx Hy H. apply float_leb_rank; [assumption..|].
  assert (Hn : ~ lex_lt (SFrank (Prim2SF x)) (SFrank (Prim2SF y))).
  { rewrite <- float_ltb_rank by assumption. congruence. }
  revert Hn. unfold lex_le, lex_lt.
  destruct (SFrank (Prim2SF x)) as [[a b] c], (SFrank (Prim2SF y)) as [[a' b'] c'].
  simpl. intros Hn.
  destruct (decide (a' = a /\ b' = b /\ c' = c)) as [(-> & -> & ->)|Hne];
    [right; reflexivity|].
  left. lia.
Qed.

Lemma float_ltb_leb_trans (x y z : float) :
  is_nan x = false -> is_nan y = false -> is_nan z = false ->
  (x <? y)%float = true -> (y <=? z)%float = true -> (x <? z)%float = true.
Proof.
  intros Hx Hy Hz. rewrite !float_ltb_rank, float_leb_rank by assumption.
  unfold lex_le, lex_lt.
  destruct (SFrank (Prim2SF x)) as [[a b] c], (SFrank (Prim2SF y)) as [[a' b'] c'],
    (SFrank (Prim2SF z)) as [[a'' b''] c''].
  simpl. intros H [H'|[= -> -> ->]]; lia.
Qed.

Lemma float_ltb_leb (x y : float) :
  is_nan x = false -> is_nan y = false ->
  (x <? y)%float = true -> (x <=? y)%float = true.
Proof.
  intros Hx Hy. rewrite float_ltb_rank, float_leb_rank by assumption.
  intros H. left. exact H.
Qed.

Lemma float_leb_antisym (x y : float) :
  is_nan x = false -> is_nan y = false ->
  (x <=? y)%float = true -> (y <=? x)%float = true -> (x =? y)%float = true.
Proof.
  intros Hx Hy. rewrite !float_leb_rank by assumption.
  rewrite FloatAxioms.eqb_spec. unfold SFeqb.
  apply is_nan_false_spec in Hx, Hy.
  pose proof (SFcompare_rank _ _ Hx Hy) as H. revert H.
  destruct (SFcompare (Prim2SF x) (Prim2SF y)) as [[| |]|]; try contradiction; auto;
    unfold lex_le, lex_lt;
    destruct (SFrank (Prim2SF x)) as [[a b] c], (SFrank (Prim2SF y)) as [[a' b'] c'];
    simpl; intros H [H1|H1] [H2|H2]; try inversion H1; try inversion H2; subst; lia.
Qed.

(** ** haversine_km *)

Lemma math_1_raises (f : float -> float) (x : float) (e : exn) :
  math_1 f x = Raise e -> e = OtherError "ValueError".
Proof.
  unfold math_1. cbv zeta.
  destruct (is_nan (f x) && negb (is_nan x)); [congruence|].
  destruct (is_infinity (f x) && is_finite x); congruence.
Qed.

Section HaversineFacts.
Variable m : libm.

Lemma haversine_km_unfold (lat1 lon1 lat2 lon2 : float) :
  haversine_km m lat1 lon1 lat2 lon2
  = (q1 ← sin_squared m (radians (lat2 - lat1) / 2);
     c1 ← math_1 (libm_cos m) (radians lat1);
     c2 ← math_1 (libm_cos m) (radians lat2);
     q2 ← sin_squared m (radians (lon2 - lon1) / 2);
     r ← math_1 PrimFloat.sqrt (q1 + c1 * c2 * q2);
     t ← math_1 (libm_asin m) r;
     Return (2 * 6371 * t)%float).
Proof.
  unfold haversine_km, sin_squared. cbv zeta.
  destruct (math_1 (libm_sin m) (radians (lat2 - lat1) / 2)) as [s1|e]; [|reflexivity].
  simpl. destruct (float_pow2 m s1) as [q1|e]; [|reflexivity]. simpl.
  destruct (math_1 (libm_cos m) (radians lat1)) as [c1|e]; [|reflexivity]. simpl.
  destruct (math_1 (libm_cos m) (radians lat2)) as [c2|e]; [|reflexivity]. simpl.
  destruct (math_1 (libm_sin m) (radians (lon2 - lon1) / 2)) as [s2|e]; reflexivity.
Qed.

(** The square does not see the sign: CPython hands [pow] the absolute
    value. *)
Lemma float_pow2_opp (s : float) : float_pow2 m (- s) = float_pow2 m s.
Proof.
  unfold float_pow2.
  rewrite float_is_nan_opp, float_is_infinity_opp, float_opp_zero_eqb, float_abs_opp.
  destruct (is_nan s) eqn:Hn; [rewrite (float_opp_nan s Hn); reflexivity|].
  reflexivity.
Qed.

Section Symmetry.
Hypothesis sin_odd : forall x, libm_sin m (- x) = (- libm_sin m x)%float.

Lemma math_1_sin_opp (u : float) :
  math_1 (libm_sin m) (- u)
  = math_1 (libm_sin m) u ≫= (fun s => Return (- s)%float).
Proof.
  unfold math_1. cbv zeta. rewrite sin_odd.
  rewrite !float_is_nan_opp, float_is_infinity_opp, float_is_finite_opp.
  destruct (is_nan (libm_sin m u) && negb (is_nan u)); [reflexivity|].
  destruct (is_infinity (libm_sin m u) && is_finite u); reflexivity.
Qed.

Lemma sin_squared_opp (u : float) : sin_squared m (- u) = sin_squared m u.
Proof.
  unfold sin_squared. rewrite math_1_sin_opp.
  destruct (math_1 (libm_sin m) u) as [s|e]; [|reflexivity].
  simpl. apply float_pow2_opp.
Qed.

Lemma half_angle_swap (x y : float) :
  sin_squared m (radians (y - x) / 2) = sin_squared m (radians (x - y) / 2).
Proof.
  destruct (float_sub_swap x y) as [H|[H1 H2]].
  - rewrite H. unfold radians. rewrite float_mul_opp_l, float_div_opp_l.
    apply sin_squared_opp.
  - rewrite H1, H2. reflexivity.
Qed.

Lemma haversine_km_swap (lat1 lon1 lat2 lon2 : float) :
  haversine_km m lat1 lon1 lat2 lon2 = haversine_km m lat2 lon2 lat1 lon1.
Proof.
  rewrite !haversine_km_unfold.
  rewrite (half_angle_swap lat1 lat2), (half_angle_swap lon1 lon2).
  destruct (sin_squared m (radians (lat1 - lat2) / 2)) as [q1|e]; [|reflexivity].
  simpl.
  destruct (math_1 (libm_cos m) (radians lat1)) as [c1|e1] eqn:H1,
           (math_1 (libm_cos m) (radians lat2)) as [c2|e2] eqn:H2; simpl;
    try reflexivity.
  - rewrite (float_mul_comm c1 c2). reflexivity.
  - apply math_1_raises in H1, H2. congruence.
Qed.

End Symmetry.

Lemma haversine_km_same_point (lat lon c : float) :
  libm_sin m 0 = 0%float ->
  libm_asin m 0 = 0%float ->
  is_finite lat = true ->
  is_finite lon = true ->
  math_1 (libm_cos m) (radians lat) = Return c ->
  is_finite (c * c) = true ->
  haversine_km m lat lon lat lon = Return 0%float.
Proof.
  intros Hsin Hasin Hlat Hlon Hcos Hcc.
  rewrite haversine_km_unfold, !float_sub_diag by assumption.
  assert (H0 : sin_squared m (radians 0 / 2) = Return 0%float).
  { unfold sin_squared, math_1. cbv zeta.
    change (radians 0 / 2)%float with 0%float. rewrite Hsin. reflexivity. }
  rewrite H0, Hcos. simpl.
  rewrite (float_add_mul_zero _ Hcc).
  unfold math_1 at 1. cbv zeta. change (PrimFloat.sqrt 0) with 0%float.
  change (is_nan 0 && negb (is_nan 0)) with false.
  change (is_infinity 0 && is_finite 0) with false. cbv iota. simpl.
  unfold math_1. cbv zeta. rewrite Hasin. reflexivity.
Qed.

(** A NaN coordinate goes through: nothing raises, and the distance is NaN. *)
Lemma haversine_km_nan :
  libm_sin m nan = nan ->
  libm_asin m nan = nan ->
  haversine_km m nan nan nan nan = Return nan.
Proof.
  intros Hsin Hasin. rewrite haversine_km_unfold.
  assert (H0 : sin_squared m (radians (nan - nan) / 2) = Return nan).
  { unfold sin_squared, math_1. cbv zeta.
    change (radians (nan - nan) / 2)%float with nan. rewrite Hsin. reflexivity. }
  rewrite H0. simpl. change (radians nan) with nan.
  assert (Hc : exists c, math_1 (libm_cos m) nan = Return c).
  { unfold math_1. cbv zeta. change (is_nan nan) with true.
    change (is_finite nan) with false. rewrite !andb_false_r. eauto. }
  destruct Hc as [c ->]. simpl.
  assert (Ha : (nan + c * c * nan)%float = nan).
  { apply Prim2SF_inj. rewrite FloatAxioms.add_spec. reflexivity. }
  rewrite Ha. change (math_1 PrimFloat.sqrt nan) with (Return nan). simpl.
  unfold math_1. cbv zeta. rewrite Hasin. reflexivity.
Qed.

End HaversineFacts.

(** C8: on a C library whose [sin] is odd, with [sin 0 = 0] and
    [asin 0 = 0]: for every two points, whatever floats their coordinates
    are, [haversine_km (a, b)] and [haversine_km (b, a)] end alike, both
    raising the same exception or both returning the same float; and for
    every point with finite coordinates whose latitude has a cosine [c] with
    [c * c] finite, [haversine_km (a, a)] returns [0.0]. *)
Theorem haversine_km_symmetric_and_zero (m : libm) :
  (forall x, libm_sin m (- x) = (- libm_sin m x)%float) ->
  libm_sin m 0 = 0%float ->
  libm_asin m 0 = 0%float ->
  (forall lat1 lon1 lat2 lon2,
     haversine_km m lat1 lon1 lat2 lon2 = haversine_km m lat2 lon2 lat1 lon1)
  /\ (forall lat lon c,
        is_finite lat = true -> is_finite lon = true ->
        math_1 (libm_cos m) (radians lat) = Return c ->
        is_finite (c * c) = true ->
        haversine_km m lat lon lat lon = Return 0%float).
Proof.
  intros Hodd Hsin Hasin. split.
  - apply haversine_km_swap, Hodd.
  - intros lat lon c. apply haversine_km_same_point; assumption.
Qed.

Lemma haversine_km_symmetric_and_zero_witness :
  haversine_km small_angle_libm 34 (-118) 35 (-119)
  = haversine_km small_angle_libm 35 (-119) 34 (-118)
  /\ haversine_km small_angle_libm 34 (-118) 34 (-118) = Return 0%float.
Proof.
  destruct (haversine_km_symmetric_and_zero small_angle_libm
              ltac:(reflexivity) ltac:(reflexivity) ltac:(reflexivity))
    as [Hsym Hzero].
  split; [apply Hsym|].
  apply (Hzero 34 (-118) 1)%float; reflexivity.
Defined.

(** C8 as stated fails twice.  For the two nearly antipodal points of
    [antipodes_libm] the sum under the root is [1 + 2^-51], its root exceeds
    one and [math.asin] raises, in either order: there is no distance to
    compare.  And for a point with a NaN coordinate the distance of the point
    to itself is NaN, which [==] finds equal to nothing. *)
Lemma haversine_km_raises_near_antipodes :
  haversine_km antipodes_libm antipode_north.1 antipode_north.2
               antipode_south.1 antipode_south.2
  = Raise (OtherError "ValueError")
  /\ haversine_km antipodes_libm antipode_south.1 antipode_south.2
                  antipode_north.1 antipode_north.2
     = Raise (OtherError "ValueError")
  /\ haversine_km antipodes_libm nan nan nan nan = Return nan
  /\ (nan =? 0)%float = false.
Proof. vm_compute. repeat split. Qed.

(** ** find_nearest_station *)

Section MinFrom.
Context {X : Type}.

Lemma min_from_scan (xs l : list (X * float)) (i : nat) (b : X * float) :
  Forall (fun s => is_nan s.2 = false) (l ++ xs) ->
  is_first_min l i b ->
  exists i', is_first_min (l ++ xs) i' (min_from b xs).
Proof.
  revert l i b. induction xs as [|x xs IH]; intros l i b Hnan (Hi & Hmin & Hfirst).
  - exists i. rewrite app_nil_r. repeat split; assumption.
  - simpl. rewrite Forall_forall in Hnan.
    assert (Hl : forall s, s ∈ l -> is_nan s.2 = false).
    { intros s Hs. apply Hnan, elem_of_app. left. exact Hs. }
    assert (Hb : is_nan b.2 = false)
      by (eapply Hl, list_elem_of_lookup_2, Hi).
    assert (Hx : is_nan x.2 = false).
    { apply Hnan, elem_of_app. right. left. }
    replace (l ++ x :: xs) with ((l ++ [x]) ++ xs) in *
      by (rewrite <- app_assoc; reflexivity).
    destruct (x.2 <? b.2)%float eqn:Hlt.
    + apply (IH (l ++ [x]) (length l) x); [apply Forall_forall, Hnan|].
      repeat split.
      * rewrite lookup_app_r, Nat.sub_diag by lia. reflexivity.
      * intros s [Hs|Hs]%elem_of_app.
        -- apply float_ltb_leb; [exact Hx|apply Hl, Hs|].
           apply (float_ltb_leb_trans _ b.2); auto.
        -- apply list_elem_of_singleton in Hs as ->. apply float_leb_refl, Hx.
      * intros j s Hj Hs. rewrite lookup_app_l in Hs by exact Hj.
        assert (Hin : s ∈ l) by (eapply list_elem_of_lookup_2, Hs).
        apply (float_ltb_leb_trans _ b.2); auto.
    + apply (IH (l ++ [x]) i b); [apply Forall_forall, Hnan|].
      repeat split.
      * rewrite lookup_app_l; [exact Hi|]. eapply lookup_lt_Some, Hi.
      * intros s [Hs|Hs]%elem_of_app; [apply Hmin, Hs|].
        apply list_elem_of_singleton in Hs as ->.
        apply float_ltb_false_leb; assumption.
      * intros j s Hj Hs. apply (Hfirst j s Hj).
        rewrite lookup_app_l in Hs; [exact Hs|].
        apply lookup_lt_Some in Hi. lia.
Qed.

Lemma min_from_is_first_min (x0 : X * float) (xs : list (X * float)) :
  Forall (fun s => is_nan s.2 = false) (x0 :: xs) ->
  exists i, is_first_min (x0 :: xs) i (min_from x0 xs).
Proof.
  intros Hnan. apply (min_from_scan xs [x0] 0 x0); [exact Hnan|].
  apply Forall_cons in Hnan as [H0 _]. repeat split.
  - intros s Hs. apply list_elem_of_singleton in Hs as ->. apply float_leb_refl, H0.
  - intros j s Hj. lia.
Qed.

Variable key : X -> outcome float.

Lemma with_keys_Return (xs : list X) (ks : list (X * float)) :
  with_keys key xs = Return ks ->
  ks.*1 = xs /\ Forall (fun sk => key sk.1 = Return sk.2) ks.
Proof.
  revert ks. induction xs as [|x xs IH]; intros ks; simpl.
  - intros [= <-]. split; [reflexivity|constructor].
  - destruct (key x) as [k|e] eqn:Hk; [|discriminate]. simpl.
    destruct (with_keys key xs) as [ks'|e]; [|discriminate]. simpl.
    intros [= <-]. destruct (IH ks' eq_refl) as [Hfst Hall].
    split; [simpl; f_equal; exact Hfst|]. constructor; [exact Hk|exact Hall].
Qed.

Lemma with_keys_all (xs : list X) :
  (forall x, x ∈ xs -> exists k, key x = Return k) ->
  exists ks, with_keys key xs = Return ks.
Proof.
  induction xs as [|x xs IH]; intros Hall; simpl; [eauto|].
  destruct (Hall x ltac:(left)) as [k ->]. simpl.
  destruct IH as [ks ->]; [intros y Hy; apply Hall; right; exact Hy|].
  simpl. eauto.
Qed.

(** The first key that raises ends the computation of the keys. *)
Lemma with_keys_Raise (xs : list X) (i : nat) (x : X) (e : exn) :
  xs !! i = Some x -> key x = Raise e ->
  (forall j y, (j < i)%nat -> xs !! j = Some y -> exists k, key y = Return k) ->
  with_keys key xs = Raise e.
Proof.
  revert i. induction xs as [|x0 xs IH]; intros i Hi Hx Hbefore; [discriminate Hi|].
  destruct i as [|i]; simpl in *.
  - injection Hi as ->. rewrite Hx. reflexivity.
  - destruct (Hbefore 0%nat x0 ltac:(lia) eq_refl) as [k0 ->]. simpl.
    rewrite (IH i Hi Hx); [reflexivity|].
    intros j y Hj Hy. apply (Hbefore (S j) y); [lia|exact Hy].
Qed.

End MinFrom.

Section NearestOf.
Variable m : libm.
Variables (lat lon : float).

Local Abbreviation dist := (station_distance m lat lon).

Lemma nearest_of_cons (s0 : station) (others : list station) :
  nearest_of m lat lon (s0 :: others)
  = match with_keys dist (s0 :: others) with
    | Raise e => Raise e
    | Return [] => Return None
    | Return (k0 :: ks) =>
        let b := (min_from k0 ks).1 in
        d ← dist b; Return (Some {| best := b; dist_km := d |})
    end.
Proof.
  simpl. destruct (dist s0) as [k0|e]; [|reflexivity]. simpl.
  destruct (with_keys dist others) as [ks|e]; reflexivity.
Qed.

(** When every listed station has a distance that is a number, the answer is
    the first station of the list at the least distance. *)
Lemma nearest_of_least (results : list station) :
  results <> [] ->
  (forall s, s ∈ results -> exists k, dist s = Return k /\ is_nan k = false) ->
  exists i b d,
    results !! i = Some b
    /\ dist b = Return d
    /\ nearest_of m lat lon results = Return (Some {| best := b; dist_km := d |})
    /\ (forall s k, s ∈ results -> dist s = Return k -> (d <=? k)%float = true)
    /\ (forall j s k, (j < i)%nat -> results !! j = Some s -> dist s = Return k ->
                      (d <? k)%float = true).
Proof.
  intros Hne Hall. destruct results as [|s0 others]; [congruence|].
  rewrite nearest_of_cons.
  destruct (with_keys_all dist (s0 :: others)) as [keyed Hkeyed].
  { intros s Hs. destruct (Hall s Hs) as (k & Hk & _). eauto. }
  rewrite Hkeyed.
  destruct (with_keys_Return dist _ _ Hkeyed) as [Hfst Hkeys].
  rewrite Forall_forall in Hkeys.
  destruct keyed as [|k0 ks]; [discriminate Hfst|].
  assert (Hnan : Forall (fun sk : station * float => is_nan sk.2 = false) (k0 :: ks)).
  { apply Forall_forall. intros sk Hsk.
    destruct (Hall sk.1) as (k & Hk & Hn).
    - rewrite <- Hfst. apply list_elem_of_fmap_2, Hsk.
    - rewrite (Hkeys sk Hsk) in Hk. injection Hk as ->. exact Hn. }
  destruct (min_from_is_first_min k0 ks Hnan) as (i & Hi & Hmin & Hfirst).
  set (b := min_from k0 ks) in *.
  assert (Hb : dist b.1 = Return b.2)
    by (eapply Hkeys, list_elem_of_lookup_2, Hi).
  exists i, b.1, b.2. cbv zeta. rewrite Hb. simpl. repeat split.
  - rewrite <- Hfst, list_lookup_fmap, Hi. reflexivity.
  - intros s k Hs Hk. rewrite <- Hfst in Hs.
    apply list_elem_of_fmap in Hs as (sk & -> & Hsk).
    rewrite (Hkeys sk Hsk) in Hk. injection Hk as <-. apply Hmin, Hsk.
  - intros j s k Hj Hs Hk. rewrite <- Hfst, list_lookup_fmap in Hs.
    destruct ((k0 :: ks) !! j) as [sk|] eqn:Hsk; [|discriminate Hs].
    injection Hs as <-.
    rewrite (Hkeys sk (list_elem_of_lookup_2 _ _ _ Hsk)) in Hk. injection Hk as <-.
    apply (Hfirst j sk Hj Hsk).
Qed.

(** The first station whose distance raises ends the call with what it
    raised. *)
Lemma nearest_of_raises (results : list station) (i : nat) (s : station) (e : exn) :
  results !! i = Some s -> dist s = Raise e ->
  (forall j y, (j < i)%nat -> results !! j = Some y -> exists k, dist y = Return k) ->
  nearest_of m lat lon results = Raise e.
Proof.
  intros Hi Hs Hbefore. destruct results as [|s0 others]; [discriminate Hi|].
  rewrite nearest_of_cons, (with_keys_Raise dist _ i s e Hi Hs Hbefore).
  reflexivity.
Qed.

End NearestOf.

Lemma find_nearest_station_unfold (m : libm) (net : nat -> attempt station)
    (lat lon : float) (start end_ : Z) (token datasetid : string) (km : float)
    (w : world) :
  find_nearest_station m net lat lon start end_ token datasetid km w
  = match bbox_from_point m lat lon km with
    | Raise e => (Raise e, w)
    | Return (minlon, minlat, maxlon, maxlat) =>
        match ncei_request net "stations"
                (StationsParams datasetid (minlat, minlon, maxlat, maxlon)
                                start end_ 1000)
                token w with
        | (Return js, w') => (nearest_of m lat lon (items_of js), w')
        | (Raise e, w') => (Raise e, w')
        end
    end.
Proof.
  unfold find_nearest_station, mbind, M_bind, pure_step.
  destruct (bbox_from_point m lat lon km) as [[[[minlon minlat] maxlon] maxlat]|e];
    [|reflexivity].
  destruct (ncei_request net "stations" _ token w) as [[js|e] w']; reflexivity.
Qed.

(** C7: once the bounding box is computed, the stations request is sent and
    what it raises is passed on.  An answer without results (an empty list, no
    list, or no JSON object) gives [None], without raising.  For an answer that
    lists stations: if the distance of every listed station is a number (the
    call of [haversine_km] returns, and not NaN), the result is a station of
    the list at the least distance from the origin, the first of the list at
    that distance (every station before it is strictly farther), with that
    distance in [dist_km]; and if the distance of some station raises, those
    before it being computed, the call ends with that exception. *)
Theorem find_nearest_station_nearest (m : libm) (net : nat -> attempt station)
    (lat lon : float) (start end_ : Z) (token datasetid : string) (km : float)
    (w : world) :
  let dist := station_distance m lat lon in
  let out := find_nearest_station m net lat lon start end_ token datasetid km w in
  match bbox_from_point m lat lon km with
  | Raise e => out = (Raise e, w)
  | Return (minlon, minlat, maxlon, maxlat) =>
      let request :=
        ncei_request net "stations"
          (StationsParams datasetid (minlat, minlon, maxlat, maxlon) start end_ 1000)
          token w in
      out.2 = request.2
      /\ match request.1 with
         | Raise e => out.1 = Raise e
         | Return (JDict (Some (s0 :: others))) =>
             let results := s0 :: others in
             ((forall s, s ∈ results ->
                 exists k, dist s = Return k /\ is_nan k = false) ->
              exists i b d,
                results !! i = Some b
                /\ dist b = Return d
                /\ out.1 = Return (Some {| best := b; dist_km := d |})
                /\ (forall s k, s ∈ results -> dist s = Return k ->
                                (d <=? k)%float = true)
                /\ (forall j s k, (j < i)%nat -> results !! j = Some s ->
                                  dist s = Return k -> (d <? k)%float = true))
             /\ (forall i s e,
                   results !! i = Some s -> dist s = Raise e ->
                   (forall j y, (j < i)%nat -> results !! j = Some y ->
                                exists k, dist y = Return k) ->
                   out.1 = Raise e)
         | Return _ => out.1 = Return None
         end
  end.
Proof.
  intros dist out. subst out. rewrite find_nearest_station_unfold.
  destruct (bbox_from_point m lat lon km) as [[[[minlon minlat] maxlon] maxlat]|e];
    [|reflexivity].
  cbv zeta.
  destruct (ncei_request net "stations" _ token w) as [[js|e] w'];
    cbn [fst snd]; [|split; reflexivity].
  split; [reflexivity|].
  destruct js as [[[|s0 others]|]|]; cbn [items_of]; try reflexivity.
  split.
  - intros Hall.
    destruct (nearest_of_least m lat lon (s0 :: others) ltac:(discriminate) Hall)
      as (i & b & d & H).
    exists i, b, d. exact H.
  - intros i s e. apply nearest_of_raises.
Qed.

Lemma find_nearest_station_nearest_witness :
  exists b d,
    (find_nearest_station small_angle_libm sample_stations
       34 (-118) 19357 19436 "token" "GHCND" 50 {| gets := 0; trace := [] |}).1
    = Return (Some {| best := b; dist_km := d |})
    /\ station_id b = Some "GHCND:B"
    /\ forall s k,
         s ∈ [Station (Some "GHCND:A") "far" (Some 36%float) (Some (-118)%float);
              Station (Some "GHCND:B") "north" (Some 35%float) (Some (-118)%float);
              Station (Some "GHCND:C") "west" (Some 34%float) (Some (-119)%float)] ->
         station_distance small_angle_libm 34 (-118) s = Return k ->
         (d <=? k)%float = true.
Proof.
  pose proof (find_nearest_station_nearest small_angle_libm sample_stations
                34 (-118) 19357 19436 "token" "GHCND" 50
                {| gets := 0; trace := [] |}) as H.
  cbv zeta in H.
  destruct (bbox_from_point small_angle_libm 34 (-118) 50)
    as [[[[minlon minlat] maxlon] maxlat]|e] eqn:Hbox;
    [|vm_compute in Hbox; discriminate Hbox].
  destruct H as [_ H].
  match type of H with
  | match ?r with _ => _ end =>
      change r with (Return (JDict (Some
        [Station (Some "GHCND:A") "far" (Some 36%float) (Some (-118)%float);
         Station (Some "GHCND:B") "north" (Some 35%float) (Some (-118)%float);
         Station (Some "GHCND:C") "west" (Some 34%float) (Some (-119)%float)])))
        in H
  end.
  cbv beta iota in H. destruct H as [H _].
  destruct H as (i & b & d & Hi & Hd & Hout & Hmin & _).
  { intros s Hs. rewrite !elem_of_cons in Hs.
    destruct Hs as [->|[->|[->|Hs]]]; [| | |inversion Hs];
      eexists; (split; [vm_compute; reflexivity|reflexivity]). }
  exists b, d. split; [exact Hout|]. split; [|exact Hmin].
  assert (Hrun : (find_nearest_station small_angle_libm sample_stations
                    34 (-118) 19357 19436 "token" "GHCND" 50
                    {| gets := 0; trace := [] |}).1
                 = Return (Some {| best := Station (Some "GHCND:B") "north"
                                                   (Some 35%float) (Some (-118)%float);
                                   dist_km := 0x1.bcc79ad9adfecp+6 |}))
    by (vm_compute; reflexivity).
  rewrite Hrun in Hout. injection Hout as <- _. reflexivity.
Defined.

(** C7 as stated fails on an answer that lists a station without
    coordinates: the call raises [TypeError] instead of returning a station;
    and on one that lists a station nearly antipodal to the origin, where it
    raises [ValueError]. *)
Lemma find_nearest_station_raises_on_a_station :
  (find_nearest_station small_angle_libm sample_stations_incomplete
     34 (-118) 19357 19436 "token" "GHCND" 50 {| gets := 0; trace := [] |}).1
  = Raise (OtherError "TypeError")
  /\ (find_nearest_station antipodes_libm
        (fun _ => Responds (Response 200 ""
           (Some (JDict (Some [Station (Some "GHCND:S") "south"
                                       (Some antipode_south.1)
                                       (Some antipode_south.2)])))))
        antipode_north.1 antipode_north.2 19357 19436 "token" "GHCND" 50
        {| gets := 0; trace := [] |}).1
     = Raise (OtherError "ValueError").
Proof. vm_compute. split; reflexivity. Qed.

(** ** fetch_daily_chunked: the chunk loop *)

Lemma tiles_le a cs z : tiles a cs z -> a <= z.
Proof.
  revert a. induction cs as [|[x y] cs IH]; intros a; simpl; [lia|].
  intros (-> & Hxy & Ht). apply IH in Ht. lia.
Qed.

Lemma tiles_union a cs z :
  tiles a cs z ->
  forall d, a <= d < z <-> exists c, c ∈ cs /\ c.1 <= d <= c.2.
Proof.
  revert a. induction cs as [|[x y] cs IH]; intros a; simpl.
  - intros -> d. split; [lia|]. intros (c & Hc & _). inversion Hc.
  - intros (-> & Hxy & Ht) d. pose proof (tiles_le _ _ _ Ht) as Hle.
    specialize (IH _ Ht d). split.
    + intros Hd. destruct (decide (d <= y)) as [Hdy|Hdy].
      * exists (a, y). split; [left|simpl; lia].
      * destruct (proj1 IH) as (c & Hc & Hcd); [lia|].
        exists c. split; [right; exact Hc|exact Hcd].
    + intros (c & Hc & Hcd). apply elem_of_cons in Hc as [->|Hc].
      * simpl in Hcd. lia.
      * assert (y + 1 <= d < z) by (apply IH; eauto). lia.
Qed.

Lemma tiles_lookup a cs z i c :
  tiles a cs z -> cs !! i = Some c -> a <= c.1 /\ c.1 <= c.2 /\ c.2 < z.
Proof.
  revert a i. induction cs as [|[x y] cs IH]; intros a i; simpl; [intros _ H; inversion H|].
  intros (-> & Hxy & Ht) Hi. pose proof (tiles_le _ _ _ Ht) as Hle.
  destruct i as [|i]; simpl in Hi.
  - injection Hi as <-. simpl. lia.
  - destruct (IH _ _ Ht Hi) as (H1 & H2 & H3). lia.
Qed.

Lemma tiles_ordered a cs z i j ci cj :
  tiles a cs z -> (i < j)%nat ->
  cs !! i = Some ci -> cs !! j = Some cj -> ci.2 < cj.1.
Proof.
  revert a i j. induction cs as [|[x y] cs IH]; intros a i j; simpl;
    [intros _ _ H; inversion H|].
  intros (-> & Hxy & Ht) Hij Hi Hj.
  destruct j as [|j]; [lia|]. simpl in Hj.
  destruct i as [|i]; simpl in Hi.
  - injection Hi as <-. simpl.
    destruct (tiles_lookup _ _ _ _ _ Ht Hj) as (H1 & _). lia.
  - apply (IH _ i j Ht); [lia|assumption|assumption].
Qed.

Lemma in_bounds_day (d : Z) :
  in_bounds (d * ns_per_day) = true <-> representable_day d.
Proof.
  unfold in_bounds, representable_day, max_day, int64_max, ns_per_day.
  rewrite andb_true_iff, !Z.leb_le. lia.
Qed.

Lemma timedelta_days_Return (n : Z) :
  representable_day n -> timedelta_days n = Return n.
Proof.
  intros H%in_bounds_day. unfold timedelta_days. rewrite H. reflexivity.
Qed.

Lemma add_days_Return (d n : Z) :
  representable_day (d + n) -> add_days d n = Return (d + n).
Proof.
  intros H%in_bounds_day. unfold add_days. rewrite H. reflexivity.
Qed.

Lemma to_timestamp_Return (d : Z) :
  representable_day d -> to_timestamp d = Return d.
Proof.
  intros H%in_bounds_day. unfold to_timestamp. rewrite H. reflexivity.
Qed.

(** Line 82 and line 99: a day [n] days later, when the span and the day
    reached can be held. *)
Lemma later_day_Return (d n : Z) :
  representable_day n -> representable_day (d + n) ->
  timedelta_days n ≫= add_days d = Return (d + n).
Proof.
  intros Hn Hd. rewrite (timedelta_days_Return n Hn). simpl.
  apply add_days_Return, Hd.
Qed.

Lemma later_day_inv (d n r : Z) :
  timedelta_days n ≫= add_days d = Return r ->
  r = d + n /\ representable_day n /\ representable_day (d + n).
Proof.
  unfold timedelta_days, add_days.
  destruct (in_bounds (n * ns_per_day)) eqn:Hn; [|discriminate]. simpl.
  destruct (in_bounds ((d + n) * ns_per_day)) eqn:Hd; [|discriminate].
  intros [= <-]. apply in_bounds_day in Hn, Hd. auto.
Qed.

Section ChunkLoop.
Variable net : nat -> attempt observation.
Variables (stationid token : string) (datatypes : list string).
Variables (chunk_days limit end_dt : Z).
Hypothesis chunk_days_pos : 1 <= chunk_days.

Local Abbreviation body := (fetch_chunk net stationid token datatypes limit).
Local Abbreviation loop fuel :=
  (fetch_chunks fuel net stationid token datatypes chunk_days limit end_dt).

(** Every pass moves the cursor forward. *)
Lemma cursor_advances current :
  current <= end_dt ->
  current < Z.min (current + (chunk_days - 1)) end_dt + 1 <= end_dt + 1.
Proof. lia. Qed.

Lemma chunk_count_step current :
  current <= end_dt ->
  Z.to_nat ((end_dt - current + chunk_days) / chunk_days)
  = S (Z.to_nat ((end_dt - (Z.min (current + (chunk_days - 1)) end_dt + 1)
                  + chunk_days) / chunk_days)).
Proof.
  intros Hle.
  destruct (Z.min_spec (current + (chunk_days - 1)) end_dt) as [[Hlt ->]|[Hge ->]].
  - replace (end_dt - current + chunk_days)
      with ((end_dt - (current + (chunk_days - 1) + 1) + chunk_days)
            + 1 * chunk_days) by lia.
    rewrite Z.div_add by lia.
    rewrite Z2Nat.inj_add; [simpl; lia| |lia].
    apply Z.div_pos; lia.
  - replace (end_dt - (end_dt + 1) + chunk_days) with (chunk_days - 1) by lia.
    rewrite (Z.div_small (chunk_days - 1)) by lia.
    replace (end_dt - current + chunk_days)
      with ((end_dt - current) + 1 * chunk_days) by lia.
    rewrite Z.div_add by lia.
    rewrite (Z.div_small (end_dt - current)) by lia. reflexivity.
Qed.

(** The loop started at [current] ends.  It runs its body on consecutive
    ranges [cs], no more than the chunks of [current .. end_dt], and then
    either stops ([fin = None]), having tiled [current .. end_dt], or raises
    what line 82 or line 99 raised ([fin = Some e]).  It stops when the days
    it computes can all be held. *)
Lemma fetch_chunks_ends (n : nat) :
  forall current,
    current <= end_dt + 1 ->
    Z.to_nat (end_dt + 1 - current) = n ->
    exists (cs : list (Z * Z)) (fin : option exn),
      (length cs <= Z.to_nat ((end_dt - current + chunk_days) / chunk_days))%nat
      /\ (fin = None ->
          tiles current cs (end_dt + 1)
          /\ Forall (fun c => c.2 - c.1 + 1 <= chunk_days) cs
          /\ length cs = Z.to_nat ((end_dt - current + chunk_days) / chunk_days))
      /\ (- max_day <= current -> representable_day (chunk_days - 1) ->
          end_dt + (chunk_days - 1) <= max_day -> end_dt + 1 <= max_day ->
          fin = None)
      /\ forall fuel st, (length cs < fuel)%nat ->
           loop fuel current st
           = Some (match fin with
                   | None => Return (foldl (fun st c => body c st) st cs).1
                   | Some e => Raise e
                   end,
                   (foldl (fun st c => body c st) st cs).2).
Proof.
  induction n as [n IH] using lt_wf_ind. intros current Hcur Hn.
  destruct (decide (current <= end_dt)) as [Hle|Hgt].
  - pose proof (chunk_count_step current Hle) as Hcount.
    destruct (timedelta_days (chunk_days - 1) ≫= add_days current)
      as [reach|e] eqn:H82.
    + apply later_day_inv in H82 as Hreach. destruct Hreach as (-> & _ & _).
      set (chunk_end := Z.min (current + (chunk_days - 1)) end_dt) in *.
      pose proof (cursor_advances current Hle) as Hadv. fold chunk_end in Hadv.
      destruct (timedelta_days 1 ≫= add_days chunk_end) as [next|e] eqn:H99.
      * apply later_day_inv in H99 as Hnext. destruct Hnext as (-> & _ & _).
        destruct (IH (Z.to_nat (end_dt + 1 - (chunk_end + 1))) ltac:(lia)
                     (chunk_end + 1) ltac:(lia) eq_refl)
          as (cs & fin & Hlen & Hfull & Hin & Hrun).
        exists ((current, chunk_end) :: cs), fin. repeat apply conj.
        -- simpl. lia.
        -- intros Hfin. destruct (Hfull Hfin) as (Htiles & Hsize & Hlen').
           repeat split.
           ++ simpl. lia.
           ++ exact Htiles.
           ++ constructor; [simpl; unfold chunk_end; lia|exact Hsize].
           ++ simpl. lia.
        -- intros H1 H2 H3 H4. apply Hin; [lia|assumption..].
        -- intros [|fuel] st Hfuel; simpl in Hfuel; [lia|].
           cbn [fetch_chunks]. replace (current <=? end_dt) with true
             by (symmetry; apply Z.leb_le, Hle).
           rewrite H82. fold chunk_end. rewrite H99.
           rewrite Hrun by lia. reflexivity.
      * exists [(current, chunk_end)], (Some e). repeat apply conj.
        -- simpl. lia.
        -- discriminate.
        -- intros H1 H2 H3 H4. exfalso.
           rewrite later_day_Return in H99; [discriminate H99| |];
             unfold representable_day, max_day in *; lia.
        -- intros [|fuel] st Hfuel; simpl in Hfuel; [lia|].
           cbn [fetch_chunks]. replace (current <=? end_dt) with true
             by (symmetry; apply Z.leb_le, Hle).
           rewrite H82. fold chunk_end. rewrite H99. reflexivity.
    + exists [], (Some e). repeat apply conj.
      * simpl. lia.
      * discriminate.
      * intros H1 H2 H3 H4. exfalso.
        rewrite later_day_Return in H82; [discriminate H82|exact H2|].
        unfold representable_day, max_day in *. lia.
      * intros [|fuel] st Hfuel; simpl in Hfuel; [lia|].
        cbn [fetch_chunks]. replace (current <=? end_dt) with true
          by (symmetry; apply Z.leb_le, Hle).
        rewrite H82. reflexivity.
  - exists [], None. repeat apply conj.
    + simpl. lia.
    + intros _. repeat split.
      * simpl. lia.
      * constructor.
      * simpl. replace (end_dt - current + chunk_days) with (chunk_days - 1) by lia.
        rewrite Z.div_small by lia. reflexivity.
    + reflexivity.
    + intros [|fuel] st Hfuel; simpl in Hfuel; [lia|].
      cbn [fetch_chunks]. replace (current <=? end_dt) with false
        by (symmetry; apply Z.leb_gt; lia).
      reflexivity.
Qed.

(** When the days it computes can all be held, the loop started at [current]
    runs its body on consecutive ranges that tile [current .. end_dt], and
    then stops. *)
Lemma fetch_chunks_run (current : Z) :
  current <= end_dt + 1 ->
  - max_day <= current ->
  representable_day (chunk_days - 1) ->
  end_dt + (chunk_days - 1) <= max_day ->
  end_dt + 1 <= max_day ->
  exists cs,
    tiles current cs (end_dt + 1)
    /\ Forall (fun c => c.2 - c.1 + 1 <= chunk_days) cs
    /\ length cs = Z.to_nat ((end_dt - current + chunk_days) / chunk_days)
    /\ forall fuel st, (length cs < fuel)%nat ->
         loop fuel current st
         = Some (Return (foldl (fun st c => body c st) st cs).1,
                 (foldl (fun st c => body c st) st cs).2).
Proof.
  intros Hcur H1 H2 H3 H4.
  destruct (fetch_chunks_ends _ current Hcur eq_refl)
    as (cs & fin & _ & Hfull & Hin & Hrun).
  specialize (Hin H1 H2 H3 H4). subst fin.
  destruct (Hfull eq_refl) as (Htiles & Hsize & Hlen).
  exists cs. repeat split; assumption.
Qed.

End ChunkLoop.

(** Why [chunk_days >= 1] is needed: with a chunk of no day the cursor never
    passes [end_dt], and no amount of fuel lets the loop return. *)
Lemma fetch_chunks_stuck (net : nat -> attempt observation)
    (stationid token : string) (datatypes : list string)
    (chunk_days limit end_dt : Z) (fuel : nat) :
  chunk_days <= 0 ->
  forall current st frames w',
    current <= end_dt ->
    fetch_chunks fuel net stationid token datatypes chunk_days limit
                 end_dt current st <> Some (Return frames, w').
Proof.
  intros Hc. induction fuel as [|fuel IH]; intros current st frames w' Hle;
    [discriminate|].
  cbn [fetch_chunks].
  replace (current <=? end_dt) with true by (symmetry; apply Z.leb_le, Hle).
  destruct (timedelta_days (chunk_days - 1) ≫= add_days current)
    as [reach|e] eqn:H82; [|discriminate].
  apply later_day_inv in H82 as (-> & _ & _).
  destruct (timedelta_days 1 ≫= add_days _) as [next|e] eqn:H99; [|discriminate].
  apply later_day_inv in H99 as (-> & _ & _).
  apply IH. lia.
Qed.

(** *** What the loop asks the network *)

Lemma requested_ranges_retries url token ds sid a b u lim dts m i :
  requested_ranges
    (flat_map (fun i => [EvGet url (Some token) (DataParams ds sid a b u lim dts);
                         EvSleep (inject_Z (2 * (Z.of_nat i + 1)))])
              (seq i m))
  = replicate m (a, b).
Proof.
  revert i. induction m as [|m IH]; intros i; [reflexivity|].
  simpl. unfold requested_ranges in *. simpl. rewrite IH. reflexivity.
Qed.

Lemma requested_ranges_retry_trace url token ds sid a b u lim dts m :
  requested_ranges (retry_trace url token (DataParams ds sid a b u lim dts) m)
  = replicate (S m) (a, b).
Proof.
  unfold retry_trace, requested_ranges. rewrite omap_app.
  fold (requested_ranges (flat_map (fun i =>
          [EvGet url (Some token) (DataParams ds sid a b u lim dts);
           EvSleep (inject_Z (2 * (Z.of_nat i + 1)))]) (seq 0 m))).
  rewrite requested_ranges_retries. simpl.
  induction m as [|m IH]; [reflexivity|]. simpl. rewrite IH. reflexivity.
Qed.

Section ChunkTrace.
Variable net : nat -> attempt observation.
Variables (stationid token : string) (datatypes : list string) (limit : Z).

Local Abbreviation body := (fetch_chunk net stationid token datatypes limit).

(** One chunk: between one and [manual_retries + 1] GETs, all for the range of
    the chunk. *)
Lemma fetch_chunk_gets (c : Z * Z) (st : list (list observation) * world) :
  exists k,
    (k <= manual_retries)%nat
    /\ gets (body c st).2 = (gets st.2 + S k)%nat
    /\ requested_ranges (trace (body c st).2)
       = requested_ranges (trace st.2) ++ replicate (S k) c.
Proof.
  destruct c as [a b], st as [frames w]. unfold fetch_chunk.
  rewrite ncei_request_unfold. cbv zeta.
  set (m := Nat.min _ manual_retries).
  exists m. split; [subst m; lia|].
  destruct (settled (net (gets w + m)%nat)) as [js|e]; [destruct (items_of js)|];
    cbn [fst snd gets trace log]; (split; [reflexivity|]);
    unfold requested_ranges; rewrite ?omap_app;
    fold (requested_ranges (trace w));
    rewrite <- ?app_assoc; f_equal;
    match goal with
    | |- context [omap ?f (retry_trace ?u ?t ?p m)] =>
        change (omap f (retry_trace u t p m))
          with (requested_ranges (retry_trace u t p m))
    end;
    rewrite requested_ranges_retry_trace; simpl; rewrite ?app_nil_r; reflexivity.
Qed.

Lemma fetch_chunks_gets (cs : list (Z * Z)) :
  forall st,
    exists ks,
      length ks = length cs
      /\ Forall (fun k => (k <= manual_retries)%nat) ks
      /\ requested_ranges (trace (foldl (fun st c => body c st) st cs).2)
         = requested_ranges (trace st.2) ++ chunk_gets cs ks
      /\ gets (foldl (fun st c => body c st) st cs).2
         = (gets st.2 + sum_list (S <$> ks))%nat.
Proof.
  induction cs as [|c cs IH]; intros st.
  - exists []. simpl. rewrite app_nil_r. repeat split; [constructor|lia].
  - destruct (fetch_chunk_gets c st) as (k & Hk & Hgets & Htrace).
    destruct (IH (body c st)) as (ks & Hlen & Hks & Htr & Hg).
    exists (k :: ks). cbn [foldl]. repeat split.
    + simpl. lia.
    + constructor; assumption.
    + rewrite Htr, Htrace. unfold chunk_gets. simpl.
      rewrite <- app_assoc. reflexivity.
    + rewrite Hg, Hgets, fmap_cons.
      change (sum_list (S k :: (S <$> ks))) with (S k + sum_list (S <$> ks))%nat.
      lia.
Qed.

End ChunkTrace.

(** GETs of a tiling come in non-decreasing date order. *)
Lemma chunk_gets_sorted a cs z ks :
  tiles a cs z ->
  Forall (fun c => a <= c.1) (chunk_gets cs ks)
  /\ StronglySorted (fun c c' => c.1 <= c'.1) (chunk_gets cs ks).
Proof.
  revert a ks. induction cs as [|[x y] cs IH]; intros a ks; simpl.
  - intros _. split; constructor.
  - intros (-> & Hxy & Ht). destruct ks as [|k ks]; [split; constructor|].
    unfold chunk_gets. cbn [zip_with concat]. fold (chunk_gets cs ks).
    destruct (IH _ ks Ht) as [Hall Hsorted]. split.
    + apply Forall_app. split.
      * apply Forall_replicate. simpl. lia.
      * eapply Forall_impl; [exact Hall|]. simpl. intros c Hc. lia.
    + apply StronglySorted_app_2.
      * intros c1 c2 H1 H2. apply elem_of_replicate in H1 as [-> _].
        rewrite Forall_forall in Hall. specialize (Hall c2 H2). simpl in *. lia.
      * generalize (S k). intros n. induction n; simpl; constructor; [assumption|].
        apply Forall_replicate. simpl. lia.
      * exact Hsorted.
Qed.

Lemma sum_list_succ_bounds (m : nat) (ks : list nat) :
  Forall (fun k => (k <= m)%nat) ks ->
  (length ks <= sum_list (S <$> ks) <= S m * length ks)%nat.
Proof.
  induction 1 as [|k ks Hk _ IH].
  - simpl. lia.
  - rewrite fmap_cons.
    change (sum_list (S k :: (S <$> ks))) with (S k + sum_list (S <$> ks))%nat.
    simpl length. lia.
Qed.

(** C2, amended: for [start <= end] and [chunk_days >= 1], when [start],
    [end + 1] and [end + chunk_days - 1] are days a [Timestamp] can hold and
    [chunk_days - 1] days is a span a [Timedelta] can hold, the loop of
    [fetch_daily_chunked] runs its body on date ranges [cs] that follow each
    other without gap or overlap from [start] to [end], each of at most
    [chunk_days] days, so that a day lies in [start .. end] exactly when it
    lies in one of them; the GETs of the run ask for these ranges, chunk after
    chunk (a retried chunk asks again for its own range), hence in
    non-decreasing date order; and the loop returns. *)
Theorem fetch_chunks_tile_the_range
    (net : nat -> attempt observation) (stationid token : string)
    (datatypes : list string) (chunk_days limit start_dt end_dt : Z) (w : world) :
  start_dt <= end_dt ->
  1 <= chunk_days ->
  representable_day start_dt ->
  representable_day (end_dt + 1) ->
  representable_day (end_dt + (chunk_days - 1)) ->
  representable_day (chunk_days - 1) ->
  exists (cs : list (Z * Z)) (ks : list nat),
    tiles start_dt cs (end_dt + 1)
    /\ Forall (fun c => c.1 <= c.2 /\ c.2 - c.1 + 1 <= chunk_days) cs
    /\ (forall d, start_dt <= d <= end_dt <-> exists c, c ∈ cs /\ c.1 <= d <= c.2)
    /\ (forall i j ci cj, (i < j)%nat ->
          cs !! i = Some ci -> cs !! j = Some cj -> ci.2 < cj.1)
    /\ length ks = length cs
    /\ StronglySorted (fun c c' => c.1 <= c'.1) (chunk_gets cs ks)
    /\ forall fuel, (length cs < fuel)%nat ->
         exists frames w',
           fetch_chunks fuel net stationid token datatypes chunk_days limit
                        end_dt start_dt ([], w) = Some (Return frames, w')
           /\ (frames, w')
              = foldl (fun st c => fetch_chunk net stationid token datatypes limit c st)
                      ([], w) cs
           /\ requested_ranges (trace w')
              = requested_ranges (trace w) ++ chunk_gets cs ks.
Proof.
  intros Hle Hpos Hstart Hnext Hreach Hspan.
  destruct (fetch_chunks_run net stationid token datatypes chunk_days limit end_dt
              Hpos start_dt ltac:(lia) (proj1 Hstart) Hspan (proj2 Hreach)
              (proj2 Hnext))
    as (cs & Htiles & Hsize & _ & Hrun).
  destruct (fetch_chunks_gets net stationid token datatypes limit cs ([], w))
    as (ks & Hlen & _ & Htrace & _).
  exists cs, ks. repeat apply conj.
  - exact Htiles.
  - rewrite Forall_forall in *. intros c Hc. split; [|apply Hsize, Hc].
    apply list_elem_of_lookup_1 in Hc as [i Hi].
    destruct (tiles_lookup _ _ _ _ _ Htiles Hi) as (_ & H & _). exact H.
  - intros d. rewrite <- (tiles_union _ _ _ Htiles d). lia.
  - intros i j ci cj. apply (tiles_ordered _ _ _ _ _ _ _ Htiles).
  - exact Hlen.
  - apply (chunk_gets_sorted _ _ _ ks Htiles).
  - intros fuel Hfuel.
    destruct (foldl (fun st c => fetch_chunk net stationid token datatypes limit c st)
                    ([], w) cs) as [frames w'] eqn:Hfold.
    exists frames, w'. rewrite (Hrun fuel _ Hfuel), Hfold.
    cbn [fst snd] in *. repeat split. exact Htrace.
Qed.

Lemma fetch_chunks_tile_the_range_witness :
  exists (cs : list (Z * Z)) (ks : list nat),
    tiles 0 cs (69 + 1)
    /\ Forall (fun c => c.1 <= c.2 /\ c.2 - c.1 + 1 <= 30) cs
    /\ (forall d, 0 <= d <= 69 <-> exists c, c ∈ cs /\ c.1 <= d <= c.2)
    /\ (forall i j ci cj, (i < j)%nat ->
          cs !! i = Some ci -> cs !! j = Some cj -> ci.2 < cj.1)
    /\ length ks = length cs
    /\ StronglySorted (fun c c' => c.1 <= c'.1) (chunk_gets cs ks)
    /\ forall fuel, (length cs < fuel)%nat ->
         exists frames w',
           fetch_chunks fuel (fun _ => Fails NetReadTimeout) "GHCND:USW00023234"
                        "token" ["TMAX"; "TMIN"] 30 1000 69 0
                        ([], {| gets := 0; trace := [] |}) = Some (Return frames, w')
           /\ (frames, w')
              = foldl (fun st c => fetch_chunk (fun _ => Fails NetReadTimeout)
                                     "GHCND:USW00023234" "token" ["TMAX"; "TMIN"]
                                     1000 c st)
                      ([], {| gets := 0; trace := [] |}) cs
           /\ requested_ranges (trace w')
              = requested_ranges (trace {| gets := 0; trace := [] |})
                ++ chunk_gets cs ks.
Proof.
  apply (fetch_chunks_tile_the_range (fun _ => Fails NetReadTimeout)
           "GHCND:USW00023234" "token" ["TMAX"; "TMIN"] 30 1000 0 69
           {| gets := 0; trace := [] |});
    unfold representable_day, max_day; lia.
Defined.

(** C2 as stated fails for a chunk size no [Timedelta] can hold: with
    [chunk_days] a billion, line 82 raises before the first request, for any
    fuel, and the loop produces no range at all.  It fails also at the end of
    the range of [Timestamp]: for the single day 2262-04-11 the request is
    sent, and line 99 then raises. *)
Lemma fetch_chunks_raises_out_of_bounds :
  fetch_chunks 3 sample_net "GHCND:USW00023234" "token" ["TMAX"; "TMIN"]
               1000000000 1000 19436 19357 ([], {| gets := 0; trace := [] |})
  = Some (Raise (OtherError "OutOfBoundsTimedelta"), {| gets := 0; trace := [] |})
  /\ ~ (exists fuel frames w',
          fetch_chunks fuel sample_net "GHCND:USW00023234" "token" ["TMAX"; "TMIN"]
                       1000000000 1000 19436 19357 ([], {| gets := 0; trace := [] |})
          = Some (Return frames, w'))
  /\ exists w',
       fetch_chunks 3 sample_net "GHCND:USW00023234" "token" ["TMAX"; "TMIN"]
                    1 1000 106751 106751 ([], {| gets := 0; trace := [] |})
       = Some (Raise (OtherError "OutOfBoundsDatetime"), w')
       /\ requested_ranges (trace w') = [(106751, 106751)].
Proof.
  split; [reflexivity|]. split.
  - intros ([|fuel] & frames & w' & H); discriminate H.
  - eexists. split; reflexivity.
Qed.

(** C10: for [start <= end] and [chunk_days >= 1] the loop of
    [fetch_daily_chunked] ends, and so does the function: a pass that reaches
    its end moves the cursor strictly forward, the body runs on no more than
    [ceil (days / chunk_days)] chunks, where [days = end - start + 1], each
    with [manual_retries + 1] GETs at most, and with more fuel than that
    number the function comes to an end, returning its table or raising what
    an addition of dates raised.  When it returns, the body ran on exactly
    that many chunks. *)
Theorem fetch_daily_chunked_terminates
    (to_datetime_utc : string -> option Z)
    (net : nat -> attempt observation) (stationid token : string)
    (datatypes : list string) (chunk_days limit start end_ : Z) (w : world) :
  start <= end_ ->
  1 <= chunk_days ->
  let days := end_ - start + 1 in
  let chunks := Z.to_nat ((days + (chunk_days - 1)) / chunk_days) in
  (forall current reach next,
     current <= end_ ->
     timedelta_days (chunk_days - 1) ≫= add_days current = Return reach ->
     timedelta_days 1 ≫= add_days (Z.min reach end_) = Return next ->
     current < next)
  /\ exists cs,
       (length cs <= chunks)%nat
       /\ forall fuel, (chunks < fuel)%nat ->
            exists out w',
              fetch_daily_chunked to_datetime_utc fuel net stationid start end_
                                  token datatypes chunk_days limit w
              = Some (out, w')
              /\ w' = (foldl (fun st c =>
                                fetch_chunk net stationid token datatypes limit c st)
                             ([], w) cs).2
              /\ (gets w' <= gets w + (manual_retries + 1) * chunks)%nat
              /\ (forall t, out = Return t ->
                    length cs = chunks /\ (gets w + chunks <= gets w')%nat).
Proof.
  intros Hle Hpos days chunks. split.
  { intros current reach next Hc (-> & _ & _)%later_day_inv (-> & _ & _)%later_day_inv.
    lia. }
  assert (Hgets : forall cs, (length cs <= chunks)%nat ->
            let w' := (foldl (fun st c =>
                                fetch_chunk net stationid token datatypes limit c st)
                             ([], w) cs).2 in
            (gets w + length cs <= gets w'
             <= gets w + (manual_retries + 1) * chunks)%nat).
  { intros cs Hlen w'. subst w'.
    destruct (fetch_chunks_gets net stationid token datatypes limit cs ([], w))
      as (ks & Hks & Hall & _ & Hgets).
    cbn [snd] in Hgets. rewrite Hgets.
    pose proof (sum_list_succ_bounds _ _ Hall).
    replace (manual_retries + 1)%nat with (S manual_retries) by lia. nia. }
  unfold fetch_daily_chunked.
  destruct (to_timestamp start) as [start_dt|e] eqn:Hs.
  2:{ exists []. split; [simpl; lia|]. intros fuel _.
      exists (Raise e), w. simpl.
      split; [reflexivity|]. split; [reflexivity|]. split; [lia|discriminate]. }
  destruct (to_timestamp end_) as [end_dt|e] eqn:He.
  2:{ exists []. split; [simpl; lia|]. intros fuel _.
      exists (Raise e), w. simpl.
      split; [reflexivity|]. split; [reflexivity|]. split; [lia|discriminate]. }
  assert (start_dt = start) as ->
    by (unfold to_timestamp in Hs; destruct (in_bounds _); congruence).
  assert (end_dt = end_) as ->
    by (unfold to_timestamp in He; destruct (in_bounds _); congruence).
  destruct (fetch_chunks_ends net stationid token datatypes chunk_days limit end_
              Hpos _ start ltac:(lia) eq_refl)
    as (cs & fin & Hlen & Hfull & _ & Hrun).
  assert (Hchunks : Z.to_nat ((end_ - start + chunk_days) / chunk_days) = chunks).
  { subst chunks days. do 2 f_equal. lia. }
  rewrite Hchunks in Hlen.
  exists cs. split; [exact Hlen|]. intros fuel Hfuel.
  rewrite (Hrun fuel ([], w)) by lia.
  specialize (Hgets cs Hlen). cbv zeta in Hgets.
  destruct fin as [e|].
  - eexists _, _. split; [reflexivity|]. split; [reflexivity|].
    split; [lia|discriminate].
  - eexists _, _. split; [reflexivity|]. split; [reflexivity|].
    split; [lia|]. intros t _.
    destruct (Hfull eq_refl) as (_ & _ & Hlen'). rewrite Hchunks in Hlen'.
    split; [exact Hlen'|lia].
Qed.

Lemma fetch_daily_chunked_terminates_witness :
  exists out w',
    fetch_daily_chunked (fun _ => None) 4 (fun _ => Fails NetReadTimeout)
      "GHCND:USW00023234" 0 69 "token" ["TMAX"; "TMIN"] 30 1000
      {| gets := 0; trace := [] |}
    = Some (out, w').
Proof.
  destruct (fetch_daily_chunked_terminates (fun _ => None)
              (fun _ => Fails NetReadTimeout) "GHCND:USW00023234" "token"
              ["TMAX"; "TMIN"] 30 1000 0 69 {| gets := 0; trace := [] |}
              ltac:(lia) ltac:(lia)) as (_ & cs & _ & H).
  destruct (H 4%nat ltac:(vm_compute; lia)) as (out & w' & Hfetch & _).
  exists out, w'. exact Hfetch.
Defined.

(** ** fetch_daily_chunked: the reshaped table *)

Section DropDuplicates.
Context {X : Type}.
Variable same : X -> X -> bool.

Lemma existsb_same_true (r : X) (seen : list X) :
  existsb (same r) seen = true <-> exists s, s ∈ seen /\ same r s = true.
Proof.
  rewrite existsb_exists. split; intros (s & Hs & Hr); exists s;
    (split; [apply list_elem_of_In; exact Hs|exact Hr]).
Qed.

(** A group untouched so far keeps its first row: for a property [P] of rows
    that [same] rows share, dropping duplicates does not change the first row
    with [P]. *)
Lemma drop_duplicates_from_first (P : X -> Prop) `{!forall r, Decision (P r)}
    (seen l : list X) :
  (forall r s, same r s = true -> P r -> P s) ->
  (forall s, s ∈ seen -> ~ P s) ->
  head (filter P (drop_duplicates_from same seen l)) = head (filter P l).
Proof.
  intros Hsame. revert seen. induction l as [|r l IH]; intros seen Hseen;
    [reflexivity|].
  simpl. destruct (existsb (same r) seen) eqn:Hex.
  - apply existsb_same_true in Hex as (s & Hs & Hrs).
    rewrite filter_cons_False; [apply IH, Hseen|].
    intros Hr. apply (Hseen s Hs). eapply Hsame; eassumption.
  - destruct (decide (P r)) as [Hr|Hr].
    + rewrite !filter_cons_True by exact Hr. reflexivity.
    + rewrite !filter_cons_False by exact Hr. apply IH.
      intros s [->|Hs]%elem_of_cons; [exact Hr|apply Hseen, Hs].
Qed.

Lemma drop_duplicates_first (P : X -> Prop) `{!forall r, Decision (P r)}
    (l : list X) :
  (forall r s, same r s = true -> P r -> P s) ->
  head (filter P (drop_duplicates same l)) = head (filter P l).
Proof.
  intros Hsame. apply drop_duplicates_from_first; [exact Hsame|].
  intros s Hs. inversion Hs.
Qed.

(** With a test that decides equality, what is left has no repetition and the
    same elements. *)
Hypothesis same_eq : forall x y, same x y = true <-> x = y.

Lemma drop_duplicates_from_spec (seen l : list X) :
  NoDup (drop_duplicates_from same seen l)
  /\ forall x, x ∈ drop_duplicates_from same seen l <-> x ∈ l /\ x ∉ seen.
Proof.
  revert seen. induction l as [|r l IH]; intros seen; simpl.
  - split; [constructor|]. intros x. split; [inversion 1|intros [H _]; inversion H].
  - destruct (existsb (same r) seen) eqn:Hex.
    + apply existsb_same_true in Hex as (s & Hs & ->%same_eq).
      destruct (IH seen) as [Hnd Hin]. split; [exact Hnd|].
      intros x. rewrite Hin, elem_of_cons. split; [tauto|].
      intros [[->|Hx] Hn]; [contradiction|tauto].
    + assert (Hr : r ∉ seen).
      { intros Hr. assert (existsb (same r) seen = true) as Ht; [|congruence].
        apply existsb_same_true. exists r. split; [exact Hr|apply same_eq; reflexivity]. }
      destruct (IH (r :: seen)) as [Hnd Hin]. split.
      * constructor; [|exact Hnd]. rewrite Hin, elem_of_cons. tauto.
      * intros x. rewrite !elem_of_cons, Hin, elem_of_cons. split.
        -- intros [->|[Hx Hn]]; tauto.
        -- intros [[->|Hx] Hn]; [tauto|].
           destruct (same x r) eqn:Hxr; [apply same_eq in Hxr; tauto|].
           right. split; [exact Hx|]. intros [Heq|Hs]; [|tauto].
           apply same_eq in Heq. congruence.
Qed.

End DropDuplicates.

Lemma same_observation_key r s :
  same_observation r s = true -> date r = date s /\ datatype r = datatype s.
Proof.
  unfold same_observation. rewrite !andb_true_iff, !bool_decide_eq_true. tauto.
Qed.

Lemma head_filter_is_Some {X : Type} (P : X -> Prop) `{!forall r, Decision (P r)}
    (l : list X) :
  is_Some (head (filter P l)) <-> exists r, r ∈ l /\ P r.
Proof.
  split.
  - intros [r Hr]. apply head_Some_elem_of in Hr.
    apply list_elem_of_filter in Hr as [HP Hin]. eauto.
  - intros (r & Hin & HP).
    assert (Hr : r ∈ filter P l) by (apply list_elem_of_filter; auto).
    destruct (filter P l); [inversion Hr|simpl; eauto].
Qed.

Section Reshape.
Variable to_datetime_utc : string -> option Z.

(** The normalized day of a record, if its timestamp parses. *)
Local Abbreviation day_of r := (normalize <$> to_datetime_utc (date r)).

(** The rows that take part in the pivot, each with its day. *)
Local Abbreviation keyed df :=
  (omap (fun dr : option Z * observation =>
           match dr.1 with Some d => Some (d, dr.2) | None => None end)
        (map (fun r => (day_of r, r)) df)).


Lemma keyed_days (df : list observation) (d : Z) :
  d ∈ (keyed df).*1 <-> exists r, r ∈ df /\ day_of r = Some d.
Proof.
  induction df as [|r df IH].
  - simpl. split; [inversion 1|intros (r & H & _); inversion H].
  - cbn [map omap list_omap]. cbn [fst snd].
    destruct (day_of r) as [d'|] eqn:Hd.
    + rewrite fmap_cons, elem_of_cons, IH. cbn [fst]. split.
      * intros [->|(s & Hs & Hsd)]; [exists r|exists s];
          (split; [|assumption]); [left|right; exact Hs].
      * intros (s & [->|Hs]%elem_of_cons & Hsd); [left; congruence|right; eauto].
    + rewrite IH. split.
      * intros (s & Hs & Hsd). exists s. split; [right; exact Hs|exact Hsd].
      * intros (s & [->|Hs]%elem_of_cons & Hsd); [congruence|eauto].
Qed.

(** The dates of the rows: each once, and exactly the days the merged records
    fall on. *)
Lemma daily_table_dates (frames : list (list observation)) :
  let t := daily_table to_datetime_utc frames in
  NoDup (rows t).*1
  /\ forall d, d ∈ (rows t).*1 <-> exists r, r ∈ concat frames /\ day_of r = Some d.
Proof.
  intros t. subst t. unfold daily_table.
  destruct frames as [|f frames'].
  { simpl. split; [constructor|].
    intros d. split; [inversion 1|]. intros (r & H & _). inversion H. }
  set (merged := concat (f :: frames')).
  set (df := drop_duplicates same_observation merged).
  unfold pivot_table_first. cbn [rows].
  rewrite <- list_fmap_compose, list_fmap_id.
  destruct (drop_duplicates_from_spec Z.eqb Z.eqb_eq [] (map fst (keyed df)))
    as [Hnd Hin].
  split; [rewrite merge_sort_Permutation; exact Hnd|].
  intros d. rewrite merge_sort_Permutation.
  unfold drop_duplicates. rewrite Hin.
  change (map fst (keyed df)) with (keyed df).*1. rewrite keyed_days.
  assert (Hsame : forall r s, same_observation r s = true ->
                              day_of r = Some d -> day_of s = Some d).
  { intros r s [Hdate _]%same_observation_key. rewrite Hdate. auto. }
  pose proof (drop_duplicates_first same_observation
                (fun r => day_of r = Some d) merged Hsame) as Hhead.
  fold df in Hhead.
  rewrite <- !(head_filter_is_Some (fun r => day_of r = Some d)), Hhead.
  split; [tauto|]. intros H. split; [exact H|]. inversion 1.
Qed.


(** The date of a row is the midnight of a day, and no two rows are of the
    same day. *)
Lemma daily_table_midnights (frames : list (list observation)) :
  let t := daily_table to_datetime_utc frames in
  (forall d, d ∈ (rows t).*1 -> d = date_of d * ns_per_day)
  /\ NoDup (date_of <$> (rows t).*1).
Proof.
  intros t. destruct (daily_table_dates frames) as [Hnd Hdays]. fold t in Hnd, Hdays.
  assert (Hday : forall d, d ∈ (rows t).*1 -> d = date_of d * ns_per_day).
  { intros d Hd. apply Hdays in Hd as (o & _ & Ho).
    destruct (to_datetime_utc (date o)) as [ts|]; [|discriminate Ho].
    injection Ho as Ho. rewrite <- Ho. unfold date_of, normalize.
    rewrite Z.div_mul by (unfold ns_per_day; lia). reflexivity. }
  split; [exact Hday|].
  apply NoDup_fmap_2_strong; [|exact Hnd].
  intros d1 d2 H1 H2 Heq. rewrite (Hday d1 H1), (Hday d2 H2), Heq. reflexivity.
Qed.



End Reshape.

(** What [fetch_daily_chunked] returns is the table of the frames its loop
    collected. *)
Lemma fetch_daily_chunked_table (to_datetime_utc : string -> option Z)
    (fuel : nat) (net : nat -> attempt observation) (stationid : string)
    (start end_ : Z) (token : string) (datatypes : list string)
    (chunk_days limit : Z) (w w' : world) (t : table) :
  fetch_daily_chunked to_datetime_utc fuel net stationid start end_ token
                      datatypes chunk_days limit w = Some (Return t, w') ->
  exists frames,
    fetch_chunks fuel net stationid token datatypes chunk_days limit end_ start
                 ([], w) = Some (Return frames, w')
    /\ t = daily_table to_datetime_utc frames.
Proof.
  unfold fetch_daily_chunked, to_timestamp.
  destruct (in_bounds (start * ns_per_day)); [|discriminate].
  destruct (in_bounds (end_ * ns_per_day)); [|discriminate].
  destruct (fetch_chunks _ _ _ _ _ _ _ _ _ _) as [[[frames|e] w1]|]; try discriminate.
  intros [= <- <-]. exists frames. split; reflexivity.
Qed.

(** ** The enrichment join *)

Section MergeLeft.
Context {L R : Type}.
Variables (left_on : L -> option Z) (right_on : R -> option Z).

(** With one right row per key at most, a key selects no row or one. *)
Lemma filter_unique_key (right : list R) (k : option Z) :
  NoDup (right_on <$> right) ->
  filter (fun r => right_on r = k) right
  = match head (filter (fun r => right_on r = k) right) with
    | Some r => [r]
    | None => []
    end.
Proof.
  induction right as [|r right IH]; [reflexivity|].
  rewrite fmap_cons. intros [Hr Hnd]%NoDup_cons. specialize (IH Hnd).
  destruct (decide (right_on r = k)) as [Hk|Hk].
  - rewrite filter_cons_True by exact Hk. simpl. f_equal.
    destruct (filter (fun r0 => right_on r0 = k) right) as [|s rest] eqn:Hf;
      [reflexivity|].
    exfalso. apply Hr.
    assert (Hs : s ∈ filter (fun r0 => right_on r0 = k) right)
      by (rewrite Hf; left).
    apply list_elem_of_filter in Hs as [Hsk Hs].
    rewrite Hk, <- Hsk. apply list_elem_of_fmap_2, Hs.
  - rewrite filter_cons_False by exact Hk. exact IH.
Qed.

Lemma merge_left_unique_key (left : list L) (right : list R) :
  NoDup (right_on <$> right) ->
  merge_left left_on right_on left right
  = map (fun l => (l, head (filter (fun r => right_on r = left_on l) right))) left.
Proof.
  intros Hnd. induction left as [|l left IH]; [reflexivity|].
  change (merge_left left_on right_on (l :: left) right)
    with (match filter (fun r => right_on r = left_on l) right with
          | [] => [(l, None)]
          | matches => map (fun r => (l, Some r)) matches
          end ++ merge_left left_on right_on left right).
  rewrite IH. cbn [map].
  pose proof (filter_unique_key right (left_on l) Hnd) as Hone.
  destruct (head (filter (fun r => right_on r = left_on l) right));
    rewrite Hone; reflexivity.
Qed.

End MergeLeft.

(** C3: when the daily table has one row per calendar date at most, the join
    returns as many rows as there are events, the i-th for the i-th event; an
    event whose date matches a daily row carries that row, and an event whose
    date matches none keeps its row with the observation columns empty. *)
Theorem join_events_keeps_every_event
    (to_datetime_utc : string -> option Z)
    (events : list event_row) (daily : table) :
  NoDup (noaa_date <$> rows daily) ->
  let joined := join_events to_datetime_utc events daily in
  length joined = length events
  /\ forall i e, events !! i = Some e ->
       exists obs,
         joined !! i = Some (e, obs)
         /\ (forall r, obs = Some r ->
               r ∈ rows daily /\ noaa_date r = event_date to_datetime_utc e)
         /\ ((forall r, r ∈ rows daily ->
                noaa_date r <> event_date to_datetime_utc e) -> obs = None).
Proof.
  intros Hnd joined. subst joined. unfold join_events.
  rewrite (merge_left_unique_key _ _ _ _ Hnd). split; [apply length_map|].
  intros i e He.
  set (found := head (filter (fun r => noaa_date r = event_date to_datetime_utc e)
                             (rows daily))).
  exists found. split; [|split].
  - change (map ?f events) with (f <$> events).
    rewrite list_lookup_fmap, He. reflexivity.
  - intros r Hr. subst found. apply head_Some_elem_of in Hr.
    apply list_elem_of_filter in Hr. tauto.
  - intros Hnone. subst found.
    destruct (head _) as [r|] eqn:Hr; [|reflexivity].
    apply head_Some_elem_of, list_elem_of_filter in Hr as [Hk Hin].
    destruct (Hnone r Hin Hk).
Qed.

(** The table of [fetch_daily_chunked] has one row per calendar date. *)
Lemma daily_table_one_row_per_day
    (to_datetime_utc : string -> option Z) (frames : list (list observation)) :
  NoDup (noaa_date <$> rows (daily_table to_datetime_utc frames)).
Proof.
  destruct (daily_table_midnights to_datetime_utc frames) as [_ Hnd].
  change (noaa_date <$> rows (daily_table to_datetime_utc frames))
    with (Some ∘ (date_of ∘ fst) <$> rows (daily_table to_datetime_utc frames)).
  rewrite (list_fmap_compose (date_of ∘ fst) Some).
  apply (NoDup_fmap_2 Some).
  rewrite (list_fmap_compose fst date_of). exact Hnd.
Qed.

Lemma join_events_keeps_every_event_witness :
  let daily := daily_table sample_to_datetime sample_frames in
  let joined := join_events sample_to_datetime sample_events daily in
  length joined = length sample_events
  /\ forall i e, sample_events !! i = Some e ->
       exists obs,
         joined !! i = Some (e, obs)
         /\ (forall r, obs = Some r ->
               r ∈ rows daily /\ noaa_date r = event_date sample_to_datetime e)
         /\ ((forall r, r ∈ rows daily ->
                noaa_date r <> event_date sample_to_datetime e) -> obs = None).
Proof.
  apply (join_events_keeps_every_event sample_to_datetime sample_events
           (daily_table sample_to_datetime sample_frames)).
  vm_compute. apply NoDup_singleton.
Defined.

(** ** Worked examples *)

(** Overlapping chunks: the repeated record is dropped, and the later TMAX of
    the same day does not replace the first. *)
Example daily_table_sample :
  daily_table sample_to_datetime sample_frames
  = {| columns := ["TMAX"; "TMIN"];
       rows := [(1672531200000000000, [Some (55 # 1); Some (40 # 1)])] |}.
Proof. vm_compute. reflexivity. Qed.

(** Events of 2023-01-01 and 2023-01-03 against observations of 2023-01-01
    only: two rows, the second with empty observation columns. *)
Example join_events_sample :
  join_events sample_to_datetime sample_events
              (daily_table sample_to_datetime sample_frames)
  = [(EventRow (Some (34 # 1)) (Some (-118 # 1)) (Some "2023-01-01T12:00:00") None "fire",
      Some (1672531200000000000, [Some (55 # 1); Some (40 # 1)]));
     (EventRow (Some (35 # 1)) (Some (-119 # 1)) (Some "2023-01-01T00:00:00")
               (Some "2023-01-03T08:15:00") "smoke",
      None)].
Proof. vm_compute. reflexivity. Qed.

(** Three chunks, the second timing out on its three GETs: the table holds
    the data of the first and the third, and the second is logged. *)
Example fetch_daily_chunked_skips_failed_chunk :
  let url := "https://www.ncei.noaa.gov/cdo-web/api/v2/data" in
  let p := fun a b => DataParams "GHCND" "GHCND:USW00023234" a b "standard" 1000
                                 ["TMAX"; "TMIN"] in
  fetch_daily_chunked sample_to_datetime 4 sample_net "GHCND:USW00023234"
                      19357 19436 "token" ["TMAX"; "TMIN"] 30 1000
                      {| gets := 0; trace := [] |}
  = Some (Return {| columns := ["TMAX"; "TMIN"];
                    rows := [(1672531200000000000, [Some (55 # 1); Some (40 # 1)])] |},
          {| gets := 5;
             trace := [EvGet url (Some "token") (p 19357 19386);
                       EvGet url (Some "token") (p 19387 19416);
                       EvSleep (2 # 1);
                       EvGet url (Some "token") (p 19387 19416);
                       EvSleep (4 # 1);
                       EvGet url (Some "token") (p 19387 19416);
                       EvWarnChunk 19387 19416 ReadTimeout;
                       EvGet url (Some "token") (p 19417 19436)] |}).
Proof. vm_compute. reflexivity. Qed.

(** Two GETs fail and are retried after 2 and 4 seconds; the third one
    answers. *)
Example ncei_request_retries_sample :
  let url := "https://www.ncei.noaa.gov/cdo-web/api/v2/data" in
  let p := DataParams "GHCND" "GHCND:USW00023234" 19357 19386 "standard" 1000
                      ["TMAX"] in
  ncei_request sample_flaky_net "data" p "token" {| gets := 0; trace := [] |}
  = (Return (JDict (Some [sample_tmax])),
     {| gets := 3;
        trace := [EvGet url (Some "token") p; EvSleep (2 # 1);
                  EvGet url (Some "token") p; EvSleep (4 # 1);
                  EvGet url (Some "token") p] |}).
Proof. vm_compute. reflexivity. Qed.

(** Of two stations at the least distance, the first in the answer wins. *)
Example find_nearest_station_sample :
  (find_nearest_station small_angle_libm sample_stations
     34 (-118) 19357 19436 "token" "GHCND" 50 {| gets := 0; trace := [] |}).1
  = Return (Some {| best := Station (Some "GHCND:B") "north"
                                    (Some 35%float) (Some (-118)%float);
                    dist_km := 0x1.bcc79ad9adfecp+6 |}).
Proof. vm_compute. reflexivity. Qed.

(** At the end of the range of [Timestamp] the first addition of line 82
    raises, before any request. *)
Example fetch_daily_chunked_out_of_bounds :
  fetch_daily_chunked sample_to_datetime 4 sample_net "GHCND:USW00023234"
                      106750 106751 "token" ["TMAX"; "TMIN"] 30 1000
                      {| gets := 0; trace := [] |}
  = Some (Raise (OtherError "OutOfBoundsDatetime"), {| gets := 0; trace := [] |}).
Proof. vm_compute. reflexivity. Qed.

(** A node and a way (which has only a center) both get coordinates. *)
Example row_of_element_sample :
  map row_of_element
      [Element "node" 1 (Some "Station 12") (Some "fire_station")
               (Some (34 # 1)) (Some (-118 # 1)) None;
       Element "way" 7 None (Some "hospital") None None
               (Some (341 # 10, -1181 # 10))]
  = [AmenityRow "node:1" "Station 12" "fire_station"
                (Some (34 # 1)) (Some (-118 # 1)) None;
     AmenityRow "way:7" "" "hospital" (Some (341 # 10)) (Some (-1181 # 10)) None].
Proof. vm_compute. reflexivity. Qed.

(** ** The per-perimeter loop of the amenity script *)

Lemma paced_from_app (b : bool) (l1 l2 : list event) :
  paced_from b (l1 ++ l2) = paced_from b l1 && paced_from (waited_after b l1) l2.
Proof.
  revert b. induction l1 as [|ev l1 IH]; intros b; [reflexivity|].
  destruct ev; simpl; rewrite IH; try reflexivity.
  rewrite andb_assoc. reflexivity.
Qed.

Lemma waited_after_app (b : bool) (l1 l2 : list event) :
  waited_after b (l1 ++ l2) = waited_after (waited_after b l1) l2.
Proof.
  revert b. induction l1 as [|ev l1 IH]; intros b; [reflexivity|].
  destruct ev; simpl; rewrite IH; reflexivity.
Qed.

Section PerimeterLoop.
Variable net : nat -> attempt element.
Variables (amenities : list string) (radius_m : Z).

(** A query is one GET, whatever comes back. *)
Lemma query_overpass_world (lat lon : Q) (w : world) :
  (query_overpass net amenities lat lon radius_m w).2
  = {| gets := S (gets w);
       trace := trace w ++ [EvGet OVERPASS None
                                  (OverpassParams amenities lat lon radius_m)] |}.
Proof.
  unfold query_overpass, mbind, M_bind, session_get.
  destruct (net (gets w)) as [e|r]; [reflexivity|].
  unfold raise_for_status.
  destruct ((400 <=? status_code r) && (status_code r <? 600)); [reflexivity|].
  unfold response_json. cbn. destruct (body r) as [[items|]|]; reflexivity.
Qed.

(** After a query that raises, the loop goes straight to the next GET: a
    warning is all that separates the two. *)
Lemma query_perimeters_after_failure
    (pid1 pid2 : Z) (lat1 lon1 lat2 lon2 : Q) (rest : list (Z * Q * Q))
    (all_rows : list amenity_row) (w : world) (e : exn) :
  (query_overpass net amenities lat1 lon1 radius_m w).1 = Raise e ->
  exists later,
    trace (query_perimeters net amenities radius_m
             ((pid1, lat1, lon1) :: (pid2, lat2, lon2) :: rest) all_rows w).2
    = trace w
      ++ [EvGet OVERPASS None (OverpassParams amenities lat1 lon1 radius_m);
          EvWarnPerimeter pid1 e;
          EvGet OVERPASS None (OverpassParams amenities lat2 lon2 radius_m)]
      ++ later.
Proof.
  intros Hfail.
  assert (Hext : forall cs rows w0, exists later,
            trace (query_perimeters net amenities radius_m cs rows w0).2
            = trace w0 ++ later).
  { induction cs as [|[[pid lat] lon] cs IH]; intros rows w0.
    - exists []. simpl. rewrite app_nil_r. reflexivity.
    - simpl. pose proof (query_overpass_world lat lon w0) as Hw.
      destruct (query_overpass net amenities lat lon radius_m w0) as [[rs|e'] w1];
        cbn [snd] in Hw; subst w1;
        match goal with
        | |- context [query_perimeters net amenities radius_m cs ?r ?w'] =>
            destruct (IH r w') as [later Hlater]; rewrite Hlater
        end;
        cbn [trace log]; rewrite <- !app_assoc; eexists; reflexivity. }
  cbn [query_perimeters].
  pose proof (query_overpass_world lat1 lon1 w) as Hw1.
  destruct (query_overpass net amenities lat1 lon1 radius_m w) as [[rs|e1] w1];
    cbn [fst snd] in *; [discriminate Hfail|].
  injection Hfail as ->. subst w1.
  set (w2 := log (EvWarnPerimeter pid1 e) _).
  pose proof (query_overpass_world lat2 lon2 w2) as Hw2.
  destruct (query_overpass net amenities lat2 lon2 radius_m w2) as [[rs|e2] w3];
    cbn [snd] in Hw2; subst w3;
    match goal with
    | |- context [query_perimeters net amenities radius_m rest ?r ?w'] =>
        destruct (Hext rest r w') as [later Hlater]; rewrite Hlater
    end;
    subst w2; cbn [trace log gets]; rewrite <- !app_assoc; eexists; reflexivity.
Qed.

(** While every query returns, the queries are paced. *)
Lemma query_perimeters_paced_on_success
    (centroids : list (Z * Q * Q)) (all_rows : list amenity_row) (w : world) :
  (forall lat lon w0, exists rows,
      (query_overpass net amenities lat lon radius_m w0).1 = Return rows) ->
  paced (trace w) = true ->
  waited_after true (trace w) = true ->
  let out := query_perimeters net amenities radius_m centroids all_rows w in
  paced (trace out.2) = true /\ waited_after true (trace out.2) = true.
Proof.
  intros Hok. revert all_rows w.
  induction centroids as [|[[pid lat] lon] cs IH]; intros all_rows w Hp Hw;
    [split; assumption|].
  cbn [query_perimeters].
  destruct (Hok lat lon w) as [rows Hrows].
  pose proof (query_overpass_world lat lon w) as Hworld.
  destruct (query_overpass net amenities lat lon radius_m w) as [[rs|e] w1];
    cbn [fst snd] in *; [|discriminate Hrows].
  subst w1. apply IH; cbn [trace log]; unfold paced in *.
  - rewrite !paced_from_app, Hp, Hw, waited_after_app, Hw. reflexivity.
  - rewrite !waited_after_app, Hw. reflexivity.
Qed.

End PerimeterLoop.

(** C9 does not hold of the code: with two perimeters and a first query that
    Overpass refuses, the second GET follows the first with nothing but the
    warning in between; the only sleep comes after the second query. *)
Theorem query_perimeters_unpaced_after_failure :
  let out := query_perimeters sample_overpass
               ["fire_station"; "hospital"; "police"; "school"] 5000
               sample_centroids [] {| gets := 0; trace := [] |} in
  let q := fun lat lon =>
    EvGet OVERPASS None
      (OverpassParams ["fire_station"; "hospital"; "police"; "school"] lat lon 5000) in
  trace out.2 = [q (34 # 1) (-118 # 1); EvWarnPerimeter 1 HTTPError;
                 q (35 # 1) (-119 # 1); EvSleep (12 # 10)]
  /\ paced (trace out.2) = false.
Proof. vm_compute. split; reflexivity. Qed.

(** * Further properties *)

(** ** strip_srid: errors and what is returned *)

Lemma cut_at_first_Some sep s a b :
  cut_at_first sep s = Some (a, b) ->
  s = (a ++ String sep b)%string /\ cut_at_first sep a = None.
Proof.
  revert a b. induction s as [|c s IH]; intros a b; simpl; [discriminate|].
  destruct (Ascii.eqb c sep) eqn:Hc.
  - intros [= <- <-]. apply Ascii.eqb_eq in Hc as ->. split; reflexivity.
  - destruct (cut_at_first sep s) as [[a' b']|]; [|discriminate].
    intros [= <- <-]. destruct (IH a' b' eq_refl) as [-> Ha'].
    split; [reflexivity|]. simpl. rewrite Hc, Ha'. reflexivity.
Qed.

Lemma prefix_before_separator sep p a b :
  cut_at_first sep p = None ->
  String.prefix p (a ++ String sep b) = true ->
  String.prefix p a = true.
Proof.
  revert a. induction p as [|c p IH]; intros a; [destruct a; reflexivity|].
  simpl. destruct (Ascii.eqb c sep) eqn:Hc; [discriminate|].
  destruct (cut_at_first sep p) as [[]|] eqn:Hp; [discriminate|]. intros _.
  destruct a as [|c' a]; simpl.
  - destruct (ascii_dec c sep) as [->|]; [|discriminate].
    rewrite Ascii.eqb_refl in Hc. discriminate.
  - destruct (ascii_dec c c'); [apply IH; reflexivity|discriminate].
Qed.

(** X1: [strip_srid] raises exactly on a string that begins with ["SRID="]
    and holds no [";"], and what it raises is [IndexError]; a value that is
    not a string never makes it raise. *)
Theorem strip_srid_raises_iff (geom : pyobj) (e : exn) :
  strip_srid geom = Raise e <->
  e = IndexError
  /\ exists g, geom = Str g /\ startswith g "SRID=" = true
               /\ cut_at_first ";" g = None.
Proof.
  destruct geom as [g|repr]; simpl.
  - unfold split1. destruct (startswith g "SRID=") eqn:Hp.
    + destruct (cut_at_first ";" g) as [[a b]|] eqn:Hc; simpl.
      * split; [discriminate|]. intros (_ & g' & [= <-] & _ & Hn). congruence.
      * split.
        -- intros [= <-]. split; [reflexivity|]. exists g. auto.
        -- intros (-> & _). reflexivity.
    + split; [discriminate|]. intros (_ & g' & [= <-] & Hp' & _). congruence.
  - split; [discriminate|]. intros (_ & g & Hg & _). discriminate Hg.
Qed.

(** X2: when [strip_srid] returns a string [w] for a string [g], either [g]
    has no prefix and [w] is [g], or [g] is [head ++ ";" ++ w] where [head]
    begins with ["SRID="] and holds no [";"]: nothing after the first [";"] is
    lost or changed. *)
Theorem strip_srid_returns_iff (g w : string) :
  strip_srid (Str g) = Return (Str w) <->
  (startswith g "SRID=" = false /\ w = g)
  \/ (exists head, g = (head ++ ";" ++ w)%string
                   /\ startswith head "SRID=" = true
                   /\ cut_at_first ";" head = None).
Proof.
  split.
  - unfold strip_srid, split1. destruct (startswith g "SRID=") eqn:Hp.
    + destruct (cut_at_first ";" g) as [[a b]|] eqn:Hc; simpl; [|discriminate].
      intros [= <-]. right. exists a.
      destruct (cut_at_first_Some _ _ _ _ Hc) as [Hg Ha].
      split; [exact Hg|]. split; [|exact Ha].
      unfold startswith in *. rewrite Hg in Hp.
      apply (prefix_before_separator ";" "SRID=" a b); [reflexivity|exact Hp].
    + intros [= <-]. left. auto.
  - intros [[Hp ->]|(head & -> & Hp & Hc)].
    + apply strip_srid_without_prefix, Hp.
    + assert (Hcut : cut_at_first ";" (head ++ ";" ++ w) = Some (head, w))
        by (apply cut_at_first_app, Hc).
      assert (Hpre : startswith (head ++ ";" ++ w) "SRID=" = true).
      { unfold startswith in *. revert Hp. generalize (";" ++ w)%string.
        generalize "SRID="%string. clear. intros p s.
        revert head. induction p as [|c p IH]; intros [|c' head]; simpl;
          try discriminate; try (destruct s; reflexivity); try reflexivity.
        destruct (ascii_dec c c'); [apply IH|discriminate]. }
      unfold strip_srid, split1. rewrite Hpre, Hcut. reflexivity.
Qed.

(** ** ncei_request: every way out *)

(** X3: [ncei_request] returns a body only as the decoded body of a response
    whose status is outside 400-599, and that of the attempt that ends the
    call.  An exception that leaves it is the [RuntimeError] of a 4xx/5xx
    response, [JSONDecodeError] for a passing response whose body does not
    decode, or whatever the last GET raised; the [HTTPError] of
    [raise_for_status] never gets out. *)
Theorem ncei_request_outcome {A : Type} (net : nat -> attempt A)
    (path : string) (p : params) (token : string) (w : world) :
  let retries :=
    Nat.min (failed_attempts net (gets w) (manual_retries + 1)) manual_retries in
  let last := net (gets w + retries)%nat in
  match (ncei_request net path p token w).1 with
  | Return js =>
      exists r, last = Responds r /\ ~ (400 <= status_code r < 600)
                /\ body r = Some js
  | Raise e =>
      e <> HTTPError
      /\ ((exists r, last = Responds r /\ 400 <= status_code r < 600
                     /\ e = RuntimeError (ncei_http_message r))
          \/ (exists r, last = Responds r /\ ~ (400 <= status_code r < 600)
                        /\ body r = None /\ e = JSONDecodeError)
          \/ (exists ne, last = Fails ne /\ e = exn_of ne))
  end.
Proof.
  intros retries last.
  pose proof (ncei_request_unfold net path p token w) as Hout.
  cbv zeta in Hout. fold retries in Hout. fold last in Hout.
  rewrite Hout. cbn [fst]. clear Hout.
  destruct last as [ne|r]; cbn [settled].
  - split; [destruct ne; discriminate|]. right. right. exists ne. auto.
  - destruct ((400 <=? status_code r) && (status_code r <? 600)) eqn:Hs.
    + apply andb_true_iff in Hs as [H1%Z.leb_le H2%Z.ltb_lt].
      split; [discriminate|]. left. exists r. repeat split; assumption.
    + apply andb_false_iff in Hs. rewrite Z.leb_gt, Z.ltb_ge in Hs.
      destruct (body r) as [js|] eqn:Hb.
      * exists r. repeat split; [lia|exact Hb].
      * split; [discriminate|]. right. left. exists r.
        repeat split; [lia|exact Hb].
Qed.

(** ** find_nearest_station: the order of the answer *)

(** X4: the distance [find_nearest_station] reports does not depend on the
    order in which the API lists the stations: for two answers that list the
    same stations in any order, the distance of each station being a number
    (its computation returns, and not NaN), the call returns no station both
    times, or nearest stations at equal distances (which of several equally
    near stations is returned may differ). *)
Theorem find_nearest_station_order_independent (m : libm)
    (net1 net2 : nat -> attempt station)
    (lat lon : float) (start end_ : Z) (token datasetid : string) (km : float)
    (w1 w2 : world) (minlon minlat maxlon maxlat : float)
    (results1 results2 : list station) :
  let p := StationsParams datasetid (minlat, minlon, maxlat, maxlon) start end_ 1000 in
  bbox_from_point m lat lon km = Return (minlon, minlat, maxlon, maxlat) ->
  (ncei_request net1 "stations" p token w1).1 = Return (JDict (Some results1)) ->
  (ncei_request net2 "stations" p token w2).1 = Return (JDict (Some results2)) ->
  results1 ≡ₚ results2 ->
  (forall s, s ∈ results1 ->
     exists k, station_distance m lat lon s = Return k /\ is_nan k = false) ->
  match (find_nearest_station m net1 lat lon start end_ token datasetid km w1).1,
        (find_nearest_station m net2 lat lon start end_ token datasetid km w2).1 with
  | Return None, Return None => results1 = []
  | Return (Some a), Return (Some b) => (dist_km a =? dist_km b)%float = true
  | _, _ => False
  end.
Proof.
  intros p Hbox. subst p. rewrite !find_nearest_station_unfold, Hbox.
  destruct (ncei_request net1 "stations" _ token w1) as [[js1|e1] w1'];
    cbn [fst]; [|discriminate].
  destruct (ncei_request net2 "stations" _ token w2) as [[js2|e2] w2'];
    cbn [fst]; [|discriminate].
  intros [= ->] [= ->] Hperm Hall1. cbn [items_of].
  assert (Hall2 : forall s, s ∈ results2 ->
            exists k, station_distance m lat lon s = Return k /\ is_nan k = false).
  { intros s Hs. apply Hall1. rewrite Hperm. exact Hs. }
  destruct results1 as [|x xs], results2 as [|y ys].
  - reflexivity.
  - apply Permutation_nil_l in Hperm. discriminate Hperm.
  - symmetry in Hperm. apply Permutation_nil_l in Hperm. discriminate Hperm.
  - destruct (nearest_of_least m lat lon (x :: xs) ltac:(discriminate) Hall1)
      as (i1 & b1 & d1 & Hi1 & Hd1 & -> & Hmin1 & _).
    destruct (nearest_of_least m lat lon (y :: ys) ltac:(discriminate) Hall2)
      as (i2 & b2 & d2 & Hi2 & Hd2 & -> & Hmin2 & _).
    cbn [dist_km].
    apply list_elem_of_lookup_2 in Hi1, Hi2.
    destruct (Hall1 b1 Hi1) as (k1 & Hk1 & Hn1).
    destruct (Hall2 b2 Hi2) as (k2 & Hk2 & Hn2).
    rewrite Hd1 in Hk1. injection Hk1 as <-.
    rewrite Hd2 in Hk2. injection Hk2 as <-.
    apply float_leb_antisym; [assumption..| |].
    + apply (Hmin1 b2); [rewrite Hperm; exact Hi2|exact Hd2].
    + apply (Hmin2 b1); [rewrite <- Hperm; exact Hi1|exact Hd1].
Qed.

Lemma find_nearest_station_order_independent_witness :
  match (find_nearest_station small_angle_libm sample_stations
           34 (-118) 19357 19436 "token" "GHCND" 50
           {| gets := 0; trace := [] |}).1,
        (find_nearest_station small_angle_libm sample_stations_reordered
           34 (-118) 19357 19436 "token" "GHCND" 50
           {| gets := 0; trace := [] |}).1 with
  | Return None, Return None => False
  | Return (Some a), Return (Some b) => (dist_km a =? dist_km b)%float = true
  | _, _ => False
  end.
Proof.
  pose (stations := [Station (Some "GHCND:A") "far" (Some 36%float) (Some (-118)%float);
                     Station (Some "GHCND:B") "north" (Some 35%float) (Some (-118)%float);
                     Station (Some "GHCND:C") "west" (Some 34%float) (Some (-119)%float)]).
  pose (reordered := [Station (Some "GHCND:C") "west" (Some 34%float) (Some (-119)%float);
                      Station (Some "GHCND:A") "far" (Some 36%float) (Some (-118)%float);
                      Station (Some "GHCND:B") "north" (Some 35%float) (Some (-118)%float)]).
  destruct (bbox_from_point small_angle_libm 34 (-118) 50)
    as [[[[minlon minlat] maxlon] maxlat]|e] eqn:Hbox;
    [|vm_compute in Hbox; discriminate Hbox].
  assert (Hperm : stations ≡ₚ reordered).
  { symmetry. apply (Permutation_cons_append
                       [Station (Some "GHCND:A") "far" (Some 36%float) (Some (-118)%float);
                        Station (Some "GHCND:B") "north" (Some 35%float)
                                (Some (-118)%float)]). }
  assert (Hkeys : forall s, s ∈ stations ->
            exists k, station_distance small_angle_libm 34 (-118) s = Return k
                      /\ is_nan k = false).
  { intros s Hs. subst stations. rewrite !elem_of_cons in Hs.
    destruct Hs as [->|[->|[->|Hs]]]; [| | |inversion Hs];
      eexists; (split; [vm_compute; reflexivity|reflexivity]). }
  pose proof (find_nearest_station_order_independent small_angle_libm
                sample_stations sample_stations_reordered
                34 (-118) 19357 19436 "token" "GHCND" 50
                {| gets := 0; trace := [] |} {| gets := 0; trace := [] |}
                minlon minlat maxlon maxlat stations reordered
                Hbox eq_refl eq_refl Hperm Hkeys) as H.
  destruct (find_nearest_station small_angle_libm sample_stations
              34 (-118) 19357 19436 "token" "GHCND" 50 {| gets := 0; trace := [] |}).1
    as [[a|]|e];
    destruct (find_nearest_station small_angle_libm sample_stations_reordered
                34 (-118) 19357 19436 "token" "GHCND" 50
                {| gets := 0; trace := [] |}).1 as [[b|]|e']; try exact H.
  discriminate H.
Defined.

(** ** fetch_daily_chunked: more about the table *)

#[local] Instance string_le_total : Total string_le.
Proof.
  intros a b. unfold string_le.
  destruct (String.leb_total a b) as [H|H]; rewrite H; [left|right]; exact I.
Qed.

Lemma StronglySorted_le_NoDup (l : list Z) :
  StronglySorted Z.le l -> NoDup l -> StronglySorted Z.lt l.
Proof.
  induction 1 as [|x l Hl IH Hx]; intros Hnd; [constructor|].
  apply NoDup_cons in Hnd as [Hnotin Hnd].
  constructor; [apply IH, Hnd|].
  rewrite Forall_forall in *. intros y Hy.
  specialize (Hx y Hy). assert (x <> y) by (intros ->; contradiction). lia.
Qed.

(** X5: the rows of the table come in strictly increasing date order and
    its columns in the order of their names, whatever the order of the
    records in the chunk answers. *)
Theorem daily_table_sorted (to_datetime_utc : string -> option Z)
    (frames : list (list observation)) :
  let t := daily_table to_datetime_utc frames in
  StronglySorted Z.lt (rows t).*1 /\ Sorted string_le (columns t).
Proof.
  intros t.
  destruct (daily_table_dates to_datetime_utc frames) as [Hnd _]. fold t in Hnd.
  split.
  - apply StronglySorted_le_NoDup; [|exact Hnd].
    apply Sorted_StronglySorted; [intros x y z; apply Z.le_trans|].
    subst t. unfold daily_table. destruct frames as [|f frames']; [constructor|].
    unfold pivot_table_first. cbn [rows].
    rewrite <- list_fmap_compose, list_fmap_id.
    apply Sorted_merge_sort, _.
  - subst t. unfold daily_table. destruct frames as [|f frames']; [constructor|].
    unfold pivot_table_first. cbn [columns].
    apply Sorted_merge_sort, _.
Qed.

Lemma same_observation_refl r : same_observation r r = true.
Proof.
  unfold same_observation. rewrite !bool_decide_eq_true_2 by reflexivity.
  simpl. apply Qeq_bool_iff. reflexivity.
Qed.

Lemma same_observation_trans r s t :
  same_observation r s = true -> same_observation s t = true ->
  same_observation r t = true.
Proof.
  unfold same_observation.
  rewrite !andb_true_iff, !bool_decide_eq_true, !Qeq_bool_iff.
  intros ((((-> & ->) & ->) & ->) & Hv) ((((-> & ->) & ->) & ->) & Hv').
  repeat split. rewrite Hv. exact Hv'.
Qed.

Section DropDuplicatesAgain.
Context {X : Type}.
Variable same : X -> X -> bool.
Hypothesis same_refl : forall x, same x x = true.
Hypothesis same_trans : forall x y z, same x y = true -> same y z = true -> same x z = true.

Lemma drop_duplicates_from_app (seen l l' : list X) :
  drop_duplicates_from same seen (l ++ l')
  = drop_duplicates_from same seen l
    ++ drop_duplicates_from same (rev (drop_duplicates_from same seen l) ++ seen) l'.
Proof.
  revert seen. induction l as [|r l IH]; intros seen; [reflexivity|].
  simpl. destruct (existsb (same r) seen); [apply IH|].
  rewrite IH. simpl. rewrite <- app_assoc. reflexivity.
Qed.

Lemma drop_duplicates_from_covered (seen l : list X) :
  (forall r, r ∈ l -> existsb (same r) seen = true) ->
  drop_duplicates_from same seen l = [].
Proof.
  induction l as [|r l IH]; intros Hall; [reflexivity|].
  simpl. rewrite (Hall r) by left. apply IH. intros s Hs. apply Hall. right. exact Hs.
Qed.

(** Every row scanned has a row like it among those kept or seen before. *)
Lemma drop_duplicates_from_represents (seen l : list X) (x : X) :
  x ∈ l ->
  existsb (same x) (rev (drop_duplicates_from same seen l) ++ seen) = true.
Proof.
  revert seen. induction l as [|r l IH]; intros seen; [inversion 1|].
  intros [->|Hx]%elem_of_cons; simpl.
  - destruct (existsb (same r) seen) eqn:Hex.
    + apply existsb_same_true in Hex as (s & Hs & Hrs).
      apply existsb_same_true. exists s. split; [|exact Hrs].
      apply elem_of_app. right. exact Hs.
    + apply existsb_same_true. exists r. split; [|apply same_refl].
      simpl. rewrite <- app_assoc. apply elem_of_app. right. left.
  - destruct (existsb (same r) seen); [apply IH, Hx|].
    simpl. rewrite <- app_assoc. apply (IH (r :: seen) Hx).
Qed.

Lemma drop_duplicates_app_covered (l l' : list X) :
  (forall r, r ∈ l' -> exists r', r' ∈ l /\ same r r' = true) ->
  drop_duplicates same (l ++ l') = drop_duplicates same l.
Proof.
  intros Hall. unfold drop_duplicates.
  rewrite (drop_duplicates_from_app [] l l').
  rewrite (drop_duplicates_from_covered
             (rev (drop_duplicates_from same [] l) ++ []) l');
    [apply app_nil_r|].
  intros r Hr. destruct (Hall r Hr) as (r' & Hr' & Hsame).
  pose proof (drop_duplicates_from_represents [] l r' Hr') as Hrep.
  apply existsb_same_true in Hrep as (y & Hy & Hr'y).
  apply existsb_same_true. exists y. split; [exact Hy|].
  eapply same_trans; eassumption.
Qed.

End DropDuplicatesAgain.

(** X6: fetching again what was already fetched changes nothing: a further
    frame whose records all repeat records of the frames before it (same
    date text, datatype, station, attributes and value) leaves the table as it
    was. *)
Theorem daily_table_ignores_repeated_frame (to_datetime_utc : string -> option Z)
    (frames : list (list observation)) (again : list observation) :
  frames <> [] ->
  (forall r, r ∈ again ->
     exists r', r' ∈ concat frames /\ same_observation r r' = true) ->
  daily_table to_datetime_utc (frames ++ [again]) = daily_table to_datetime_utc frames.
Proof.
  intros Hne Hall. unfold daily_table.
  destruct frames as [|f frames']; [congruence|].
  cbn [app]. rewrite app_comm_cons, concat_app. cbn [concat]. rewrite app_nil_r.
  change (f ++ concat frames') with (concat (f :: frames')).
  rewrite (drop_duplicates_app_covered same_observation same_observation_refl
             same_observation_trans _ _ Hall).
  reflexivity.
Qed.

Lemma daily_table_ignores_repeated_frame_witness :
  daily_table sample_to_datetime (sample_frames ++ [[sample_tmin; sample_tmax]])
  = daily_table sample_to_datetime sample_frames.
Proof.
  apply daily_table_ignores_repeated_frame; [discriminate|].
  intros r [->|[->|Hr]%elem_of_cons]%elem_of_cons.
  - exists sample_tmin. split; [|reflexivity]. right. left.
  - exists sample_tmax. split; [|reflexivity]. left.
  - inversion Hr.
Defined.

(** ** fetch_daily_chunked: failed chunks *)

Lemma warned_chunks_retry_trace url token p m :
  warned_chunks (retry_trace url token p m) = [].
Proof.
  unfold retry_trace, warned_chunks. rewrite omap_app. simpl.
  generalize 0%nat. induction m as [|m IH]; intros i; [reflexivity|].
  simpl. apply IH.
Qed.

Section FailedChunks.
Variable net : nat -> attempt observation.
Variables (stationid token : string) (datatypes : list string) (limit : Z).

Local Abbreviation body := (fetch_chunk net stationid token datatypes limit).

(** One chunk: a warning for its range and no frame, or no warning and one
    non-empty frame at most. *)
Lemma fetch_chunk_frame_or_warning (c : Z * Z) (st : list (list observation) * world) :
  ((body c st).1 = st.1
   /\ warned_chunks (trace (body c st).2) = warned_chunks (trace st.2) ++ [c])
  \/ (warned_chunks (trace (body c st).2) = warned_chunks (trace st.2)
      /\ ((body c st).1 = st.1
          \/ exists res, res <> [] /\ (body c st).1 = st.1 ++ [res])).
Proof.
  destruct c as [a b], st as [frames w]. unfold fetch_chunk.
  rewrite ncei_request_unfold. cbv zeta.
  set (m := Nat.min _ manual_retries).
  destruct (settled (net (gets w + m)%nat)) as [js|e];
    [destruct (items_of js) as [|r res] eqn:Hres|];
    cbn [fst snd gets trace log]; unfold warned_chunks;
    rewrite ?omap_app;
    fold (warned_chunks (trace w));
    match goal with
    | |- context [omap ?f (retry_trace ?u ?t ?p m)] =>
        change (omap f (retry_trace u t p m))
          with (warned_chunks (retry_trace u t p m))
    end;
    rewrite warned_chunks_retry_trace, ?app_nil_r.
  - right. split; [reflexivity|]. left. reflexivity.
  - right. split; [reflexivity|]. right. exists (r :: res). split; [discriminate|].
    reflexivity.
  - left. split; reflexivity.
Qed.

Lemma fetch_chunks_frames_and_warnings (cs : list (Z * Z)) :
  forall st,
    exists warned new_frames,
      warned_chunks (trace (foldl (fun st c => body c st) st cs).2)
      = warned_chunks (trace st.2) ++ warned
      /\ (foldl (fun st c => body c st) st cs).1 = st.1 ++ new_frames
      /\ warned `sublist_of` cs
      /\ (length new_frames + length warned <= length cs)%nat
      /\ Forall (fun res => res <> []) new_frames.
Proof.
  induction cs as [|c cs IH]; intros st.
  - exists [], []. simpl. rewrite !app_nil_r. repeat split; constructor.
  - cbn [foldl]. destruct (IH (body c st)) as (warned & new & Hw & Hf & Hsub & Hlen & Hne).
    destruct (fetch_chunk_frame_or_warning c st) as [[H1 H2]|[H2 [H1|(res & Hres & H1)]]].
    + exists (c :: warned), new. rewrite Hw, Hf, H1, H2, <- app_assoc.
      repeat split; [apply sublist_skip, Hsub|simpl; lia|exact Hne].
    + exists warned, new. rewrite Hw, Hf, H1, H2.
      repeat split; [apply sublist_cons, Hsub|simpl; lia|exact Hne].
    + exists warned, (res :: new). rewrite Hw, Hf, H1, H2, <- app_assoc.
      repeat split; [apply sublist_cons, Hsub|simpl; lia|].
      constructor; assumption.
Qed.

(** With the service down, a chunk costs three GETs and two sleeps, and is
    warned about. *)
Lemma fetch_chunk_all_fail (c : Z * Z) (st : list (list observation) * world) :
  (forall k, retryable_failure (net k) = true) ->
  (body c st).1 = st.1
  /\ gets (body c st).2 = (gets st.2 + 3)%nat
  /\ warned_chunks (trace (body c st).2) = warned_chunks (trace st.2) ++ [c]
  /\ sleeps (trace (body c st).2) = sleeps (trace st.2) ++ [2 # 1; 4 # 1].
Proof.
  intros Hdown. destruct c as [a b], st as [frames w]. unfold fetch_chunk.
  rewrite ncei_request_unfold. cbv zeta.
  assert (Hall : failed_attempts net (gets w) (manual_retries + 1) = 3%nat).
  { simpl. rewrite !Hdown. reflexivity. }
  rewrite Hall. change (Nat.min 3 manual_retries) with 2%nat.
  specialize (Hdown (gets w + 2)%nat).
  destruct (net (gets w + 2)%nat) as [ne|r]; [|discriminate Hdown].
  cbn [settled fst snd gets trace log].
  unfold warned_chunks, sleeps. rewrite !omap_app.
  fold (warned_chunks (trace w)) (sleeps (trace w)).
  split; [reflexivity|]. split; [reflexivity|].
  split; rewrite <- app_assoc; reflexivity.
Qed.

Lemma fetch_chunks_all_fail (cs : list (Z * Z)) :
  (forall k, retryable_failure (net k) = true) ->
  forall st,
    (foldl (fun st c => body c st) st cs).1 = st.1
    /\ gets (foldl (fun st c => body c st) st cs).2 = (gets st.2 + 3 * length cs)%nat
    /\ warned_chunks (trace (foldl (fun st c => body c st) st cs).2)
       = warned_chunks (trace st.2) ++ cs
    /\ sleeps (trace (foldl (fun st c => body c st) st cs).2)
       = sleeps (trace st.2) ++ concat (replicate (length cs) [2 # 1; 4 # 1]).
Proof.
  intros Hdown. induction cs as [|c cs IH]; intros st.
  - simpl. rewrite !app_nil_r. repeat split. lia.
  - cbn [foldl]. destruct (IH (body c st)) as (Hf & Hg & Hw & Hs).
    destruct (fetch_chunk_all_fail c st Hdown) as (Hf1 & Hg1 & Hw1 & Hs1).
    rewrite Hf, Hg, Hw, Hs, Hf1, Hg1, Hw1, Hs1, <- !app_assoc.
    repeat split. simpl length. lia.
Qed.

End FailedChunks.

(** X7: in a run of the chunk loop (for [start <= end], [chunk_days >= 1]
    and dates that a [Timestamp] can hold up to [end + 1] and
    [end + chunk_days - 1]) every chunk leaves either one warning for its own
    date range and no frame, or no warning and at most one frame: the
    warnings of the run are chunks of the tiling, in date order and each once
    at most, the frames collected are non-empty, and frames and warnings
    together are no more than the chunks.  No failure of a chunk stops the
    loop. *)
Theorem fetch_chunks_skip_failed_chunks
    (net : nat -> attempt observation) (stationid token : string)
    (datatypes : list string) (chunk_days limit start_dt end_dt : Z) (w : world) :
  start_dt <= end_dt ->
  1 <= chunk_days ->
  representable_day start_dt ->
  representable_day (end_dt + 1) ->
  representable_day (end_dt + (chunk_days - 1)) ->
  representable_day (chunk_days - 1) ->
  exists cs,
    tiles start_dt cs (end_dt + 1)
    /\ forall fuel, (length cs < fuel)%nat ->
         exists frames w' warned,
           fetch_chunks fuel net stationid token datatypes chunk_days limit
                        end_dt start_dt ([], w) = Some (Return frames, w')
           /\ warned_chunks (trace w') = warned_chunks (trace w) ++ warned
           /\ warned `sublist_of` cs
           /\ (length frames + length warned <= length cs)%nat
           /\ Forall (fun res => res <> []) frames.
Proof.
  intros Hle Hpos Hstart Hnext Hreach Hspan.
  destruct (fetch_chunks_run net stationid token datatypes chunk_days limit end_dt
              Hpos start_dt ltac:(lia) (proj1 Hstart) Hspan (proj2 Hreach)
              (proj2 Hnext))
    as (cs & Htiles & _ & _ & Hrun).
  exists cs. split; [exact Htiles|]. intros fuel Hfuel.
  destruct (fetch_chunks_frames_and_warnings net stationid token datatypes limit
              cs ([], w)) as (warned & new & Hw & Hf & Hsub & Hlen & Hne).
  destruct (foldl _ ([], w) cs) as [frames w'] eqn:Hfold.
  cbn [fst snd] in *. subst frames.
  exists new, w', warned. rewrite (Hrun fuel _ Hfuel), Hfold.
  repeat split; assumption.
Qed.

Lemma fetch_chunks_skip_failed_chunks_witness :
  exists cs,
    tiles 19357 cs (19436 + 1)
    /\ forall fuel, (length cs < fuel)%nat ->
         exists frames w' warned,
           fetch_chunks fuel sample_net "GHCND:USW00023234" "token"
                        ["TMAX"; "TMIN"] 30 1000 19436 19357
                        ([], {| gets := 0; trace := [] |}) = Some (Return frames, w')
           /\ warned_chunks (trace w')
              = warned_chunks (trace {| gets := 0; trace := [] |}) ++ warned
           /\ warned `sublist_of` cs
           /\ (length frames + length warned <= length cs)%nat
           /\ Forall (fun res => res <> []) frames.
Proof.
  apply (fetch_chunks_skip_failed_chunks sample_net "GHCND:USW00023234" "token"
           ["TMAX"; "TMIN"] 30 1000 19357 19436 {| gets := 0; trace := [] |});
    unfold representable_day, max_day; lia.
Defined.

(** X8: with the service down (every GET a read timeout or a connection
    error), [fetch_daily_chunked] still returns (for [start <= end],
    [chunk_days >= 1] and dates that a [Timestamp] can hold up to [end + 1]
    and [end + chunk_days - 1]): the table is the empty one, every chunk of
    the range was tried with three GETs and sleeps of 2 and 4 seconds, and
    each chunk is warned about, in date order. *)
Theorem fetch_daily_chunked_service_down
    (to_datetime_utc : string -> option Z)
    (net : nat -> attempt observation) (stationid token : string)
    (datatypes : list string) (chunk_days limit start end_ : Z) (w : world) :
  (forall k, retryable_failure (net k) = true) ->
  start <= end_ ->
  1 <= chunk_days ->
  representable_day start ->
  representable_day (end_ + 1) ->
  representable_day (end_ + (chunk_days - 1)) ->
  representable_day (chunk_days - 1) ->
  exists cs,
    tiles start cs (end_ + 1)
    /\ forall fuel, (length cs < fuel)%nat ->
         exists w',
           fetch_daily_chunked to_datetime_utc fuel net stationid start end_
                               token datatypes chunk_days limit w
           = Some (Return {| columns := []; rows := [] |}, w')
           /\ gets w' = (gets w + 3 * length cs)%nat
           /\ warned_chunks (trace w') = warned_chunks (trace w) ++ cs
           /\ sleeps (trace w')
              = sleeps (trace w) ++ concat (replicate (length cs) [2 # 1; 4 # 1]).
Proof.
  intros Hdown Hle Hpos Hstart Hnext Hreach Hspan.
  destruct (fetch_chunks_run net stationid token datatypes chunk_days limit end_
              Hpos start ltac:(lia) (proj1 Hstart) Hspan (proj2 Hreach)
              (proj2 Hnext))
    as (cs & Htiles & _ & _ & Hrun).
  exists cs. split; [exact Htiles|]. intros fuel Hfuel.
  destruct (fetch_chunks_all_fail net stationid token datatypes limit cs Hdown ([], w))
    as (Hf & Hg & Hw & Hs).
  destruct (foldl _ ([], w) cs) as [frames w'] eqn:Hfold.
  cbn [fst snd] in *. subst frames.
  exists w'. unfold fetch_daily_chunked.
  rewrite (to_timestamp_Return start Hstart).
  rewrite (to_timestamp_Return end_)
    by (unfold representable_day in *; lia).
  rewrite (Hrun fuel _ Hfuel), Hfold.
  repeat split; assumption.
Qed.

Lemma fetch_daily_chunked_service_down_witness :
  exists cs,
    tiles 19357 cs (19436 + 1)
    /\ forall fuel, (length cs < fuel)%nat ->
         exists w',
           fetch_daily_chunked sample_to_datetime fuel sample_outage
             "GHCND:USW00023234" 19357 19436 "token" ["TMAX"; "TMIN"] 30 1000
             {| gets := 0; trace := [] |}
           = Some (Return {| columns := []; rows := [] |}, w')
           /\ gets w' = (0 + 3 * length cs)%nat
           /\ warned_chunks (trace w') = [] ++ cs
           /\ sleeps (trace w') = [] ++ concat (replicate (length cs) [2 # 1; 4 # 1]).
Proof.
  apply (fetch_daily_chunked_service_down sample_to_datetime sample_outage
           "GHCND:USW00023234" "token" ["TMAX"; "TMIN"] 30 1000 19357 19436
           {| gets := 0; trace := [] |});
    [reflexivity|unfold representable_day, max_day; lia..].
Defined.

(** ** main of the weather script *)

Lemma foldl_min_spec (ts : list Z) (t : Z) :
  foldl Z.min t ts ∈ t :: ts /\ forall x, x ∈ t :: ts -> foldl Z.min t ts <= x.
Proof.
  revert t. induction ts as [|u ts IH]; intros t.
  - simpl. split; [left|]. intros x Hx. apply list_elem_of_singleton in Hx. lia.
  - cbn [foldl]. destruct (IH (Z.min t u)) as [Hin Hle]. split.
    + apply elem_of_cons in Hin as [Heq|Hin]; [|right; right; exact Hin].
      rewrite Heq. destruct (Z.min_spec t u) as [[_ ->]|[_ ->]]; [left|right; left].
    + intros x Hx. rewrite !elem_of_cons in Hx.
      destruct Hx as [Hx|[Hx|Hx]]; [| |apply Hle; right; exact Hx];
        specialize (Hle (Z.min t u) ltac:(left)); lia.
Qed.

Lemma foldl_max_spec (ts : list Z) (t : Z) :
  foldl Z.max t ts ∈ t :: ts /\ forall x, x ∈ t :: ts -> x <= foldl Z.max t ts.
Proof.
  revert t. induction ts as [|u ts IH]; intros t.
  - simpl. split; [left|]. intros x Hx. apply list_elem_of_singleton in Hx. lia.
  - cbn [foldl]. destruct (IH (Z.max t u)) as [Hin Hle]. split.
    + apply elem_of_cons in Hin as [Heq|Hin]; [|right; right; exact Hin].
      rewrite Heq. destruct (Z.max_spec t u) as [[_ ->]|[_ ->]]; [right; left|left].
    + intros x Hx. rewrite !elem_of_cons in Hx.
      destruct Hx as [Hx|[Hx|Hx]]; [| |apply Hle; right; exact Hx];
        specialize (Hle (Z.max t u) ltac:(left)); lia.
Qed.

Lemma date_of_day_before t : date_of (t - ns_per_day) = date_of t - 1.
Proof.
  unfold date_of. replace (t - ns_per_day) with (t + (-1) * ns_per_day) by lia.
  rewrite Z.div_add by (unfold ns_per_day; lia). lia.
Qed.

Lemma date_of_day_after t : date_of (t + ns_per_day) = date_of t + 1.
Proof.
  unfold date_of. replace (t + ns_per_day) with (t + 1 * ns_per_day) by lia.
  rewrite Z.div_add by (unfold ns_per_day; lia). lia.
Qed.

Lemma date_of_mono a b : a <= b -> date_of a <= date_of b.
Proof. intros H. apply Z.div_le_mono; [unfold ns_per_day; lia|exact H]. Qed.

Section EventWindow.
Variable to_datetime_utc : string -> option Z.

Lemma event_window_spec (events : list event_row) :
  match event_window to_datetime_utc events with
  | None => forall e, e ∈ events -> event_dt to_datetime_utc e = None
  | Some (start, end_) =>
      exists first last,
        first ∈ events /\ last ∈ events
        /\ event_date to_datetime_utc first = Some (start + 1)
        /\ event_date to_datetime_utc last = Some (end_ - 1)
        /\ forall e d, e ∈ events -> event_date to_datetime_utc e = Some d ->
                       start + 1 <= d <= end_ - 1
  end.
Proof.
  unfold event_window, min_max.
  destruct (omap (event_dt to_datetime_utc) events) as [|t ts] eqn:Hts.
  - intros e He. destruct (event_dt to_datetime_utc e) as [x|] eqn:Hx; [|reflexivity].
    assert (Hin : x ∈ omap (event_dt to_datetime_utc) events)
      by (apply list_elem_of_omap; eauto).
    rewrite Hts in Hin. inversion Hin.
  - destruct (foldl_min_spec ts t) as [Hmin_in Hmin].
    destruct (foldl_max_spec ts t) as [Hmax_in Hmax].
    rewrite <- Hts in Hmin_in, Hmax_in.
    apply list_elem_of_omap in Hmin_in as (first & Hfirst & Hfdt).
    apply list_elem_of_omap in Hmax_in as (last & Hlast & Hldt).
    exists first, last. split; [exact Hfirst|]. split; [exact Hlast|].
    unfold event_date. rewrite Hfdt, Hldt. cbn [fmap option_fmap option_map].
    rewrite date_of_day_before, date_of_day_after.
    split; [f_equal; lia|]. split; [f_equal; lia|].
    intros e d He Hd.
    destruct (event_dt to_datetime_utc e) as [x|] eqn:Hx; [|discriminate Hd].
    injection Hd as <-.
    assert (Hin : x ∈ t :: ts)
      by (rewrite <- Hts; apply list_elem_of_omap; eauto).
    pose proof (date_of_mono _ _ (Hmin x Hin)).
    pose proof (date_of_mono _ _ (Hmax x Hin)). lia.
Qed.

(** X9: the date window [main] queries reaches from the day before the
    earliest event to the day after the latest: every event whose timestamp
    parses lies strictly inside it, some event lies on its second day and some
    on its last but one (so it is never empty); there is no window exactly
    when no timestamp parses. *)
Theorem event_window_covers_events (events : list event_row) :
  match event_window to_datetime_utc events with
  | None => forall e, e ∈ events -> event_date to_datetime_utc e = None
  | Some (start, end_) =>
      start + 2 <= end_
      /\ (forall e d, e ∈ events -> event_date to_datetime_utc e = Some d ->
                      start < d < end_)
      /\ (exists e, e ∈ events /\ event_date to_datetime_utc e = Some (start + 1))
      /\ (exists e, e ∈ events /\ event_date to_datetime_utc e = Some (end_ - 1))
  end.
Proof.
  pose proof (event_window_spec events) as H.
  destruct (event_window to_datetime_utc events) as [[start end_]|].
  - destruct H as (first & last & Hf & Hl & Hfd & Hld & Hall).
    split; [specialize (Hall first _ Hf Hfd); lia|].
    split; [intros e d He Hd; specialize (Hall e d He Hd); lia|].
    split; eauto.
  - intros e He. unfold event_date. rewrite (H e He). reflexivity.
Qed.

End EventWindow.

(** With more fuel than there are chunks, [fetch_daily_chunked] comes to an
    end. *)
Lemma fetch_daily_chunked_ends (to_datetime_utc : string -> option Z)
    (net : nat -> attempt observation) (stationid token : string)
    (datatypes : list string) (chunk_days limit start end_ : Z) (w : world)
    (fuel : nat) :
  start <= end_ ->
  1 <= chunk_days ->
  (Z.to_nat ((end_ - start + chunk_days) / chunk_days) < fuel)%nat ->
  exists out w',
    fetch_daily_chunked to_datetime_utc fuel net stationid start end_ token
                        datatypes chunk_days limit w = Some (out, w').
Proof.
  intros Hle Hpos Hfuel. unfold fetch_daily_chunked, to_timestamp.
  destruct (in_bounds (start * ns_per_day)); [|eauto].
  destruct (in_bounds (end_ * ns_per_day)); [|eauto].
  destruct (fetch_chunks_ends net stationid token datatypes chunk_days limit end_
              Hpos _ start ltac:(lia) eq_refl)
    as (cs & fin & Hlen & _ & _ & Hrun).
  rewrite (Hrun fuel ([], w)) by lia.
  destruct fin; eauto.
Qed.

Section NoaaMainFacts.
Variable m : libm.
Variable to_datetime_utc : string -> option Z.
Variable median_point : list event_row -> float * float.

Local Abbreviation main := (noaa_main m to_datetime_utc median_point).

(** X10: when [main] gets as far as writing its output, the events file was
    read and the table has exactly one row per event of the input, in the
    input order, and a row that carries observations carries those of the
    event's own calendar date. *)
Theorem noaa_main_one_row_per_event (fuel : nat) (environ_token : option string)
    (read_csv : outcome (list event_row)) (stations_net : nat -> attempt station)
    (data_net : nat -> attempt observation) (w w' : world)
    (joined : list (event_row * option (Z * list (option Q)))) :
  main fuel environ_token read_csv stations_net data_net w
  = Some (Finished joined, w') ->
  exists events,
    read_csv = Return events
    /\ joined.*1 = events
    /\ forall e r, (e, Some r) ∈ joined -> noaa_date r = event_date to_datetime_utc e.
Proof.
  unfold noaa_main.
  destruct environ_token as [[|c token]|], read_csv as [events|e0]; try discriminate.
  destruct (event_window to_datetime_utc events) as [[start end_]|]; [|discriminate].
  destruct (window_in_bounds to_datetime_utc events); [|discriminate].
  destruct (median_point events) as [mid_lat mid_lng].
  destruct (find_nearest_station _ _ _ _ _ _ _ _ _ _) as [[[st|]|e] w1];
    try discriminate.
  destruct (station_id (best st)) as [stationid|]; [|discriminate].
  destruct (fetch_daily_chunked _ _ _ _ _ _ _ _ _ _ _) as [[[daily|e] w2]|] eqn:Hfetch;
    try discriminate.
  destruct (table_empty daily); [discriminate|].
  intros [= <- <-]. exists events. split; [reflexivity|].
  apply fetch_daily_chunked_table in Hfetch as (frames & _ & ->).
  unfold join_events.
  rewrite (merge_left_unique_key _ _ _ _
             (daily_table_one_row_per_day to_datetime_utc frames)).
  split.
  - change (map ?f events) with (f <$> events).
    rewrite <- list_fmap_compose. apply list_fmap_id.
  - intros e r Hin. change (map ?f events) with (f <$> events) in Hin.
    apply list_elem_of_fmap in Hin as (e' & [= <- Hr] & _).
    symmetry in Hr. apply head_Some_elem_of, list_elem_of_filter in Hr as [Hk _].
    exact Hk.
Qed.

(** X12: [main] always ends.  Its only loop is the chunk loop, over a window
    of at least three days cut into chunks of 30: with more fuel than the
    number of chunks, ceil (days / 30), the run comes to an end, whatever the
    events file holds and whatever the network answers. *)
Theorem noaa_main_terminates (environ_token : option string)
    (read_csv : outcome (list event_row)) (stations_net : nat -> attempt station)
    (data_net : nat -> attempt observation) (w : world) (fuel : nat) :
  let chunks :=
    match read_csv with
    | Return events =>
        match event_window to_datetime_utc events with
        | Some (start, end_) => Z.to_nat ((end_ - start + 1 + 29) / 30)
        | None => 0%nat
        end
    | Raise _ => 0%nat
    end in
  (chunks < fuel)%nat ->
  exists out w', main fuel environ_token read_csv stations_net data_net w
                 = Some (out, w').
Proof.
  intros chunks Hfuel. unfold noaa_main.
  destruct environ_token as [[|c token]|], read_csv as [events|e0];
    try (eexists _, _; reflexivity).
  pose proof (event_window_spec to_datetime_utc events) as Hwin.
  destruct (event_window to_datetime_utc events) as [[start end_]|];
    [|eexists _, _; reflexivity].
  destruct Hwin as (first & last & Hf & _ & Hfd & _ & Hall).
  assert (Hle : start <= end_) by (specialize (Hall first _ Hf Hfd); lia).
  destruct (window_in_bounds to_datetime_utc events); [|eexists _, _; reflexivity].
  destruct (median_point events) as [mid_lat mid_lng].
  destruct (find_nearest_station _ _ _ _ _ _ _ _ _ _) as [[[st|]|e1] w1];
    try (eexists _, _; reflexivity).
  destruct (station_id (best st)) as [stationid|]; [|eexists _, _; reflexivity].
  destruct (fetch_daily_chunked_ends to_datetime_utc data_net stationid
              (String c token) ["TMAX"; "TMIN"; "PRCP"; "WSF2"] 30 1000 start end_ w1
              fuel Hle ltac:(lia)) as (out & w2 & ->).
  - subst chunks. cbv beta iota in Hfuel.
    replace (end_ - start + 30) with (end_ - start + 1 + 29) by lia. exact Hfuel.
  - destruct out as [daily|e]; [|eexists _, _; reflexivity].
    destruct (table_empty daily); eexists _, _; reflexivity.
Qed.

End NoaaMainFacts.

Lemma noaa_main_one_row_per_event_witness :
  exists joined w',
    noaa_main small_angle_libm sample_to_datetime sample_median
              2 (Some "token") (Return sample_events) sample_stations sample_data_net
              {| gets := 0; trace := [] |}
    = Some (Finished joined, w')
    /\ joined.*1 = sample_events.
Proof.
  destruct (noaa_main small_angle_libm sample_to_datetime sample_median
              2 (Some "token") (Return sample_events) sample_stations sample_data_net
              {| gets := 0; trace := [] |})
    as [[[joined|msg|e] w']|] eqn:Hrun;
    try (vm_compute in Hrun; discriminate Hrun).
  exists joined, w'. split; [reflexivity|].
  destruct (noaa_main_one_row_per_event small_angle_libm sample_to_datetime
              sample_median 2 (Some "token") (Return sample_events)
              sample_stations sample_data_net _ w' joined Hrun)
    as (events & [= <-] & Hrows & _).
  exact Hrows.
Defined.

Lemma noaa_main_terminates_witness :
  exists out w',
    noaa_main small_angle_libm sample_to_datetime sample_median
              2 (Some "token") (Return sample_events) sample_stations sample_net
              {| gets := 0; trace := [] |}
    = Some (out, w').
Proof.
  apply (noaa_main_terminates small_angle_libm sample_to_datetime
           sample_median (Some "token") (Return sample_events) sample_stations
           sample_net {| gets := 0; trace := [] |} 2).
  vm_compute. lia.
Defined.

(** ** main of the amenity script: the centroids *)

Lemma strip_srid_raises_IndexError (geom : pyobj) (e : exn) :
  strip_srid geom = Raise e -> e = IndexError.
Proof.
  destruct geom as [g|repr]; simpl; [|discriminate].
  destruct (startswith g "SRID="); [|discriminate].
  destruct (split1 ";" g !! 1%nat); [discriminate|]. intros [= <-]. reflexivity.
Qed.

Section Centroids.
Variable centroid_of : string -> outcome (Q * Q).

Lemma perimeter_centroids_cons (i : Z) (cell : pyobj) (cells : list pyobj) :
  perimeter_centroids centroid_of i (cell :: cells)
  = match strip_srid cell with
    | Raise e => Raise e
    | Return wkt_text =>
        match perimeter_centroids centroid_of (i + 1) cells with
        | Raise e => Raise e
        | Return (centroids, warned) =>
            match wkt_text with
            | Str EmptyString => Return (centroids, warned)
            | Str text =>
                match centroid_of text with
                | Return (x, y) => Return ((i + 1, y, x) :: centroids, warned)
                | Raise e => Return (centroids, (i, e) :: warned)
                end
            | NotAStr _ => Return (centroids, (i, OtherError "TypeError") :: warned)
            end
        end
    end.
Proof.
  cbn [perimeter_centroids]. destruct (strip_srid cell) as [wkt_text|e]; [|reflexivity].
  destruct (perimeter_centroids centroid_of (i + 1) cells) as [[cs warned]|e];
    [|reflexivity].
  destruct wkt_text as [[|c text]|repr]; try reflexivity;
    destruct (centroid_of (String c text)) as [[x y]|e]; reflexivity.
Qed.

Lemma perimeter_centroids_raises (i : Z) (cells : list pyobj) (e : exn) :
  perimeter_centroids centroid_of i cells = Raise e <->
  exists cell, cell ∈ cells /\ strip_srid cell = Raise e.
Proof.
  revert i. induction cells as [|cell cells IH]; intros i.
  - simpl. split; [discriminate|]. intros (cell & H & _). inversion H.
  - rewrite perimeter_centroids_cons.
    destruct (strip_srid cell) as [wkt_text|e0] eqn:Hcell.
    + specialize (IH (i + 1)).
      destruct (perimeter_centroids centroid_of (i + 1) cells) as [[cs warned]|e1].
      * split.
        -- destruct wkt_text as [[|c text]|repr]; try discriminate.
           destruct (centroid_of (String c text)) as [[x y]|e2]; discriminate.
        -- intros (cell' & [->|Hin]%elem_of_cons & Hr); [congruence|].
           assert (Hfalse : @Return (list (Z * Q * Q) * list (Z * exn)) (cs, warned)
                            = Raise e) by (apply IH; eauto).
           discriminate Hfalse.
      * split.
        -- intros [= ->]. destruct (proj1 IH eq_refl) as (cell' & Hin & Hr).
           exists cell'. split; [right; exact Hin|exact Hr].
        -- intros (cell' & [->|Hin]%elem_of_cons & Hr); [congruence|].
           f_equal. assert (Raise e1 = @Raise (list (Z * Q * Q) * list (Z * exn)) e)
             as [= ->] by (apply IH; eauto). reflexivity.
    + split.
      * intros [= ->]. exists cell. split; [left|exact Hcell].
      * intros (cell' & Hin & Hr). f_equal.
        apply strip_srid_raises_IndexError in Hcell, Hr. congruence.
Qed.

(** What becomes of the row at position [n]: a centroid numbered from one, a
    warning numbered from zero, or nothing for an empty cell. *)
Lemma perimeter_centroids_rows (i : Z) (cells : list pyobj)
    (centroids : list (Z * Q * Q)) (warned : list (Z * exn)) :
  perimeter_centroids centroid_of i cells = Return (centroids, warned) ->
  (forall pid lat lon,
     (pid, lat, lon) ∈ centroids <->
     exists n cell text,
       cells !! n = Some cell /\ pid = i + Z.of_nat n + 1
       /\ strip_srid cell = Return (Str text)
       /\ centroid_of text = Return (lon, lat) /\ text <> EmptyString)
  /\ StronglySorted Z.lt (map (fun c => c.1.1) centroids)
  /\ Forall (fun c => i < c.1.1 <= i + Z.of_nat (length cells)) centroids
  /\ (length centroids + length warned <= length cells)%nat.
Proof.
  revert i centroids warned.
  induction cells as [|cell cells IH]; intros i centroids warned.
  - simpl. intros [= <- <-]. repeat split; try constructor.
    + inversion 1.
    + intros (n & cell & text & H & _). destruct n; discriminate H.
  - rewrite perimeter_centroids_cons.
    destruct (strip_srid cell) as [wkt_text|e0] eqn:Hcell; [|discriminate].
    destruct (perimeter_centroids centroid_of (i + 1) cells) as [[cs ws]|e1] eqn:Hrest;
      [|discriminate].
    destruct (IH (i + 1) cs ws Hrest) as (Hin & Hsorted & Hrange & Hlen).
    assert (Hlater : forall pid lat lon,
      (exists n cell' text, (cell :: cells) !! S n = Some cell'
         /\ pid = i + Z.of_nat (S n) + 1 /\ strip_srid cell' = Return (Str text)
         /\ centroid_of text = Return (lon, lat) /\ text <> EmptyString)
      <-> (pid, lat, lon) ∈ cs).
    { intros pid lat lon. rewrite Hin. split.
      - intros (n & c' & text & Hn & -> & H). exists n, c', text.
        split; [exact Hn|]. split; [lia|exact H].
      - intros (n & c' & text & Hn & -> & H). exists n, c', text.
        split; [exact Hn|]. split; [lia|exact H]. }
    assert (Hskip : (forall text lon lat, wkt_text = Str text ->
                       centroid_of text = Return (lon, lat) -> text = EmptyString) ->
      forall pid lat lon,
        (pid, lat, lon) ∈ cs <->
        exists n cell' text, (cell :: cells) !! n = Some cell'
          /\ pid = i + Z.of_nat n + 1 /\ strip_srid cell' = Return (Str text)
          /\ centroid_of text = Return (lon, lat) /\ text <> EmptyString).
    { intros Hno pid lat lon. rewrite <- Hlater. split.
      - intros (n & H). exists (S n). exact H.
      - intros ([|n] & c' & text & Hn & Hpid & Hs & Hc & Hne).
        + injection Hn as <-. rewrite Hcell in Hs. injection Hs as ->.
          destruct Hne. eapply Hno; eauto.
        + exists n, c', text. auto. }
    assert (Hrange' : Forall (fun c => i < c.1.1 <= i + Z.of_nat (length (cell :: cells))) cs).
    { eapply Forall_impl; [exact Hrange|]. simpl. intros c Hc. lia. }
    destruct wkt_text as [[|c text]|repr].
    + intros [= <- <-]. split; [|repeat split; try assumption; simpl; lia].
      apply Hskip. intros text lon lat [= <-] _. reflexivity.
    + destruct (centroid_of (String c text)) as [[x y]|e2] eqn:Hc.
      * intros [= <- <-]. split; [|split; [|split]].
        -- intros pid lat lon. rewrite elem_of_cons, <- Hlater. split.
           ++ intros [[= -> -> ->]|(n & H)]; [|exists (S n); exact H].
              exists 0%nat, cell, (String c text). simpl.
              repeat split; try assumption; try lia. discriminate.
           ++ intros ([|n] & c' & text' & Hn & Hpid & Hs & Hc' & Hne).
              ** left. injection Hn as <-. rewrite Hcell in Hs. injection Hs as <-.
                 rewrite Hc in Hc'. injection Hc' as -> ->.
                 rewrite Hpid. repeat f_equal. lia.
              ** right. exists n, c', text'. auto.
        -- simpl. constructor; [exact Hsorted|].
           apply Forall_forall. intros pid Hpid.
           change (map ?f cs) with (f <$> cs) in Hpid.
           apply list_elem_of_fmap in Hpid as (c0 & -> & Hc0).
           rewrite Forall_forall in Hrange. specialize (Hrange c0 Hc0).
           simpl in *. lia.
        -- constructor; [simpl; lia|exact Hrange'].
        -- simpl. lia.
      * intros [= <- <-]. split; [|repeat split; try assumption; simpl; lia].
        apply Hskip. intros text' lon lat [= <-] Hc'. congruence.
    + intros [= <- <-]. split; [|repeat split; try assumption; simpl; lia].
      apply Hskip. intros text lon lat [=].
Qed.

End Centroids.

(** X13: the centroids [main] computes from a perimeter table: the row at
    position [n] (from zero) gives a centroid exactly when [strip_srid]
    returns a non-empty text for its [geom] cell and that text parses, and the
    centroid is then numbered [n + 1] with latitude [y] and longitude [x] of
    the point; the identifiers come out strictly increasing (so no two
    centroids share one), and a row gives a centroid or a warning, not both. *)
Theorem perimeter_centroids_numbering (centroid_of : string -> outcome (Q * Q))
    (cells : list pyobj) (centroids : list (Z * Q * Q)) (warned : list (Z * exn)) :
  perimeter_centroids centroid_of 0 cells = Return (centroids, warned) ->
  (forall pid lat lon,
     (pid, lat, lon) ∈ centroids <->
     exists n cell text,
       cells !! n = Some cell /\ pid = Z.of_nat n + 1
       /\ strip_srid cell = Return (Str text)
       /\ centroid_of text = Return (lon, lat) /\ text <> EmptyString)
  /\ StronglySorted Z.lt (map (fun c => c.1.1) centroids)
  /\ (length centroids + length warned <= length cells)%nat.
Proof.
  intros Hrun.
  destruct (perimeter_centroids_rows centroid_of 0 cells centroids warned Hrun)
    as (Hin & Hsorted & _ & Hlen).
  split; [|split; assumption].
  intros pid lat lon. rewrite Hin. split;
    intros (n & cell & text & Hn & Hpid & H); exists n, cell, text;
    (split; [exact Hn|split; [lia|exact H]]).
Qed.

Lemma perimeter_centroids_numbering_witness :
  exists centroids warned,
    perimeter_centroids sample_centroid_of 0 sample_cells = Return (centroids, warned)
    /\ StronglySorted Z.lt (map (fun c => c.1.1) centroids)
    /\ (length centroids + length warned <= length sample_cells)%nat.
Proof.
  destruct (perimeter_centroids sample_centroid_of 0 sample_cells)
    as [[centroids warned]|e] eqn:Hrun; [|vm_compute in Hrun; discriminate Hrun].
  exists centroids, warned. split; [reflexivity|].
  exact (proj2 (perimeter_centroids_numbering sample_centroid_of sample_cells
                  centroids warned Hrun)).
Defined.

(** ** main of the amenity script: the queries *)

Lemma is_infinity_spec (x : float) :
  is_infinity x = true <-> exists s, Prim2SF x = S754_infinity s.
Proof.
  unfold is_infinity. rewrite FloatAxioms.eqb_spec, FloatAxioms.abs_spec.
  change (Prim2SF infinity) with (S754_infinity false).
  destruct (Prim2SF x) as [s|s| |s mx ex]; simpl.
  - split; [discriminate|]. intros [s' H]. discriminate H.
  - split; [eauto|reflexivity].
  - split; [discriminate|]. intros [s' H]. discriminate H.
  - split; [discriminate|]. intros [s' H]. discriminate H.
Qed.

(** [int] raises on NaN and on the infinities, and on nothing else. *)
Lemma int_of_float_Raise (x : float) (e : exn) :
  int_of_float x = Raise e <->
  (is_nan x = true /\ e = OtherError "ValueError")
  \/ (is_infinity x = true /\ e = OtherError "OverflowError").
Proof.
  rewrite is_nan_spec, is_infinity_spec. unfold int_of_float.
  destruct (Prim2SF x) as [s|s| |s mx ex].
  - split; [discriminate|]. intros [[H _]|[[s' H] _]]; discriminate H.
  - split.
    + intros [= <-]. right. eauto.
    + intros [[H _]|[_ ->]]; [discriminate H|reflexivity].
  - split.
    + intros [= <-]. left. auto.
    + intros [[_ ->]|[[s' H] _]]; [reflexivity|discriminate H].
  - split; [discriminate|]. intros [[H _]|[[s' H] _]]; discriminate H.
Qed.

Lemma overpass_answer_Return (a : attempt element) (rows : list amenity_row) :
  overpass_answer a = Return rows ->
  exists resp items,
    a = Responds resp /\ ~ (400 <= status_code resp < 600)
    /\ body resp = Some (JDict items)
    /\ rows = map row_of_element (default [] items).
Proof.
  destruct a as [ne|resp]; simpl; [discriminate|].
  destruct ((400 <=? status_code resp) && (status_code resp <? 600)) eqn:Hs;
    [discriminate|].
  apply andb_false_iff in Hs. rewrite Z.leb_gt, Z.ltb_ge in Hs.
  destruct (body resp) as [[items|]|] eqn:Hb; try discriminate.
  intros [= <-]. exists resp, items. repeat split; [lia|exact Hb].
Qed.

Lemma perimeter_rows_elem (net : nat -> attempt element) (k : nat)
    (centroids : list (Z * Q * Q)) (r : amenity_row) :
  r ∈ perimeter_rows net k centroids ->
  exists i pid lat lon rows r0,
    centroids !! i = Some (pid, lat, lon)
    /\ overpass_answer (net (k + i)%nat) = Return rows
    /\ r0 ∈ rows /\ r = set_perim_id pid r0.
Proof.
  revert k. induction centroids as [|[[pid lat] lon] cs IH]; intros k;
    [inversion 1|].
  cbn [perimeter_rows]. intros [Hr|Hr]%elem_of_app.
  - destruct (overpass_answer (net k)) as [rows|e] eqn:Hk; [|inversion Hr].
    change (map ?f ?l) with (f <$> l) in Hr.
    apply list_elem_of_fmap in Hr as (r0 & -> & Hr0).
    exists 0%nat, pid, lat, lon, rows, r0. rewrite Nat.add_0_r. auto.
  - destruct (IH (S k) Hr) as (i & pid' & lat' & lon' & rows & r0 & Hi & Hk & H).
    exists (S i), pid', lat', lon', rows, r0.
    replace (k + S i)%nat with (S k + i)%nat by lia. auto.
Qed.

Section PerimeterQueries.
Variable net : nat -> attempt element.
Variables (amenities : list string) (radius_m : Z).

(** A query is one GET, and ends as the answer to that GET has it. *)
Lemma query_overpass_answer (lat lon : Q) (w : world) :
  query_overpass net amenities lat lon radius_m w
  = (overpass_answer (net (gets w)),
     {| gets := S (gets w);
        trace := trace w ++ [EvGet OVERPASS None
                                   (OverpassParams amenities lat lon radius_m)] |}).
Proof.
  unfold query_overpass, mbind, M_bind, session_get, overpass_answer.
  destruct (net (gets w)) as [e|r]; [reflexivity|].
  unfold raise_for_status.
  destruct ((400 <=? status_code r) && (status_code r <? 600)); [reflexivity|].
  unfold response_json. cbn. destruct (body r) as [[items|]|]; reflexivity.
Qed.

Lemma query_perimeters_trace (centroids : list (Z * Q * Q)) :
  forall (all_rows : list amenity_row) (w : world),
    let out := query_perimeters net amenities radius_m centroids all_rows w in
    gets out.2 = (gets w + length centroids)%nat
    /\ trace out.2
       = trace w ++ perimeter_events net amenities radius_m (gets w) centroids
    /\ out.1 = all_rows ++ perimeter_rows net (gets w) centroids.
Proof.
  induction centroids as [|[[pid lat] lon] cs IH]; intros all_rows w out.
  - subst out. simpl. rewrite !app_nil_r, Nat.add_0_r. auto.
  - subst out. cbn [query_perimeters perimeter_events perimeter_rows].
    rewrite query_overpass_answer.
    destruct (overpass_answer (net (gets w))) as [rows|e];
      match goal with
      | |- context [query_perimeters net amenities radius_m cs ?r ?w'] =>
          destruct (IH r w') as (Hg & Ht & Hr)
      end;
      cbn [gets trace log] in *; rewrite Hg, Ht, Hr;
      (split; [simpl; lia|]); rewrite <- !app_assoc; split; reflexivity.
Qed.

Lemma query_perimeters_account (centroids : list (Z * Q * Q)) :
  forall (all_rows : list amenity_row) (w : world),
    let out := query_perimeters net amenities radius_m centroids all_rows w in
    overpass_queries (trace out.2)
    = overpass_queries (trace w) ++ map (fun c => (c.1.2, c.2)) centroids
    /\ exists warned,
         warned_perimeters (trace out.2) = warned_perimeters (trace w) ++ warned
         /\ warned `sublist_of` map (fun c => c.1.1) centroids
         /\ sleeps (trace out.2)
            = sleeps (trace w)
              ++ replicate (length centroids - length warned) pause.
Proof.
  induction centroids as [|[[pid lat] lon] cs IH]; intros all_rows w out.
  - subst out. simpl. rewrite !app_nil_r.
    split; [reflexivity|].
    exists []. rewrite !app_nil_r. repeat split. constructor.
  - subst out. cbn [query_perimeters]. rewrite query_overpass_answer.
    destruct (overpass_answer (net (gets w))) as [rows|e].
    + match goal with
      | |- context [query_perimeters net amenities radius_m cs ?r ?w'] =>
          destruct (IH r w') as (Hq & (warned & Hwn & Hsub & Hsl))
      end.
      cbn [gets trace log] in *.
      unfold overpass_queries, warned_perimeters, sleeps in *.
      rewrite !omap_app in *. cbn [omap list_omap] in *.
      rewrite !app_nil_r in *.
      split; [rewrite Hq, <- app_assoc; reflexivity|].
      exists warned. split; [exact Hwn|]. split; [apply sublist_cons, Hsub|].
      rewrite Hsl, <- app_assoc. f_equal.
      apply sublist_length in Hsub. rewrite length_map in Hsub.
      simpl length. replace (S (length cs) - length warned)%nat
        with (S (length cs - length warned)) by lia. reflexivity.
    + match goal with
      | |- context [query_perimeters net amenities radius_m cs ?r ?w'] =>
          destruct (IH r w') as (Hq & (warned & Hwn & Hsub & Hsl))
      end.
      cbn [gets trace log] in *.
      unfold overpass_queries, warned_perimeters, sleeps in *.
      rewrite !omap_app in *. cbn [omap list_omap] in *.
      rewrite !app_nil_r in *.
      split; [rewrite Hq, <- app_assoc; reflexivity|].
      exists (pid :: warned). split; [rewrite Hwn, <- app_assoc; reflexivity|].
      split; [apply sublist_skip, Hsub|].
      rewrite Hsl. reflexivity.
Qed.

End PerimeterQueries.

(** X14: the per-perimeter loop sends exactly one query per centroid, in the
    order of the centroids and whether or not earlier queries failed, and each
    query is followed at once by its own ending: the trace of the loop is, for
    each centroid in turn, the GET and then the pause of 1.2 seconds if the
    query returned, the warning naming its perimeter if it raised.  The rows
    collected are those of the queries that returned, tagged with their
    perimeter.  So the queries are as many as the centroids, and pauses and
    warnings together as well. *)
Theorem query_perimeters_one_query_per_perimeter
    (net : nat -> attempt element) (amenities : list string) (radius_m : Z)
    (centroids : list (Z * Q * Q)) (all_rows : list amenity_row) (w : world) :
  let out := query_perimeters net amenities radius_m centroids all_rows w in
  gets out.2 = (gets w + length centroids)%nat
  /\ trace out.2
     = trace w ++ perimeter_events net amenities radius_m (gets w) centroids
  /\ out.1 = all_rows ++ perimeter_rows net (gets w) centroids
  /\ overpass_queries (trace out.2)
     = overpass_queries (trace w) ++ map (fun c => (c.1.2, c.2)) centroids
  /\ exists warned,
       warned_perimeters (trace out.2) = warned_perimeters (trace w) ++ warned
       /\ warned `sublist_of` map (fun c => c.1.1) centroids
       /\ sleeps (trace out.2)
          = sleeps (trace w) ++ replicate (length centroids - length warned) pause.
Proof.
  intros out.
  destruct (query_perimeters_trace net amenities radius_m centroids all_rows w)
    as (Hg & Ht & Hr).
  destruct (query_perimeters_account net amenities radius_m centroids all_rows w)
    as (Hq & Hw).
  repeat split; assumption.
Qed.

(** X15: in lines 68-94 an exception escapes [main] of the amenity script
    exactly when [strip_srid] raises on the [geom] cell of some row (a text
    that begins with ["SRID="] and holds no [";"]), which is an [IndexError];
    or, no cell doing so, when the radius times 1000 is NaN or infinite, on
    which [int] raises [ValueError] or [OverflowError] (line 81).  Either way
    the run ends before any query is sent.  Nothing that goes wrong with WKT
    parsing or with Overpass escapes. *)
Theorem osm_main_escapes_iff (centroid_of : string -> outcome (Q * Q))
    (amenities_arg : string) (radius_km : float) (cells : list pyobj)
    (net : nat -> attempt element) (w : world) (e : exn) :
  let out := osm_main centroid_of amenities_arg radius_km cells net w in
  (out.1 = Escaped e <->
   (e = IndexError /\ exists cell, cell ∈ cells /\ strip_srid cell = Raise IndexError)
   \/ ((forall cell, cell ∈ cells -> strip_srid cell <> Raise IndexError)
       /\ ((is_nan (radius_km * 1000) = true /\ e = OtherError "ValueError")
           \/ (is_infinity (radius_km * 1000) = true
               /\ e = OtherError "OverflowError"))))
  /\ (out.1 = Escaped e -> out.2 = w).
Proof.
  intros out. subst out. unfold osm_main.
  pose proof (perimeter_centroids_raises centroid_of 0 cells) as Hraise.
  destruct (perimeter_centroids centroid_of 0 cells) as [[centroids warned]|e0].
  - assert (Hcells : forall cell, cell ∈ cells -> strip_srid cell <> Raise IndexError).
    { intros cell Hin Hcell.
      assert (H : @Return (list (Z * Q * Q) * list (Z * exn)) (centroids, warned)
                  = Raise IndexError) by (apply Hraise; eauto).
      discriminate H. }
    pose proof (int_of_float_Raise (radius_km * 1000)) as Hint.
    destruct (int_of_float (radius_km * 1000)) as [radius_m|e1].
    + destruct (query_perimeters _ _ _ _ _ _) as [rows w']. cbn [fst snd]. split.
      * split; [discriminate|]. intros [(_ & cell & Hin & Hcell)|[_ H]].
        -- destruct (Hcells cell Hin Hcell).
        -- apply Hint in H. discriminate H.
      * discriminate.
    + cbn [fst snd]. split; [|reflexivity]. split.
      * intros [= <-]. right. split; [exact Hcells|]. apply Hint. reflexivity.
      * intros [(_ & cell & Hin & Hcell)|[_ H]].
        -- destruct (Hcells cell Hin Hcell).
        -- apply Hint in H. congruence.
  - cbn [fst snd]. split; [|reflexivity].
    destruct (proj1 (Hraise e0) eq_refl) as (cell & Hin & Hcell).
    pose proof (strip_srid_raises_IndexError _ _ Hcell) as ->.
    split.
    + intros [= <-]. left. split; [reflexivity|]. eauto.
    + intros [(-> & _)|[Hnone _]]; [reflexivity|].
      destruct (Hnone cell Hin Hcell).
Qed.

(** X16: every amenity row [main] writes is the row of an element of the
    answer Overpass gave to one of the queries of the run (an answer with a
    status outside 400-599 and a JSON object), tagged with the identifier of
    a perimeter: the position, counted from one, of a row of the perimeter
    table whose [geom] cell [strip_srid] turned into a non-empty text that
    parsed. *)
Theorem osm_main_rows_name_their_perimeter
    (centroid_of : string -> outcome (Q * Q))
    (amenities_arg : string) (radius_km : float) (cells : list pyobj)
    (net : nat -> attempt element) (w : world) (rows : list amenity_row) :
  (osm_main centroid_of amenities_arg radius_km cells net w).1 = Finished rows ->
  forall r, r ∈ rows ->
    exists n cell text lon lat i resp items el,
      cells !! n = Some cell
      /\ strip_srid cell = Return (Str text) /\ text <> EmptyString
      /\ centroid_of text = Return (lon, lat)
      /\ net (gets w + i)%nat = Responds resp
      /\ ~ (400 <= status_code resp < 600)
      /\ body resp = Some (JDict items)
      /\ el ∈ default [] items
      /\ r = set_perim_id (Z.of_nat n + 1) (row_of_element el).
Proof.
  unfold osm_main.
  destruct (perimeter_centroids centroid_of 0 cells) as [[centroids warned]|e0] eqn:Hc;
    [|discriminate].
  destruct (perimeter_centroids_rows centroid_of 0 cells centroids warned Hc)
    as (Hin & _).
  destruct (int_of_float (radius_km * 1000)) as [radius_m|e1]; [|discriminate].
  destruct (query_perimeters_trace net (parse_amenities amenities_arg) radius_m
              centroids [] w) as (_ & _ & Hrows).
  destruct (query_perimeters _ _ _ _ _ _) as [rows' w']. cbn [fst snd app] in *.
  intros [= <-]. subst rows'. intros r Hr.
  apply perimeter_rows_elem in Hr
    as (i & pid & lat & lon & answered & r0 & Hi & Hanswer & Hr0 & ->).
  apply overpass_answer_Return in Hanswer as (resp & items & Hnet & Hs & Hb & ->).
  change (map ?f ?l) with (f <$> l) in Hr0.
  apply list_elem_of_fmap in Hr0 as (el & -> & Hel).
  apply list_elem_of_lookup_2, Hin in Hi
    as (n & cell & text & Hn & -> & Hstrip & Hcen & Hne).
  exists n, cell, text, lon, lat, i, resp, items, el.
  replace (0 + Z.of_nat n + 1) with (Z.of_nat n + 1) by lia.
  repeat split; assumption.
Qed.

Lemma osm_main_rows_name_their_perimeter_witness :
  exists rows,
    (osm_main sample_centroid_of "fire_station,hospital" 5 sample_cells
              sample_overpass_up {| gets := 0; trace := [] |}).1 = Finished rows
    /\ forall r, r ∈ rows ->
         exists n cell text lon lat i resp items el,
           sample_cells !! n = Some cell
           /\ strip_srid cell = Return (Str text) /\ text <> EmptyString
           /\ sample_centroid_of text = Return (lon, lat)
           /\ sample_overpass_up (0 + i)%nat = Responds resp
           /\ ~ (400 <= status_code resp < 600)
           /\ body resp = Some (JDict items)
           /\ el ∈ default [] items
           /\ r = set_perim_id (Z.of_nat n + 1) (row_of_element el).
Proof.
  destruct (osm_main sample_centroid_of "fire_station,hospital" 5 sample_cells
              sample_overpass_up {| gets := 0; trace := [] |}).1
    as [rows|msg|e] eqn:Hrun; try (vm_compute in Hrun; discriminate Hrun).
  exists rows. split; [reflexivity|].
  exact (osm_main_rows_name_their_perimeter sample_centroid_of
           "fire_station,hospital" 5 sample_cells sample_overpass_up
           {| gets := 0; trace := [] |} rows Hrun).
Defined.

(** X17: as long as Overpass answers every query with a status outside
    400-599 and a JSON object, the queries [main] sends are paced: between a
    GET and the next one there is a sleep of at least a second. *)
Theorem osm_main_paced_when_overpass_answers
    (centroid_of : string -> outcome (Q * Q))
    (amenities_arg : string) (radius_km : float) (cells : list pyobj)
    (net : nat -> attempt element) (w : world) :
  (forall k, exists r items,
      net k = Responds r /\ ~ (400 <= status_code r < 600)
      /\ body r = Some (JDict items)) ->
  paced (trace w) = true ->
  waited_after true (trace w) = true ->
  paced (trace (osm_main centroid_of amenities_arg radius_km cells net w).2) = true.
Proof.
  intros Hup Hp Hw. unfold osm_main.
  destruct (perimeter_centroids centroid_of 0 cells) as [[centroids warned]|e0];
    [|exact Hp].
  destruct (int_of_float (radius_km * 1000)) as [radius_m|e1]; [|exact Hp].
  pose proof (query_perimeters_paced_on_success net (parse_amenities amenities_arg)
                radius_m centroids [] w) as Hpaced.
  destruct (query_perimeters _ _ _ _ _ _) as [rows w']. cbn [snd] in *.
  apply Hpaced; [|exact Hp|exact Hw].
  intros lat lon w0. destruct (Hup (gets w0)) as (r & items & Hnet & Hs & Hb).
  unfold query_overpass, mbind, M_bind, session_get. rewrite Hnet.
  unfold raise_for_status.
  replace ((400 <=? status_code r) && (status_code r <? 600)) with false.
  2:{ symmetry. apply andb_false_iff. rewrite Z.leb_gt, Z.ltb_ge. lia. }
  unfold response_json. rewrite Hb. cbn. eauto.
Qed.

Lemma osm_main_paced_when_overpass_answers_witness :
  paced (trace (osm_main sample_centroid_of "fire_station,hospital" 5
                         sample_cells sample_overpass_up
                         {| gets := 0; trace := [] |}).2) = true.
Proof.
  apply osm_main_paced_when_overpass_answers; [|reflexivity|reflexivity].
  intros k. eexists _, _. split; [reflexivity|]. split; [simpl; lia|reflexivity].
Defined.

(** ** main of the amenity script: the list of amenities *)

Lemma split_on_pieces sep s :
  Forall (fun piece => cut_at_first sep piece = None) (split_on sep s).
Proof.
  induction s as [|c s IH]; simpl; [repeat constructor|].
  destruct (Ascii.eqb c sep) eqn:Hc; [constructor; [reflexivity|exact IH]|].
  destruct (split_on sep s) as [|piece pieces]; [repeat constructor; simpl; rewrite Hc; reflexivity|].
  apply Forall_cons in IH as [Hp Hps]. constructor; [|exact Hps].
  simpl. rewrite Hc, Hp. reflexivity.
Qed.

Lemma split_on_whole sep x :
  cut_at_first sep x = None -> split_on sep x = [x].
Proof.
  induction x as [|c x IH]; simpl; [reflexivity|].
  destruct (Ascii.eqb c sep); [discriminate|].
  destruct (cut_at_first sep x) as [[]|]; [discriminate|].
  intros _. rewrite IH; reflexivity.
Qed.

Lemma split_on_app sep x rest :
  cut_at_first sep x = None ->
  split_on sep (x ++ String sep rest) = x :: split_on sep rest.
Proof.
  induction x as [|c x IH]; simpl.
  - intros _. rewrite Ascii.eqb_refl. reflexivity.
  - destruct (Ascii.eqb c sep); [discriminate|].
    destruct (cut_at_first sep x) as [[]|]; [discriminate|].
    intros _. rewrite IH; reflexivity.
Qed.

Lemma lstrip_no_sep sep s :
  cut_at_first sep s = None -> cut_at_first sep (lstrip s) = None.
Proof.
  induction s as [|c s IH]; [reflexivity|].
  intros H. cbn [lstrip]. destruct (isspace c); [|exact H].
  apply IH. simpl in H. destruct (Ascii.eqb c sep); [discriminate|].
  destruct (cut_at_first sep s) as [[]|]; [discriminate|reflexivity].
Qed.

Lemma rstrip_no_sep sep s :
  cut_at_first sep s = None -> cut_at_first sep (rstrip s) = None.
Proof.
  induction s as [|c s IH]; [reflexivity|].
  simpl. destruct (Ascii.eqb c sep) eqn:Hc; [discriminate|].
  destruct (cut_at_first sep s) as [[]|]; [discriminate|]. intros _.
  specialize (IH eq_refl).
  destruct (rstrip s) as [|c' kept].
  - destruct (isspace c); [reflexivity|]. simpl. rewrite Hc. reflexivity.
  - simpl. rewrite Hc. simpl in IH. destruct (Ascii.eqb c' sep); [discriminate|].
    destruct (cut_at_first sep kept) as [[]|]; [discriminate|reflexivity].
Qed.

Lemma lstrip_starts_clean s : starts_clean (lstrip s).
Proof.
  induction s as [|c s IH]; [exact I|].
  cbn [lstrip]. destruct (isspace c) eqn:Hc; [exact IH|exact Hc].
Qed.

Lemma lstrip_fixed s : starts_clean s -> lstrip s = s.
Proof. destruct s as [|c s]; [reflexivity|]. simpl. intros ->. reflexivity. Qed.

Lemma rstrip_starts_clean s : starts_clean s -> starts_clean (rstrip s).
Proof.
  destruct s as [|c s]; [exact (fun H => H)|].
  simpl. intros Hc. destruct (rstrip s); [rewrite Hc|]; exact Hc.
Qed.

Lemma rstrip_idempotent s : rstrip (rstrip s) = rstrip s.
Proof.
  induction s as [|c s IH]; [reflexivity|].
  simpl. destruct (rstrip s) as [|c' kept] eqn:Hr.
  - destruct (isspace c) eqn:Hc; [reflexivity|]. simpl. rewrite Hc. reflexivity.
  - cbn [rstrip]. cbn [rstrip] in IH. rewrite IH. reflexivity.
Qed.

Lemma strip_idempotent s : strip (strip s) = strip s.
Proof.
  unfold strip.
  rewrite (lstrip_fixed (rstrip (lstrip s)))
    by apply rstrip_starts_clean, lstrip_starts_clean.
  apply rstrip_idempotent.
Qed.

(** X18: every amenity [main] keeps from its [--amenities] argument is
    non-empty, holds no comma and has no whitespace at either end (stripping it
    again changes nothing): empty and blank pieces are dropped. *)
Theorem parse_amenities_clean (arg : string) :
  Forall (fun a => a <> EmptyString /\ cut_at_first "," a = None /\ strip a = a)
         (parse_amenities arg).
Proof.
  unfold parse_amenities.
  pose proof (split_on_pieces "," arg) as Hpieces.
  induction Hpieces as [|piece pieces Hp _ IH]; [constructor|].
  cbn [flat_map]. apply Forall_app. split; [|exact IH].
  pose proof (strip_idempotent piece) as Hidem.
  pose proof (rstrip_no_sep _ _ (lstrip_no_sep _ _ Hp)) as Hsep.
  fold (strip piece) in Hsep.
  destruct (strip piece) as [|c kept]; [constructor|].
  repeat constructor; [discriminate|exact Hsep|exact Hidem].
Qed.

(** X19: the argument round-trips: a list of amenities that are non-empty,
    hold no comma and have no whitespace at either end, joined with commas, is
    read back as the same list. *)
Theorem parse_amenities_concat (amenities : list string) :
  Forall (fun a => a <> EmptyString /\ cut_at_first "," a = None /\ strip a = a)
         amenities ->
  parse_amenities (String.concat "," amenities) = amenities.
Proof.
  intros Hclean. unfold parse_amenities.
  assert (Hsplit : amenities <> [] ->
                   split_on "," (String.concat "," amenities) = amenities).
  { induction Hclean as [|a l (_ & Ha & _) Hl IH]; [congruence|]. intros _.
    destruct l as [|b l]; [apply split_on_whole, Ha|].
    change (String.concat "," (a :: b :: l))
      with (a ++ String "," (String.concat "," (b :: l)))%string.
    rewrite split_on_app by exact Ha. f_equal. apply IH. discriminate. }
  destruct amenities as [|a l]; [reflexivity|].
  rewrite Hsplit by discriminate. clear Hsplit.
  induction Hclean as [|x xs (Hne & _ & Hstrip) _ IH]; [reflexivity|].
  cbn [flat_map]. rewrite Hstrip, IH.
  destruct x; [congruence|reflexivity].
Qed.

Lemma parse_amenities_concat_witness :
  parse_amenities (String.concat "," ["fire_station"; "hospital"; "police"; "school"])
  = ["fire_station"; "hospital"; "police"; "school"].
Proof.
  apply parse_amenities_concat.
  repeat constructor; discriminate.
Defined.

(** ** The enrichment join without the one-row-per-date assumption *)

(** X20: the join never loses an event, whatever the daily table holds (even
    several rows for one date): every event has a row, every row is the row of
    an event, and the output has at least as many rows as the input; a row
    with observations carries a daily row of the event's own date, and a row
    without carries none because no daily row bears that date. *)
Theorem join_events_loses_no_event (to_datetime_utc : string -> option Z)
    (events : list event_row) (daily : table) :
  let joined := join_events to_datetime_utc events daily in
  (length events <= length joined)%nat
  /\ (forall e, e ∈ events <-> exists obs, (e, obs) ∈ joined)
  /\ (forall e r, (e, Some r) ∈ joined ->
        r ∈ rows daily /\ noaa_date r = event_date to_datetime_utc e)
  /\ (forall e, (e, None) ∈ joined ->
        forall r, r ∈ rows daily -> noaa_date r <> event_date to_datetime_utc e).
Proof.
  intros joined. subst joined. unfold join_events, merge_left.
  induction events as [|e events (IHlen & IHin & IHsome & IHnone)].
  - simpl. split; [lia|]. split; [|split].
    + intros e. split; [inversion 1|]. intros (obs & H). inversion H.
    + intros e r H. inversion H.
    + intros e H. inversion H.
  - cbn [flat_map].
    set (found := filter (fun r => noaa_date r = event_date to_datetime_utc e)
                         (rows daily)) in *.
    match goal with
    | |- context [?h ++ flat_map _ events] => set (here := h)
    end.
    assert (Hhere_len : (1 <= length here)%nat).
    { subst here. destruct found; simpl; lia. }
    assert (Hhere_fst : forall e' obs, (e', obs) ∈ here -> e' = e).
    { subst here. intros e' obs. destruct found as [|r0 rs].
      - intros H. apply list_elem_of_singleton in H. congruence.
      - intros H. change (map ?f ?l) with (f <$> l) in H.
        apply list_elem_of_fmap in H as (r & [= -> _] & _). reflexivity. }
    assert (Hhere_ex : exists obs, (e, obs) ∈ here).
    { subst here. destruct found as [|r0 rs]; eexists; left. }
    rewrite length_app. split; [cbn [length]; lia|]. split; [|split].
    + intros e'. rewrite elem_of_cons, IHin. split.
      * intros [->|(obs & H)].
        -- destruct Hhere_ex as [obs H]. exists obs. apply elem_of_app. left. exact H.
        -- exists obs. apply elem_of_app. right. exact H.
      * intros (obs & [H|H]%elem_of_app); [left; eapply Hhere_fst; exact H|].
        right. eauto.
    + intros e' r [H|H]%elem_of_app; [|apply IHsome, H].
      subst here. destruct found as [|r0 rs] eqn:Hf.
      * apply list_elem_of_singleton in H. discriminate H.
      * change (map ?f ?l) with (f <$> l) in H.
        apply list_elem_of_fmap in H as (r' & [= -> ->] & Hr').
        rewrite <- Hf in Hr'. subst found.
        apply list_elem_of_filter in Hr'. tauto.
    + intros e' [H|H]%elem_of_app; [|apply IHnone, H].
      subst here. destruct found as [|r0 rs] eqn:Hf.
      * apply list_elem_of_singleton in H. injection H as ->.
        intros r Hr Hk.
        assert (Hin : r ∈ found) by (subst found; apply list_elem_of_filter; auto).
        rewrite Hf in Hin. inversion Hin.
      * change (map ?f ?l) with (f <$> l) in H.
        apply list_elem_of_fmap in H as (r' & [=] & _).
Qed.
